(** * H.F-Capital CRM: list views, bulk actions and enrichment handlers

  A shallow embedding of [companies/views.py] and [leads/views.py].
  The handlers are Django views: the request is a pair of query
  dictionaries, the database is a record of tables threaded through the
  handlers, flash messages and redirects are returned as data, and the
  external collaborators (the enrichment look-ups and the mailing-list
  sync) are section variables that may return a value or raise.

  Strings are sequences of one-byte characters; [lower] and [strip] act on
  the ASCII range as Python's [str.lower] and [str.strip] do there. *)

From Stdlib Require Import ZArith Ascii String List Bool Lia Sorted.
From Stdlib Require OrderedTypeEx.
From stdpp Require Import base option list gmap strings fin_maps pretty.

Local Open Scope string_scope.
Local Open Scope Z_scope.

(* ===================================================================== *)
(** ** Python values and built-ins used by the views                      *)
(* ===================================================================== *)

Module Py.

(** The values that model attributes and collaborator results carry. *)
Inductive pyval :=
| PyNone
| PyBool (b : bool)
| PyInt (z : Z)
| PyStr (s : string).

#[global] Instance pyval_eq_dec : EqDecision pyval.
Proof. solve_decision. Defined.

(** Python truth value: [None], [False], [0] and [''] are falsy. *)
Definition truthy (v : pyval) : bool :=
  match v with
  | PyNone => false
  | PyBool b => b
  | PyInt z => negb (z =? 0)
  | PyStr s => negb (String.eqb s "")
  end.

(** [value is None or value == ''].  In Python [0 == ''] and
    [False == ''] are both false. *)
Definition is_none_or_empty (v : pyval) : bool :=
  match v with
  | PyNone => true
  | PyStr s => String.eqb s ""
  | _ => false
  end.

(** A dict with string keys. *)
Abbreviation dict := (gmap string pyval).

(** [d.get(k)]: the value, or [None] for a missing key. *)
Definition dict_get (d : dict) (k : string) : pyval :=
  default PyNone (d !! k).

(** [k in d]. *)
Definition dict_has (d : dict) (k : string) : bool :=
  bool_decide (is_Some (d !! k)).

(** Truth value of a result that is [None] or a dict: [None] and [{}]
    are falsy. *)
Definition truthy_result (r : option dict) : bool :=
  match r with
  | None => false
  | Some d => negb (bool_decide (d = ∅))
  end.

(** The outcome of calling a Python callable: it returns or it raises. *)
Inductive outcome (A : Type) :=
| Returned (a : A)
| Raised.
Arguments Returned {A} a.
Arguments Raised {A}.

(** [str.isspace] on the ASCII range: TAB..CR, FS..US and space. *)
Definition is_space (a : ascii) : bool :=
  let n := nat_of_ascii a in
  ((9 <=? n)%nat && (n <=? 13)%nat) || ((28 <=? n)%nat && (n <=? 32)%nat).

Fixpoint lstrip (s : string) : string :=
  match s with
  | EmptyString => EmptyString
  | String a s' => if is_space a then lstrip s' else s
  end.

Fixpoint rstrip (s : string) : string :=
  match s with
  | EmptyString => EmptyString
  | String a s' =>
      match rstrip s' with
      | EmptyString => if is_space a then EmptyString else String a EmptyString
      | r => String a r
      end
  end.

(** [s.strip()] *)
Definition strip (s : string) : string := rstrip (lstrip s).

Definition lower_ascii (a : ascii) : ascii :=
  let n := nat_of_ascii a in
  if ((65 <=? n)%nat && (n <=? 90)%nat) then ascii_of_nat (n + 32) else a.

(** [s.lower()] *)
Fixpoint lower (s : string) : string :=
  match s with
  | EmptyString => EmptyString
  | String a s' => String (lower_ascii a) (lower s')
  end.

(** [x or ''] for an optional string. *)
Definition or_empty (o : option string) : string := default "" o.

Definition digit_of (a : ascii) : option Z :=
  let n := nat_of_ascii a in
  if ((48 <=? n)%nat && (n <=? 57)%nat) then Some (Z.of_nat (n - 48)) else None.

(** Decimal digits with single underscores allowed between digits, as
    [int] accepts them. [seen] records that the previous character was a
    digit. *)
Fixpoint parse_digits (acc : Z) (seen : bool) (s : string) : option Z :=
  match s with
  | EmptyString => if seen then Some acc else None
  | String a s' =>
      match digit_of a with
      | Some d => parse_digits (10 * acc + d) true s'
      | None =>
          if Ascii.eqb a "_"%char && seen then parse_digits acc false s'
          else None
      end
  end.

(** [int(s)] for a string: [None] stands for [ValueError]. *)
Definition int (s : string) : option Z :=
  match strip s with
  | String "+"%char r => parse_digits 0 false r
  | String "-"%char r => Z.opp <$> parse_digits 0 false r
  | r => parse_digits 0 false r
  end.

(** [needle in hay] on strings. *)
Fixpoint contains (needle hay : string) : bool :=
  String.prefix needle hay
  || match hay with
     | EmptyString => false
     | String _ hay' => contains needle hay'
     end.

End Py.
Export Py.


(* ===================================================================== *)
(** ** Django: query dictionaries, flash messages, the paginator          *)
(* ===================================================================== *)

Module Django.

(** A [QueryDict] keeps every (key, value) pair of the query string or the
    form body, in order. *)
Definition QueryDict := list (string * string).

(** [q.getlist(k)]: every value submitted under [k]. *)
Definition getlist (q : QueryDict) (k : string) : list string :=
  map snd (List.filter (fun kv => String.eqb (fst kv) k) q).

(** [q.get(k)]: the last value submitted under [k], [None] when absent. *)
Definition get (q : QueryDict) (k : string) : option string :=
  last (getlist q k).

(** [q.get(k, d)] *)
Definition get_or (q : QueryDict) (k d : string) : string :=
  default d (get q k).

(** [q.pop(k, None)] on a copy: every pair under [k] is dropped. *)
Definition pop (q : QueryDict) (k : string) : QueryDict :=
  List.filter (fun kv => negb (String.eqb (fst kv) k)) q.

(** The keys of the underlying dict: each key once, in the order in which
    the keys first occur. *)
Fixpoint keys (q : QueryDict) : list string :=
  match q with
  | [] => []
  | (k, _) :: rest => k :: List.filter (fun k' => negb (String.eqb k' k)) (keys rest)
  end.

(** [q.lists()]: every key with the list of its values. *)
Definition lists (q : QueryDict) : list (string * list string) :=
  map (fun k => (k, getlist q k)) (keys q).

Record HttpRequest := {
  method : string;
  GET : QueryDict;
  POST : QueryDict
}.

Inductive level := SUCCESS | ERROR | INFO.

#[global] Instance level_eq_dec : EqDecision level.
Proof. solve_decision. Defined.

Definition flash := (level * string)%type.

(** What an action view hands back: a redirect carrying the flash messages
    it queued, a 404 from [get_object_or_404], or an exception that no
    handler caught (the request fails with a server error). *)
Inductive HttpResult :=
| Redirect (to : string) (flashes : list flash)
| Http404
| Uncaught.

(** *** [django.core.paginator.Paginator], with [orphans = 0] and
    [allow_empty_first_page = True], the defaults the views use. *)

Inductive page_error := PageNotAnInteger | EmptyPage.

Record Page (A : Type) := {
  object_list : list A;
  number : Z;
  page_num_pages : Z
}.
Arguments object_list {A} _.
Arguments number {A} _.
Arguments page_num_pages {A} _.

Section Paginator.
Context {A : Type}.
Variable objects : list A.
Variable per_page : Z.

Definition count : Z := Z.of_nat (length objects).

(** [ceil(max(1, count) / per_page)] *)
Definition num_pages : Z :=
  let hits := Z.max 1 count in
  (hits + per_page - 1) / per_page.

(** [int(number)] on the argument, then the range check. *)
Definition validate_number (n : pyval) : page_error + Z :=
  let parsed :=
    match n with
    | PyInt z => Some z
    | PyBool b => Some (if b then 1 else 0)
    | PyStr s => Py.int s
    | PyNone => None
    end in
  match parsed with
  | None => inl PageNotAnInteger
  | Some z =>
      if z <? 1 then inl EmptyPage
      else if num_pages <? z then inl EmptyPage
      else inr z
  end.

(** [object_list[bottom:top]] for a number that passed validation. *)
Definition page (n : Z) : Page A :=
  let bottom := (n - 1) * per_page in
  let top := bottom + per_page in
  let top := if count <=? top then count else top in
  {| object_list := firstn (Z.to_nat (top - bottom)) (skipn (Z.to_nat bottom) objects);
     number := n;
     page_num_pages := num_pages |}.

(** [get_page]: a page number that is not an integer gives page 1, one
    that is out of range (below 1 or above the last page) gives the last
    page. *)
Definition get_page (n : pyval) : Page A :=
  match validate_number n with
  | inr z => page z
  | inl PageNotAnInteger => page 1
  | inl EmptyPage => page num_pages
  end.

End Paginator.

Definition has_previous {A} (p : Page A) : bool := 1 <? number p.
Definition has_next {A} (p : Page A) : bool := number p <? page_num_pages p.

(** [page_number or 1] *)
Definition page_or_1 (page_number : string) : pyval :=
  if String.eqb page_number "" then PyInt 1 else PyStr page_number.

End Django.
Export Django.

(* ===================================================================== *)
(** ** The persisted schema and the query-set operations the views use    *)
(* ===================================================================== *)

Module Models.

(** [leads/models.py] is not among the sources: the columns below are the
    ones the views read and write, the keys the ones the specification
    names (companies by domain, leads by email). *)

(** A company row: the primary key [domain] and the remaining columns by
    attribute name, as [getattr]/[setattr] see them.  A column that is
    absent from the map is NULL. *)
Record Company := {
  domain : string;
  attrs : gmap string pyval
}.

Definition getattr (c : Company) (field : string) : pyval :=
  default PyNone (attrs c !! field).

Definition setattr (c : Company) (field : string) (v : pyval) : Company :=
  {| domain := domain c; attrs := <[field := v]> (attrs c) |}.

Record Lead := {
  email : string;
  pdl_first_name : pyval;
  pdl_last_name : pyval;
  pdl_job_title : pyval;
  pdl_linkedin_url : pyval;
  lead_score : pyval;
  lead_stage : pyval;
  company : option string
}.

(** Modelled from the spec: [leads/models.py] is absent; the spec keys
    leads by email, so the primary key of a lead is its email. *)
Definition lead_pk (l : Lead) : string := email l.

Record LeadTag := {
  tag_id : Z;
  name : string
}.

(** The tables; [lead_tags] is the join table of [Lead.tags], one row per
    association. *)
Record DB := {
  companies : list Company;
  leads : list Lead;
  tags : list LeadTag;
  lead_tags : list (string * Z)
}.

#[global] Instance Company_eq_dec : EqDecision Company.
Proof. solve_decision. Defined.
#[global] Instance Lead_eq_dec : EqDecision Lead.
Proof. solve_decision. Defined.
#[global] Instance LeadTag_eq_dec : EqDecision LeadTag.
Proof. solve_decision. Defined.
#[global] Instance DB_eq_dec : EqDecision DB.
Proof. solve_decision. Defined.

Definition set_companies (db : DB) (cs : list Company) : DB :=
  {| companies := cs; leads := leads db; tags := tags db; lead_tags := lead_tags db |}.

Definition set_leads (db : DB) (ls : list Lead) : DB :=
  {| companies := companies db; leads := ls; tags := tags db; lead_tags := lead_tags db |}.

Definition set_tags (db : DB) (ts : list LeadTag) : DB :=
  {| companies := companies db; leads := leads db; tags := ts; lead_tags := lead_tags db |}.

Definition set_lead_tags (db : DB) (j : list (string * Z)) : DB :=
  {| companies := companies db; leads := leads db; tags := tags db; lead_tags := j |}.

(** [company.save()] for a row read from the table: the row with the same
    primary key is replaced; without such a row the object is inserted. *)
Definition save_company (c : Company) (db : DB) : DB :=
  if existsb (fun r => String.eqb (domain r) (domain c)) (companies db)
  then set_companies db
         (map (fun r => if String.eqb (domain r) (domain c) then c else r) (companies db))
  else set_companies db (companies db ++ [c])%list.

(** The company a lead's foreign key points to. *)
Definition company_of (db : DB) (l : Lead) : option Company :=
  match company l with
  | None => None
  | Some d => List.find (fun c => String.eqb (domain c) d) (companies db)
  end.

(** [Count('leads')]: the leads whose foreign key is this company. *)
Definition leads_count (db : DB) (c : Company) : pyval :=
  PyInt (Z.of_nat (length
    (List.filter (fun l => bool_decide (company l = Some (domain c))) (leads db)))).

(** The tags attached to a lead, through the join table. *)
Definition tags_of (db : DB) (l : Lead) : list LeadTag :=
  List.filter
    (fun t => bool_decide ((lead_pk l, tag_id t) ∈ lead_tags db)) (tags db).

(** [LeadTag.objects.get_or_create(name=n)]: the tag with that name, or a
    new row under a fresh id. *)
Definition get_or_create (n : string) (db : DB) : LeadTag * DB :=
  match List.find (fun t => String.eqb (name t) n) (tags db) with
  | Some t => (t, db)
  | None =>
      let t := {| tag_id := 1 + fold_right Z.max 0 (map tag_id (tags db)); name := n |} in
      (t, set_tags db (tags db ++ [t])%list)
  end.

(** [lead.tags.add(tag)]: a join row is inserted unless it is there. *)
Definition tags_add (l : Lead) (t : LeadTag) (db : DB) : DB :=
  if bool_decide ((lead_pk l, tag_id t) ∈ lead_tags db) then db
  else set_lead_tags db (lead_tags db ++ [(lead_pk l, tag_id t)])%list.

End Models.
Export Models.

Module Orm.

(** [Coalesce(a, b)] *)
Definition Coalesce (a b : pyval) : pyval :=
  match a with PyNone => b | _ => a end.

(** [Lower(x)]; NULL stays NULL. *)
Definition Lower (v : pyval) : pyval :=
  match v with PyStr s => PyStr (lower s) | _ => v end.

(** [column__icontains = q] *)
Definition icontains (v : pyval) (q : string) : bool :=
  match v with
  | PyStr s => contains (lower q) (lower s)
  | _ => false
  end.

(** The order of column values under ORDER BY, as SQLite (the default
    database of a Django project) has it: NULL first, then numbers, then
    text compared character by character. *)
Definition sql_class (v : pyval) : Z :=
  match v with PyNone => 0 | PyBool _ | PyInt _ => 1 | PyStr _ => 2 end.

Definition sql_num (v : pyval) : Z :=
  match v with PyInt z => z | PyBool true => 1 | _ => 0 end.

Definition sql_compare (a b : pyval) : comparison :=
  match a, b with
  | PyStr s, PyStr t => String.compare s t
  | _, _ =>
      match Z.compare (sql_class a) (sql_class b) with
      | Eq => Z.compare (sql_num a) (sql_num b)
      | c => c
      end
  end.

(** One argument of [order_by]: an expression over the row and whether it
    carries the ['-'] prefix. *)
Record term (A : Type) := {
  desc : bool;
  expr : A -> pyval
}.
Arguments desc {A} _.
Arguments expr {A} _.

Definition asc_ {A} (e : A -> pyval) : term A := {| desc := false; expr := e |}.

(** [f'{prefix}e'] *)
Definition prefixed {A} (prefix : string) (e : A -> pyval) : term A :=
  {| desc := String.eqb prefix "-"; expr := e |}.

Definition compare_term {A} (t : term A) (x y : A) : comparison :=
  let c := sql_compare (expr t x) (expr t y) in
  if desc t then CompOpp c else c.

Fixpoint compare_terms {A} (ts : list (term A)) (x y : A) : comparison :=
  match ts with
  | [] => Eq
  | t :: ts' =>
      match compare_term t x y with
      | Eq => compare_terms ts' x y
      | c => c
      end
  end.

Fixpoint insert_row {A} (cmp : A -> A -> comparison) (x : A) (l : list A) : list A :=
  match l with
  | [] => [x]
  | y :: l' =>
      match cmp x y with
      | Gt => y :: insert_row cmp x l'
      | _ => x :: l
      end
  end.

(** [qs.order_by(...)]: the rows in the order of the terms.  An ORDER BY
    says nothing of rows that compare equal under every term: they come
    as the engine yields them to the query.  Here they keep the order in
    which [rows] holds them, which is the engine's order only for a query
    that reads the table as it stands (the lead list without a search);
    the company list, whose query is grouped by the primary key, and a
    search with [distinct()] get tied rows in the order of the key
    instead.  What is proved of ordered rows is therefore either free of
    the order of tied rows, or says which rows it is about. *)
Definition order_by {A} (ts : list (term A)) (rows : list A) : list A :=
  fold_right (insert_row (compare_terms ts)) [] rows.

(** The laws of a comparison that orders rows by some key: swapping the
    arguments flips the answer, [Lt] chains, and rows that tie compare
    alike against any third row. *)
Record CompareLaws {A} (c : A -> A -> comparison) : Prop := {
  law_antisym : forall x y, c y x = CompOpp (c x y);
  law_lt_trans : forall x y z, c x y = Lt -> c y z = Lt -> c x z = Lt;
  law_eq_cong : forall x y z, c x y = Eq -> c x z = c y z
}.

(** [x] does not come after [y]. *)
Definition not_after {A} (c : A -> A -> comparison) (x y : A) : Prop :=
  c x y <> Gt.

End Orm.
Export Orm.

(* ===================================================================== *)
(** ** What the views share                                               *)
(* ===================================================================== *)

Module Views.

(** [key in {...}] for a set of strings. *)
Definition py_in (key : string) (keys : list string) : bool :=
  bool_decide (key ∈ keys).

Definition nonempty (s : string) : bool := negb (String.eqb s "").

(** The double-quote character, as a string. *)
Definition dquote : string := String (ascii_of_nat 34) EmptyString.

(** The result of running an action view: the database it leaves, the
    calls it made to its external collaborator (oldest first, with the
    arguments of each call), and what it hands back. *)
Record Run (C : Type) := {
  run_db : DB;
  run_calls : list C;
  run_result : HttpResult
}.
Arguments run_db {C} _.
Arguments run_calls {C} _.
Arguments run_result {C} _.

(** [os.getenv(a) and os.getenv(b)], taken as a condition: both variables
    are set and neither is the empty string. *)
Definition env_truthy (o : option string) : bool :=
  match o with Some s => nonempty s | None => false end.

Definition enable_enrichment (environ : gmap string string) : bool :=
  env_truthy (environ !! "GENAI_API_KEY") && env_truthy (environ !! "OPENAI_API_KEY").

(** [overwrite = request.GET.get('mode', 'empty') == 'all'] *)
Definition overwrite_of (request : HttpRequest) : bool :=
  String.eqb (get_or (GET request) "mode" "empty") "all".

(** How many elements of a list pass a test. *)
Definition count_true {A} (p : A → bool) (l : list A) : nat :=
  length (List.filter p l).

(** The three counters of an enrichment run. *)
Record Tally := {
  enriched : nat;
  skipped : nat;
  errors : nat
}.

Definition zero : Tally := {| enriched := 0; skipped := 0; errors := 0 |}.
Definition add_enriched (t : Tally) : Tally :=
  {| enriched := S (enriched t); skipped := skipped t; errors := errors t |}.
Definition add_skipped (t : Tally) : Tally :=
  {| enriched := enriched t; skipped := S (skipped t); errors := errors t |}.
Definition add_error (t : Tally) : Tally :=
  {| enriched := enriched t; skipped := skipped t; errors := S (errors t) |}.

(** The closing message of an enrichment run: the enriched count always,
    the other two when they are not zero.  [what] is the run's subject
    (["Company"]/["company"] or ["Lead"]/["lead"]). *)
Definition enrich_msg (What what : string) (t : Tally) : string :=
  let msg := What +:+ " enrichment completed. Enriched " +:+ pretty (enriched t)
             +:+ " " +:+ what +:+ "(s)." in
  let msg := if (0 <? skipped t)%nat
             then msg +:+ " Skipped " +:+ pretty (skipped t) +:+ "." else msg in
  let msg := if (0 <? errors t)%nat
             then msg +:+ " " +:+ pretty (errors t) +:+ " error(s) occurred." else msg in
  msg.

(** [for key, values in params_wo_page.lists(): for value in values:
    pagination_params.append((key, value))]: the keys in the order they
    first occur, every value of a key together. *)
Definition pagination_params_of (params_wo_page : QueryDict) : list (string * string) :=
  flat_map (fun kvs => map (fun value => (fst kvs, value)) (snd kvs))
           (lists params_wo_page).

End Views.
Export Views.

(* ===================================================================== *)
(** ** companies/views.py                                                 *)
(* ===================================================================== *)

Module Companies.

(** The part of the template context that [company_list] computes from
    the rows (the prebuilt URLs are left to the rendering layer). *)
Record ListContext := {
  page_obj : Page Company;
  total_companies : nat;
  with_linkedin : nat;
  search_query : string;
  sort_key : string;
  sort_dir : string;
  pagination_params : list (string * string)
}.

Definition allowed_sort_keys : list string :=
  ["name"; "domain"; "industry"; "size"; "leads"].

Definition _default_dir_for (key : string) : string :=
  if py_in key ["size"; "leads"] then "desc" else "asc".

(** Lines 46-66: the ordering for a sort key already checked against the
    allow-list (empty when it was not on it) and the direction in force.
    (For rows that tie under the terms see [order_by].) *)
Definition sorted (db : DB) (sort_key sort_dir : string) (companies : list Company)
  : list Company :=
  if nonempty sort_key then
    let prefix := if String.eqb sort_dir "desc" then "-" else "" in
    if String.eqb sort_key "name" then
      order_by [prefixed prefix (fun c => Lower (Coalesce (getattr c "company_name") (PyStr (domain c))));
                asc_ (fun c => PyStr (domain c))] companies
    else if String.eqb sort_key "domain" then
      order_by [prefixed prefix (fun c => Lower (PyStr (domain c)))] companies
    else if String.eqb sort_key "industry" then
      order_by [prefixed prefix (fun c => Lower (Coalesce (getattr c "industry") (PyStr "")));
                asc_ (fun c => PyStr (domain c))] companies
    else if String.eqb sort_key "size" then
      order_by [prefixed prefix (fun c => Coalesce (getattr c "company_size") (PyInt (-1)));
                asc_ (fun c => PyStr (domain c))] companies
    else if String.eqb sort_key "leads" then
      order_by [prefixed prefix (leads_count db);
                asc_ (fun c => PyStr (domain c))] companies
    else companies
  else
    order_by [prefixed "-" (fun c => getattr c "company_name")] companies.

Definition company_list (db : DB) (request : HttpRequest) : ListContext :=
  let companies := Models.companies db in
  let search_query := strip (get_or (GET request) "search" "") in
  let sort_key := lower (strip (or_empty (get (GET request) "sort"))) in
  let sort_dir := lower (strip (or_empty (get (GET request) "dir"))) in
  let page_number := strip (or_empty (get (GET request) "page")) in
  let companies :=
    if nonempty search_query then
      List.filter (fun c => icontains (getattr c "company_name") search_query
                            || icontains (PyStr (domain c)) search_query) companies
    else companies in
  let total_companies := length companies in
  let with_linkedin :=
    length (List.filter (fun c => negb (bool_decide (getattr c "linkedin" = PyNone))
                                  && negb (bool_decide (getattr c "linkedin" = PyStr "")))
                        companies) in
  let sort_key := if py_in sort_key allowed_sort_keys then sort_key else "" in
  let sort_dir := if nonempty sort_key then _default_dir_for sort_key else sort_dir in
  let companies := sorted db sort_key sort_dir companies in
  let page_obj := get_page companies 10 (page_or_1 page_number) in
  let params_wo_page := pop (GET request) "page" in
  {| page_obj := page_obj;
     total_companies := total_companies;
     with_linkedin := with_linkedin;
     search_query := search_query;
     sort_key := sort_key;
     sort_dir := sort_dir;
     pagination_params := pagination_params_of params_wo_page |}.

(** The pieces of [company_list] by themselves: the sort key after the
    allow-list, the rows after the search filter, and the ordered query
    set that goes to the paginator. *)
Definition checked_sort_key (request : HttpRequest) : string :=
  let sort_key := lower (strip (or_empty (get (GET request) "sort"))) in
  if py_in sort_key allowed_sort_keys then sort_key else "".

Definition filtered (db : DB) (request : HttpRequest) : list Company :=
  let search_query := strip (get_or (GET request) "search" "") in
  if nonempty search_query then
    List.filter (fun c => icontains (getattr c "company_name") search_query
                          || icontains (PyStr (domain c)) search_query)
                (Models.companies db)
  else Models.companies db.

Definition ordered (db : DB) (request : HttpRequest) : list Company :=
  let sort_key := checked_sort_key request in
  let sort_dir := lower (strip (or_empty (get (GET request) "dir"))) in
  let sort_dir := if nonempty sort_key then _default_dir_for sort_key else sort_dir in
  sorted db sort_key sort_dir (filtered db request).

(** *** [company_enrich] *)

Definition fields : list string :=
  ["work_website"; "linkedin"; "company_name"; "industry"; "company_size";
   "hq_country"; "org_type"; "tech_stack"; "street"; "city"; "state";
   "postal_code"; "country"; "work_phone"; "facebook"].

Definition isnull (v : pyval) : bool := bool_decide (v = PyNone).
Definition is_empty_str (v : pyval) : bool := bool_decide (v = PyStr "").

(** The fill-mode filter: some enrichable column is NULL or, for a text
    column, the empty string ([company_size] is only tested for NULL). *)
Definition needs_enrichment (c : Company) : bool :=
  existsb (fun f =>
             isnull (getattr c f)
             || (negb (String.eqb f "company_size") && is_empty_str (getattr c f)))
          fields.

(** One turn of the inner loop (lines 288-295) on the pair of the row and
    the [updated] flag. *)
Definition merge_field (overwrite : bool) (enriched_data : dict)
    (st : Company * bool) (field : string) : Company * bool :=
  let value := dict_get enriched_data field in
  if is_none_or_empty value then st
  else
    let current := getattr (fst st) field in
    if overwrite || negb (truthy current) then (setattr (fst st) field value, true)
    else st.

Definition merge_fields (overwrite : bool) (enriched_data : dict) (company : Company)
  : Company * bool :=
  fold_left (merge_field overwrite enriched_data) fields (company, false).

Record EnrichState := {
  st_db : DB;
  st_tally : Tally;
  st_calls : list string
}.

Section Enrich.

(** [enrich_company(domain, verbose=False)]: a mapping, an empty result
    ([None] or [{}]), or an exception. *)
Variable enrich_company : string -> outcome (option dict).
(** Whether [company.save()] raises for this row (a value the column
    rejects, a failed write). *)
Variable save_raises : Company -> bool.

(** The body of [for company in companies] with its [try]/[except]. *)
Definition enrich_one (overwrite : bool) (st : EnrichState) (company : Company)
  : EnrichState :=
  let calls := (st_calls st ++ [domain company])%list in
  let failed := {| st_db := st_db st; st_tally := add_error (st_tally st);
                   st_calls := calls |} in
  match enrich_company (domain company) with
  | Raised => failed
  | Returned enriched_data =>
      if negb (truthy_result enriched_data) then failed
      else
        let '(company', updated) :=
          merge_fields overwrite (default ∅ enriched_data) company in
        if updated then
          if save_raises company' then failed
          else {| st_db := save_company company' (st_db st);
                  st_tally := add_enriched (st_tally st); st_calls := calls |}
        else {| st_db := st_db st; st_tally := add_skipped (st_tally st);
                st_calls := calls |}
  end.

(** The candidate set of a run. *)
Definition candidates (overwrite : bool) (db : DB) : list Company :=
  if overwrite then companies db
  else List.filter needs_enrichment (companies db).

Definition enrich_all (overwrite : bool) (db : DB) (cands : list Company) : EnrichState :=
  fold_left (enrich_one overwrite) cands
            {| st_db := db; st_tally := zero; st_calls := [] |}.

Definition company_enrich (environ : gmap string string) (db : DB)
    (request : HttpRequest) : Run string :=
  if negb (enable_enrichment environ) then
    {| run_db := db; run_calls := [];
       run_result := Redirect "companies:company_list"
         [(ERROR, "AI enrichment is disabled. Add GENAI_API_KEY and OPENAI_API_KEY to keys.env to enable.")] |}
  else
    let overwrite := overwrite_of request in
    let companies := candidates overwrite db in
    if (length companies =? 0)%nat then
      {| run_db := db; run_calls := [];
         run_result := Redirect "companies:company_list"
           [(INFO, "No companies need enrichment.")] |}
    else
      let st := enrich_all overwrite db companies in
      {| run_db := st_db st; run_calls := st_calls st;
         run_result := Redirect "companies:company_list"
           [(SUCCESS, enrich_msg "Company" "company" (st_tally st))] |}.

End Enrich.

End Companies.

(* ===================================================================== *)
(** ** leads/views.py                                                     *)
(* ===================================================================== *)

Module Leads.

Record ListContext := {
  page_obj : Page Lead;
  total_leads : nat;
  search_query : string;
  sort_key : string;
  sort_dir : string;
  pagination_params : list (string * string)
}.

Definition allowed_sort_keys : list string :=
  ["name"; "job_title"; "email"; "company"; "score"; "stage"].

Definition _default_dir_for (key : string) : string :=
  if py_in key ["score"; "stage"] then "desc" else "asc".

(** [company__company_name] and [company__domain] through the foreign
    key; NULL for a lead without a company. *)
Definition company__company_name (db : DB) (l : Lead) : pyval :=
  match company_of db l with
  | Some c => getattr c "company_name"
  | None => PyNone
  end.

Definition company__domain (db : DB) (l : Lead) : pyval :=
  match company_of db l with
  | Some c => PyStr (domain c)
  | None => PyNone
  end.

(** The [Case]/[When] ranking of the stage. *)
Definition stage_rank (l : Lead) : pyval :=
  if bool_decide (lead_stage l = PyStr "low") then PyInt 0
  else if bool_decide (lead_stage l = PyStr "medium") then PyInt 1
  else if bool_decide (lead_stage l = PyStr "high") then PyInt 2
  else if bool_decide (lead_stage l = PyStr "very_high") then PyInt 3
  else if bool_decide (lead_stage l = PyStr "enterprise") then PyInt 4
  else PyInt (-1).

(** Lines 59-104: an allowed key orders the rows; under the empty key
    the query has no ordering at all and the rows come as the engine
    yields them, for which the order of [leads] stands.  (For rows that
    tie under the terms see [order_by].) *)
Definition sorted (db : DB) (sort_key sort_dir : string) (leads : list Lead)
  : list Lead :=
  if nonempty sort_key then
    let prefix := if String.eqb sort_dir "desc" then "-" else "" in
    if String.eqb sort_key "name" then
      order_by [prefixed prefix (fun l => Lower (Coalesce (pdl_first_name l) (PyStr "")));
                prefixed prefix (fun l => Lower (Coalesce (pdl_last_name l) (PyStr "")));
                asc_ (fun l => PyStr (email l))] leads
    else if String.eqb sort_key "job_title" then
      order_by [prefixed prefix (fun l => Lower (Coalesce (pdl_job_title l) (PyStr "")));
                asc_ (fun l => PyStr (email l))] leads
    else if String.eqb sort_key "email" then
      order_by [prefixed prefix (fun l => Lower (PyStr (email l)))] leads
    else if String.eqb sort_key "company" then
      order_by [prefixed prefix
                  (fun l => Lower (Coalesce (company__company_name db l) (company__domain db l)));
                asc_ (fun l => PyStr (email l))] leads
    else if String.eqb sort_key "score" then
      order_by [prefixed prefix lead_score; asc_ (fun l => PyStr (email l))] leads
    else if String.eqb sort_key "stage" then
      order_by [prefixed prefix stage_rank; asc_ (fun l => PyStr (email l))] leads
    else leads
  else leads.

(** The search filter: a case-insensitive match on any of six columns,
    the last two joins being the company and the tags. *)
Definition matches_search (db : DB) (search_query : string) (l : Lead) : bool :=
  icontains (pdl_first_name l) search_query
  || icontains (pdl_last_name l) search_query
  || icontains (PyStr (email l)) search_query
  || icontains (company__company_name db l) search_query
  || icontains (company__domain db l) search_query
  || existsb (fun t => icontains (PyStr (name t)) search_query) (tags_of db l).

Definition lead_list (db : DB) (request : HttpRequest) : ListContext :=
  let leads := Models.leads db in
  let search_query := strip (get_or (GET request) "search" "") in
  let company_domain := strip (get_or (GET request) "company" "") in
  let sort_key := lower (strip (or_empty (get (GET request) "sort"))) in
  let sort_dir := lower (strip (or_empty (get (GET request) "dir"))) in
  let page_number := strip (get_or (GET request) "page" "") in
  let leads :=
    if nonempty company_domain then
      List.filter (fun l => bool_decide (company__domain db l = PyStr company_domain)) leads
    else leads in
  let leads :=
    if nonempty search_query then List.filter (matches_search db search_query) leads
    else leads in
  let total_leads := length leads in
  let sort_key := if py_in sort_key allowed_sort_keys then sort_key else "" in
  let sort_dir := if nonempty sort_key then _default_dir_for sort_key else sort_dir in
  let leads := sorted db sort_key sort_dir leads in
  let page_obj := get_page leads 10 (page_or_1 page_number) in
  let params_wo_page := pop (GET request) "page" in
  {| page_obj := page_obj;
     total_leads := total_leads;
     search_query := search_query;
     sort_key := sort_key;
     sort_dir := sort_dir;
     pagination_params := pagination_params_of params_wo_page |}.

(** The pieces of [lead_list] by themselves: the sort key after the
    allow-list, the rows after the two filters, and the ordered query set
    that goes to the paginator. *)
Definition checked_sort_key (request : HttpRequest) : string :=
  let sort_key := lower (strip (or_empty (get (GET request) "sort"))) in
  if py_in sort_key allowed_sort_keys then sort_key else "".

Definition filtered (db : DB) (request : HttpRequest) : list Lead :=
  let search_query := strip (get_or (GET request) "search" "") in
  let company_domain := strip (get_or (GET request) "company" "") in
  let leads :=
    if nonempty company_domain then
      List.filter (fun l => bool_decide (company__domain db l = PyStr company_domain))
                  (Models.leads db)
    else Models.leads db in
  if nonempty search_query then List.filter (matches_search db search_query) leads
  else leads.

Definition ordered (db : DB) (request : HttpRequest) : list Lead :=
  let sort_key := checked_sort_key request in
  let sort_dir := lower (strip (or_empty (get (GET request) "dir"))) in
  let sort_dir := if nonempty sort_key then _default_dir_for sort_key else sort_dir in
  sorted db sort_key sort_dir (filtered db request).

(** *** The mailing-list sync *)

(** The arguments of one call of [add_lead_to_mailchimp]. *)
Record SyncCall := {
  call_email : string;
  call_first_name : pyval;
  call_last_name : pyval;
  call_tag_names : list string
}.

#[global] Instance SyncCall_eq_dec : EqDecision SyncCall.
Proof. solve_decision. Defined.

Record SyncState := {
  success : nat;
  failed : nat;
  sync_calls : list SyncCall
}.

Section Sync.

(** [add_lead_to_mailchimp(email, first, last, tag_names=...)]: a result
    mapping, or an exception. *)
Variable add_lead_to_mailchimp : SyncCall -> outcome dict.

(** The [for lead in leads] loop of both sync views.  Nothing in the loop
    catches an exception of the collaborator: the flag is [false] when
    one left the loop, the state holding the calls made up to it.
    Neither view orders its query ([filter(pk__in=...)],
    [filter(tags=tag)]): the leads come as the engine yields them, for
    which the order of the list given to the loop stands, and what is
    proved of the calls does not depend on that order. *)
Fixpoint sync_each (tag_names_of : Lead -> list string) (leads : list Lead)
    (st : SyncState) : SyncState * bool :=
  match leads with
  | [] => (st, true)
  | lead :: rest =>
      let call := {| call_email := email lead;
                     call_first_name := pdl_first_name lead;
                     call_last_name := pdl_last_name lead;
                     call_tag_names := tag_names_of lead |} in
      let calls := (sync_calls st ++ [call])%list in
      match add_lead_to_mailchimp call with
      | Raised =>
          ({| success := success st; failed := failed st; sync_calls := calls |}, false)
      | Returned result =>
          if dict_has result "error" then
            sync_each tag_names_of rest
              {| success := success st; failed := S (failed st); sync_calls := calls |}
          else
            sync_each tag_names_of rest
              {| success := S (success st); failed := failed st; sync_calls := calls |}
      end
  end.

Definition sync_start : SyncState := {| success := 0; failed := 0; sync_calls := [] |}.

Definition send_to_mailchimp (db : DB) (request : HttpRequest) : Run SyncCall :=
  if String.eqb (method request) "POST" then
    let selected_ids := getlist (POST request) "selected_leads" in
    match selected_ids with
    | [] =>
        {| run_db := db; run_calls := [];
           run_result := Redirect "leads:lead_list" [(ERROR, "No leads selected.")] |}
    | _ =>
        let leads := List.filter (fun l => py_in (lead_pk l) selected_ids) (Models.leads db) in
        let '(st, completed) :=
          sync_each (fun lead => map name (tags_of db lead)) leads sync_start in
        if completed then
          let m1 := if (0 <? success st)%nat
                    then [(SUCCESS, pretty (success st) +:+ " leads sent to Mailchimp.")]
                    else [] in
          let m2 := if (0 <? failed st)%nat
                    then [(ERROR, pretty (failed st) +:+ " leads failed to send.")]
                    else [] in
          {| run_db := db; run_calls := sync_calls st;
             run_result := Redirect "leads:lead_list" (m1 ++ m2)%list |}
        else
          {| run_db := db; run_calls := sync_calls st; run_result := Uncaught |}
    end
  else
    {| run_db := db; run_calls := []; run_result := Redirect "leads:lead_list" [] |}.

Definition send_tag_to_mailchimp (db : DB) (request : HttpRequest) : Run SyncCall :=
  if negb (String.eqb (method request) "POST") then
    {| run_db := db; run_calls := []; run_result := Redirect "leads:lead_list" [] |}
  else
    let tag_id_arg := or_empty (get (POST request) "tag_id") in
    if negb (nonempty tag_id_arg) then
      {| run_db := db; run_calls := [];
         run_result := Redirect "leads:lead_list" [(ERROR, "Please choose a tag.")] |}
    else
      match Py.int tag_id_arg with
      | None => {| run_db := db; run_calls := []; run_result := Uncaught |}
      | Some pk =>
          match List.find (fun t => tag_id t =? pk) (tags db) with
          | None => {| run_db := db; run_calls := []; run_result := Http404 |}
          | Some tag =>
              let leads :=
                List.filter (fun l => bool_decide ((lead_pk l, tag_id tag) ∈ lead_tags db))
                            (Models.leads db) in
              match leads with
              | [] =>
                  {| run_db := db; run_calls := [];
                     run_result := Redirect "leads:lead_list"
                       [(INFO, "No leads found with tag " +:+ dquote +:+ name tag +:+ dquote +:+ ".")] |}
              | _ =>
                  let '(st, completed) := sync_each (fun _ => [name tag]) leads sync_start in
                  if completed then
                    let m1 := if (0 <? success st)%nat
                              then [(SUCCESS, pretty (success st)
                                      +:+ " tagged lead(s) sent to Mailchimp (tag: "
                                      +:+ name tag +:+ ").")]
                              else [] in
                    let m2 := if (0 <? failed st)%nat
                              then [(ERROR, pretty (failed st)
                                      +:+ " tagged lead(s) failed to send to Mailchimp.")]
                              else [] in
                    {| run_db := db; run_calls := sync_calls st;
                       run_result := Redirect "leads:lead_list" (m1 ++ m2)%list |}
                  else
                    {| run_db := db; run_calls := sync_calls st; run_result := Uncaught |}
              end
          end
      end.

End Sync.

(** *** [bulk_apply_tag] *)

(** [for lead in leads: lead.tags.add(tag); updated += 1] *)
Definition apply_tag (tag : LeadTag) (st : DB * nat) (lead : Lead) : DB * nat :=
  (tags_add lead tag (fst st), S (snd st)).

Definition bulk_apply_tag (db : DB) (request : HttpRequest) : Run unit :=
  if negb (String.eqb (method request) "POST") then
    {| run_db := db; run_calls := []; run_result := Redirect "leads:lead_list" [] |}
  else
    let selected_ids := getlist (POST request) "selected_leads" in
    let tag_name := strip (or_empty (get (POST request) "tag_name")) in
    match selected_ids with
    | [] =>
        {| run_db := db; run_calls := [];
           run_result := Redirect "leads:lead_list" [(ERROR, "No leads selected.")] |}
    | _ =>
        if negb (nonempty tag_name) then
          {| run_db := db; run_calls := [];
             run_result := Redirect "leads:lead_list" [(ERROR, "Tag name is required.")] |}
        else
          let '(tag, db1) := get_or_create (lower (strip tag_name)) db in
          let leads := List.filter (fun l => py_in (lead_pk l) selected_ids) (Models.leads db1) in
          let '(db2, updated) := fold_left (apply_tag tag) leads (db1, 0%nat) in
          {| run_db := db2; run_calls := [];
             run_result := Redirect "leads:lead_list"
               [(SUCCESS, "Applied tag " +:+ dquote +:+ name tag +:+ dquote +:+ " to "
                          +:+ pretty updated +:+ " lead(s).")] |}
    end.

(** *** [lead_enrich] *)

Definition isnull (v : pyval) : bool := bool_decide (v = PyNone).
Definition is_empty_str (v : pyval) : bool := bool_decide (v = PyStr "").

(** The fill-mode filter over the four enrichable lead columns. *)
Definition needs_enrichment (l : Lead) : bool :=
  isnull (pdl_first_name l) || is_empty_str (pdl_first_name l)
  || isnull (pdl_last_name l) || is_empty_str (pdl_last_name l)
  || isnull (pdl_job_title l) || is_empty_str (pdl_job_title l)
  || isnull (pdl_linkedin_url l) || is_empty_str (pdl_linkedin_url l).

Record EnrichState := {
  st_db : DB;
  st_tally : Tally;
  st_calls : list (Lead * bool)
}.

Section Enrich.

(** [enrich_lead(lead, verbose=False, overwrite=...)].  The view leaves
    every write to the collaborator, so it acts on the database: it
    returns a mapping (with a ['skipped'] entry when it changed nothing),
    an empty result, or raises, and in each case leaves a database. *)
Variable enrich_lead : Lead -> bool -> DB -> outcome (option dict) * DB.

(** The body of [for lead in leads] with its [try]/[except]. *)
Definition enrich_one (overwrite : bool) (st : EnrichState) (lead : Lead)
  : EnrichState :=
  let calls := (st_calls st ++ [(lead, overwrite)])%list in
  let '(res, db') := enrich_lead lead overwrite (st_db st) in
  match res with
  | Raised =>
      {| st_db := db'; st_tally := add_error (st_tally st); st_calls := calls |}
  | Returned result =>
      if truthy_result result && truthy (dict_get (default ∅ result) "skipped") then
        {| st_db := db'; st_tally := add_skipped (st_tally st); st_calls := calls |}
      else if truthy_result result then
        {| st_db := db'; st_tally := add_enriched (st_tally st); st_calls := calls |}
      else
        {| st_db := db'; st_tally := add_error (st_tally st); st_calls := calls |}
  end.

Definition candidates (overwrite : bool) (db : DB) : list Lead :=
  if overwrite then leads db
  else List.filter needs_enrichment (leads db).

Definition enrich_all (overwrite : bool) (db : DB) (cands : list Lead) : EnrichState :=
  fold_left (enrich_one overwrite) cands
            {| st_db := db; st_tally := zero; st_calls := [] |}.

Definition lead_enrich (environ : gmap string string) (db : DB)
    (request : HttpRequest) : Run (Lead * bool) :=
  if negb (enable_enrichment environ) then
    {| run_db := db; run_calls := [];
       run_result := Redirect "leads:lead_list"
         [(ERROR, "AI enrichment is disabled. Add GENAI_API_KEY and OPENAI_API_KEY to keys.env to enable.")] |}
  else
    let overwrite := overwrite_of request in
    let leads := candidates overwrite db in
    if (length leads =? 0)%nat then
      {| run_db := db; run_calls := [];
         run_result := Redirect "leads:lead_list" [(INFO, "No leads need enrichment.")] |}
    else
      let st := enrich_all overwrite db leads in
      {| run_db := st_db st; run_calls := st_calls st;
         run_result := Redirect "leads:lead_list"
           [(SUCCESS, enrich_msg "Lead" "lead" (st_tally st))] |}.

End Enrich.

End Leads.

(* ===================================================================== *)
(** ** Reference definitions for the statements                           *)
(* ===================================================================== *)

Module Spec.

(** The merge policy as the specification words it: a field is written
    when the returned value is non-empty and either overwrite mode is on
    or the current value is empty/falsy. *)
Definition written (overwrite : bool) (returned current : pyval) : bool :=
  negb (is_none_or_empty returned) && (overwrite || negb (truthy current)).

(** What a run does with one candidate. *)
Inductive verdict := Enriched | Skipped | Errored.

#[global] Instance verdict_eq_dec : EqDecision verdict.
Proof. solve_decision. Defined.

Definition count_of (v : verdict) (vs : list verdict) : nat :=
  length (List.filter (fun w => bool_decide (w = v)) vs).

Definition tally_of (vs : list verdict) : Tally :=
  {| enriched := count_of Enriched vs;
     skipped := count_of Skipped vs;
     errors := count_of Errored vs |}.

(** A company candidate is an error when the collaborator raises or
    returns an empty result, or when saving the merged row raises; it is
    skipped when the merge changes no field; it is enriched otherwise. *)
Definition company_verdict (enrich_company : string → outcome (option dict))
    (save_raises : Company → bool) (overwrite : bool) (c : Company) : verdict :=
  match enrich_company (domain c) with
  | Raised => Errored
  | Returned None => Errored
  | Returned (Some data) =>
      if bool_decide (data = ∅) then Errored
      else
        let r := Companies.merge_fields overwrite data c in
        if snd r then (if save_raises (fst r) then Errored else Enriched)
        else Skipped
  end.

(** A lead candidate is an error when the collaborator raises or returns
    an empty result; it is skipped when the result carries a truthy
    ['skipped'] entry; it is enriched otherwise. *)
Definition lead_verdict (res : outcome (option dict)) : verdict :=
  match res with
  | Raised => Errored
  | Returned None => Errored
  | Returned (Some d) =>
      if bool_decide (d = ∅) then Errored
      else if truthy (dict_get d "skipped") then Skipped
      else Enriched
  end.

(** The verdicts of a lead run, the collaborator acting on the database
    the previous calls left. *)
Fixpoint lead_verdicts (enrich_lead : Lead → bool → DB → outcome (option dict) * DB)
    (overwrite : bool) (db : DB) (cands : list Lead) : list verdict :=
  match cands with
  | [] => []
  | l :: rest =>
      let r := enrich_lead l overwrite db in
      lead_verdict (fst r) :: lead_verdicts enrich_lead overwrite (snd r) rest
  end.

(** The row a company candidate leaves in the table: the merged row when
    it is counted as enriched, the row as it was otherwise. *)
Definition company_after (enrich_company : string → outcome (option dict))
    (save_raises : Company → bool) (overwrite : bool) (c : Company) : Company :=
  match enrich_company (domain c) with
  | Returned (Some data) =>
      if bool_decide (company_verdict enrich_company save_raises overwrite c = Enriched)
      then fst (Companies.merge_fields overwrite data c)
      else c
  | _ => c
  end.

(** The company table once the candidates whose domains are in [done]
    have been through the loop. *)
Definition table_after (enrich_company : string → outcome (option dict))
    (save_raises : Company → bool) (overwrite : bool)
    (done : list string) (rows : list Company) : list Company :=
  map (fun r => if bool_decide (domain r ∈ done)
                then company_after enrich_company save_raises overwrite r else r) rows.

(** Counting one verdict. *)
Definition record_verdict (t : Tally) (v : verdict) : Tally :=
  match v with
  | Enriched => add_enriched t
  | Skipped => add_skipped t
  | Errored => add_error t
  end.

(** [f'-e'] *)
Definition desc_ {A} (e : A → pyval) : term A := {| desc := true; expr := e |}.

(** The terms each allowed sort key orders by, with the key's fixed
    direction written out: the sort column with its fallback for NULL,
    then the natural key where the view appends it. *)
Definition company_order (db : DB) (key : string) : list (term Company) :=
  if String.eqb key "name" then
    [asc_ (fun c => Lower (Coalesce (getattr c "company_name") (PyStr (domain c))));
     asc_ (fun c => PyStr (domain c))]
  else if String.eqb key "domain" then
    [asc_ (fun c => Lower (PyStr (domain c)))]
  else if String.eqb key "industry" then
    [asc_ (fun c => Lower (Coalesce (getattr c "industry") (PyStr "")));
     asc_ (fun c => PyStr (domain c))]
  else if String.eqb key "size" then
    [desc_ (fun c => Coalesce (getattr c "company_size") (PyInt (-1)));
     asc_ (fun c => PyStr (domain c))]
  else
    [desc_ (leads_count db); asc_ (fun c => PyStr (domain c))].

Definition lead_order (db : DB) (key : string) : list (term Lead) :=
  if String.eqb key "name" then
    [asc_ (fun l => Lower (Coalesce (pdl_first_name l) (PyStr "")));
     asc_ (fun l => Lower (Coalesce (pdl_last_name l) (PyStr "")));
     asc_ (fun l => PyStr (email l))]
  else if String.eqb key "job_title" then
    [asc_ (fun l => Lower (Coalesce (pdl_job_title l) (PyStr "")));
     asc_ (fun l => PyStr (email l))]
  else if String.eqb key "email" then
    [asc_ (fun l => Lower (PyStr (email l)))]
  else if String.eqb key "company" then
    [asc_ (fun l => Lower (Coalesce (Leads.company__company_name db l)
                                    (Leads.company__domain db l)));
     asc_ (fun l => PyStr (email l))]
  else if String.eqb key "score" then
    [desc_ lead_score; asc_ (fun l => PyStr (email l))]
  else
    [desc_ Leads.stage_rank; asc_ (fun l => PyStr (email l))].

(** The call a sync view makes for a lead. *)
Definition sync_call (tag_names_of : Lead → list string) (l : Lead) : Leads.SyncCall :=
  {| Leads.call_email := email l;
     Leads.call_first_name := pdl_first_name l;
     Leads.call_last_name := pdl_last_name l;
     Leads.call_tag_names := tag_names_of l |}.

(** The collaborator returns for this call (it does not raise). *)
Definition returns (sync : Leads.SyncCall → outcome dict) (c : Leads.SyncCall) : bool :=
  match sync c with Returned _ => true | Raised => false end.

(** The collaborator returns a result with an ['error'] key. *)
Definition reports_error (sync : Leads.SyncCall → outcome dict) (c : Leads.SyncCall) : bool :=
  match sync c with Returned r => dict_has r "error" | Raised => false end.

(** The targets of the two sync views. *)
Definition selected_leads (db : DB) (ids : list string) : list Lead :=
  List.filter (fun l => py_in (lead_pk l) ids) (leads db).

Definition tagged_leads (db : DB) (tag : LeadTag) : list Lead :=
  List.filter (fun l => bool_decide ((lead_pk l, tag_id tag) ∈ lead_tags db)) (leads db).

End Spec.

(* ===================================================================== *)
(** ** Sample data for the worked examples                                *)
(* ===================================================================== *)

Module Sample.

Definition environ_on : gmap string string :=
  {[ "GENAI_API_KEY" := "g-key"; "OPENAI_API_KEY" := "o-key" ]}.

Definition acme : Company :=
  {| domain := "acme.io"; attrs := {[ "company_name" := PyStr "Acme" ]} |}.
Definition bolt : Company :=
  {| domain := "bolt.io"; attrs := {[ "company_name" := PyStr "Bolt" ]} |}.
Definition core : Company :=
  {| domain := "core.io";
     attrs := {[ "company_name" := PyStr "Core"; "city" := PyStr "Bergen" ]} |}.

Definition lead (e : string) (first : pyval) (co : option string) : Lead :=
  {| email := e; pdl_first_name := first; pdl_last_name := PyNone;
     pdl_job_title := PyNone; pdl_linkedin_url := PyNone;
     lead_score := PyNone; lead_stage := PyNone; company := co |}.

Definition ann : Lead := lead "ann@acme.io" (PyStr "Ann") (Some "acme.io").
Definition bob : Lead := lead "bob@bolt.io" (PyStr "Bob") (Some "bolt.io").
Definition cyd : Lead := lead "cyd@core.io" (PyStr "Cyd") None.

Definition db3 : DB :=
  {| companies := [acme; bolt; core]; leads := [ann; bob; cyd];
     tags := []; lead_tags := [] |}.

Definition get_request (q : QueryDict) : HttpRequest :=
  {| method := "GET"; GET := q; POST := [] |}.

Definition post_request (q : QueryDict) : HttpRequest :=
  {| method := "POST"; GET := []; POST := q |}.

(** A company collaborator that raises for the second company and finds
    a city for the others. *)
Definition enrich_company_2 (d : string) : outcome (option dict) :=
  if String.eqb d "bolt.io" then Raised
  else Returned (Some {[ "city" := PyStr "Oslo" ]}).

(** A lead collaborator that raises for the second lead, reports the
    third as skipped, and writes nothing. *)
Definition enrich_lead_2 (l : Lead) (overwrite : bool) (db : DB)
  : outcome (option dict) * DB :=
  if String.eqb (email l) "bob@bolt.io" then (Raised, db)
  else if String.eqb (email l) "cyd@core.io"
       then (Returned (Some {[ "skipped" := PyBool true ]}), db)
       else (Returned (Some {[ "pdl_job_title" := PyStr "CTO" ]}), db).

(** Collaborators that find nothing. *)
Definition enrich_company_none (d : string) : outcome (option dict) :=
  Returned None.

Definition enrich_lead_none (l : Lead) (overwrite : bool) (db : DB)
  : outcome (option dict) * DB :=
  (Returned (Some ∅), db).

Definition never (c : Company) : bool := false.

(** Leads with a score and a stage, for the list view. *)
Definition scored (e : string) (score : Z) (stage : string) : Lead :=
  {| email := e; pdl_first_name := PyNone; pdl_last_name := PyNone;
     pdl_job_title := PyNone; pdl_linkedin_url := PyNone;
     lead_score := PyInt score; lead_stage := PyStr stage; company := None |}.

Definition db_scored : DB :=
  {| companies := [];
     leads := [scored "a@x.io" 10 "low"; scored "b@x.io" 70 "high";
               scored "c@x.io" 40 "medium"];
     tags := []; lead_tags := [] |}.

(** Two companies, and two leads, whose natural keys differ only in
    letter case. *)
Definition Acme_io : Company := {| domain := "Acme.io"; attrs := ∅ |}.
Definition acme_io : Company := {| domain := "acme.io"; attrs := ∅ |}.
Definition Bob : Lead := lead "Bob@x.io" PyNone None.
Definition bob_ : Lead := lead "bob@x.io" PyNone None.

Definition db_of (cs : list Company) (ls : list Lead) : DB :=
  {| companies := cs; leads := ls; tags := []; lead_tags := [] |}.

(** Tables with more rows than one page holds. *)
Definition many_companies (n : nat) : list Company :=
  map (fun i : nat => {| domain := pretty i +:+ ".io"; attrs := ∅ |}) (seq 1 n).

Definition many_leads (n : nat) : list Lead :=
  map (fun i : nat => lead (pretty i +:+ "@x.io") PyNone None) (seq 1 n).

(** Mailing-list collaborators: one that reports an error for the second
    and third lead, one that raises for the second. *)
Definition sync_two_errors (c : Leads.SyncCall) : outcome dict :=
  if String.eqb (Leads.call_email c) "ann@acme.io"
  then Returned {[ "id" := PyStr "m-1" ]}
  else Returned {[ "error" := PyStr "rejected" ]}.

Definition sync_second_raises (c : Leads.SyncCall) : outcome dict :=
  if String.eqb (Leads.call_email c) "bob@bolt.io" then Raised
  else Returned {[ "id" := PyStr "m-1" ]}.

Definition all_three : QueryDict :=
  [("selected_leads", "ann@acme.io"); ("selected_leads", "bob@bolt.io");
   ("selected_leads", "cyd@core.io")].

(** The form of a sync request: the three leads selected, the tag chosen. *)
Definition sync_form : QueryDict := (all_three ++ [("tag_id", "1")])%list.

(** The sample database with the tag [vip] on all three leads. *)
Definition db3_vip : DB :=
  {| companies := [acme; bolt; core]; leads := [ann; bob; cyd];
     tags := [{| tag_id := 1; name := "vip" |}];
     lead_tags := [("ann@acme.io", 1); ("bob@bolt.io", 1); ("cyd@core.io", 1)] |}.

End Sample.

(* ===================================================================== *)
(** ** The detail, note and delete views                                  *)
(* ===================================================================== *)

Module Pages.

(** What a page view hands back: a rendered template with its context, a
    redirect to a named route (with the route's arguments and the flash
    messages queued), or the 404 of [get_object_or_404]. *)
Inductive PageResult (Ctx : Type) :=
| Rendered (template : string) (context : Ctx)
| Redirected (to : string) (args : list string) (flashes : list flash)
| NotFound.
Arguments Rendered {Ctx} template context.
Arguments Redirected {Ctx} to args flashes.
Arguments NotFound {Ctx}.

(** [get_object_or_404(Company, domain=pk)] *)
Definition get_company (db : DB) (pk : string) : option Company :=
  List.find (fun c => String.eqb (domain c) pk) (companies db).

(** [get_object_or_404(Lead, pk=pk)] *)
Definition get_lead (db : DB) (pk : string) : option Lead :=
  List.find (fun l => String.eqb (lead_pk l) pk) (leads db).

(** *** companies/views.py: [company_detail] *)

(** [Lead.objects.filter(company=company).order_by('-lead_score', 'email')] *)
Definition linked_leads (db : DB) (company : Company) : list Lead :=
  order_by [prefixed "-" lead_score; asc_ (fun l => PyStr (email l))]
    (List.filter (fun l => bool_decide (Models.company l = Some (domain company)))
                 (leads db)).

Definition company_detail (db : DB) (pk : string) : PageResult (Company * list Lead) :=
  match get_company db pk with
  | None => NotFound
  | Some company =>
      Rendered "companies/company_detail.html" (company, linked_leads db company)
  end.

(** *** companies/views.py: the notes of a company *)

(** A note row: its id, the company that owns it, what the note form
    edits, and when it was created.  ([leads/models.py] and
    [leads/forms.py] are not among the sources: the views name [id],
    [company] and [created_at]; the rest of the row is the form's.) *)
Record CompanyNote := {
  note_id : Z;
  note_company : string;
  note_body : string;
  created_at : Z
}.

#[global] Instance CompanyNote_eq_dec : EqDecision CompanyNote.
Proof. solve_decision. Defined.

(** [CompanyNote.objects.filter(company=company).order_by('-created_at')] *)
Definition notes_of (notes : list CompanyNote) (company : Company) : list CompanyNote :=
  order_by [prefixed "-" (fun n => PyInt (created_at n))]
    (List.filter (fun n => String.eqb (note_company n) (domain company)) notes).

(** [get_object_or_404(CompanyNote, id=note_id, company=company)] *)
Definition get_note (notes : list CompanyNote) (id : Z) (company : Company)
  : option CompanyNote :=
  List.find (fun n => (note_id n =? id) && String.eqb (note_company n) (domain company))
            notes.

Section Notes.

(** [CompanyNoteForm(request.POST)] followed by [is_valid()]: the cleaned
    text of a valid submission, nothing for an invalid one. *)
Variable CompanyNoteForm : QueryDict -> option string.

(** The context of the notes page. *)
Record NotesContext := {
  ctx_company : Company;
  ctx_notes : list CompanyNote;
  ctx_form_bound : bool
}.

(** [company_notes]: [now] is the time the new row is stamped with. *)
Definition company_notes (notes : list CompanyNote) (db : DB) (request : HttpRequest)
    (pk : string) (now : Z) : list CompanyNote * PageResult NotesContext :=
  match get_company db pk with
  | None => (notes, NotFound)
  | Some company =>
      let page bound :=
        Rendered "companies/company_notes.html"
          {| ctx_company := company; ctx_notes := notes_of notes company;
             ctx_form_bound := bound |} in
      if String.eqb (method request) "POST" then
        match CompanyNoteForm (POST request) with
        | Some body =>
            let note := {| note_id := 1 + fold_right Z.max 0 (map note_id notes);
                           note_company := domain company;
                           note_body := body;
                           created_at := now |} in
            ((notes ++ [note])%list,
             Redirected "companies:company_notes" [domain company]
               [(SUCCESS, "Note added successfully.")])
        | None => (notes, page true)
        end
      else (notes, page false)
  end.

(** [company_note_update] *)
Definition company_note_update (notes : list CompanyNote) (db : DB)
    (request : HttpRequest) (pk : string) (id : Z)
  : list CompanyNote * PageResult (Company * CompanyNote * string) :=
  match get_company db pk with
  | None => (notes, NotFound)
  | Some company =>
      match get_note notes id company with
      | None => (notes, NotFound)
      | Some note =>
          let page := Rendered "companies/company_note_form.html"
                        (company, note, "Edit Note") in
          if String.eqb (method request) "POST" then
            match CompanyNoteForm (POST request) with
            | Some body =>
                let note' := {| note_id := note_id note;
                                note_company := note_company note;
                                note_body := body;
                                created_at := created_at note |} in
                (map (fun n => if note_id n =? note_id note then note' else n) notes,
                 Redirected "companies:company_notes" [domain company]
                   [(SUCCESS, "Note updated successfully.")])
            | None => (notes, page)
            end
          else (notes, page)
      end
  end.

(** [company_note_delete] *)
Definition company_note_delete (notes : list CompanyNote) (db : DB)
    (request : HttpRequest) (pk : string) (id : Z)
  : list CompanyNote * PageResult (Company * CompanyNote) :=
  match get_company db pk with
  | None => (notes, NotFound)
  | Some company =>
      match get_note notes id company with
      | None => (notes, NotFound)
      | Some note =>
          if String.eqb (method request) "POST" then
            (List.filter (fun n => negb (note_id n =? note_id note)) notes,
             Redirected "companies:company_notes" [domain company]
               [(SUCCESS, "Note deleted successfully.")])
          else
            (notes, Rendered "companies/company_note_confirm_delete.html" (company, note))
      end
  end.

End Notes.

(** *** leads/views.py: [lead_detail], [lead_delete], [clear_leads] *)

Definition lead_detail (db : DB) (pk : string) : PageResult Lead :=
  match get_lead db pk with
  | None => NotFound
  | Some lead => Rendered "leads/lead_detail.html" lead
  end.

(** [lead.delete()]: the row goes, and with it its rows of the join table. *)
Definition delete_lead (lead : Lead) (db : DB) : DB :=
  {| companies := companies db;
     leads := List.filter (fun l => negb (String.eqb (lead_pk l) (lead_pk lead))) (leads db);
     tags := tags db;
     lead_tags := List.filter (fun r => negb (String.eqb (fst r) (lead_pk lead)))
                              (lead_tags db) |}.

Definition lead_delete (db : DB) (request : HttpRequest) (pk : string)
  : DB * PageResult Lead :=
  match get_lead db pk with
  | None => (db, NotFound)
  | Some lead =>
      if String.eqb (method request) "POST" then
        (delete_lead lead db,
         Redirected "leads:lead_list" [] [(SUCCESS, "Lead deleted successfully.")])
      else (db, Rendered "leads/lead_confirm_delete.html" lead)
  end.

(** [clear_leads]: every lead (with its join rows), then every company;
    the tags stay. *)
Definition clear_leads (db : DB) (request : HttpRequest) : DB * PageResult unit :=
  if String.eqb (method request) "POST" then
    let leads_count := length (leads db) in
    let companies_count := length (companies db) in
    ({| companies := []; leads := []; tags := tags db; lead_tags := [] |},
     Redirected "leads:lead_list" []
       [(SUCCESS, "Successfully deleted " +:+ pretty leads_count +:+ " leads and "
                  +:+ pretty companies_count +:+ " companies.")])
  else (db, Redirected "leads:lead_list" [] []).

End Pages.

(* ===================================================================== *)
(** ** Reference definitions for the further properties                   *)
(* ===================================================================== *)

Module More.

(** [needle] occurs in [hay]. *)
Definition Substring (needle hay : string) : Prop :=
  exists pre post, hay = pre +:+ needle +:+ post.

(** A text column holds a value in which the query occurs, letter case
    aside. *)
Definition text_matches (v : pyval) (q : string) : Prop :=
  exists s, v = PyStr s /\ Substring (lower q) (lower s).

(** A column is populated: neither NULL nor the empty string. *)
Definition populated (v : pyval) : bool := negb (is_none_or_empty v).

(** The row with a given domain, when the table has one. *)
Definition company_row (db : DB) (d : string) : option Company :=
  List.find (fun c => String.eqb (domain c) d) (companies db).

(** The rows of page [n] of a paginated list. *)
Definition page_rows {A} (rows : list A) (n : nat) : list A :=
  object_list (page rows 10 (Z.of_nat n)).

End More.

(* ===================================================================== *)
(** * Properties                                                          *)
(* ===================================================================== *)

(** ** Lists *)

Lemma existsb_ext_elem {A} (p q : A → bool) (l : list A) :
  (∀ x, x ∈ l → p x = q x) → existsb p l = existsb q l.
Proof.
  induction l as [|a l IH]; intros Hpq; simpl; [done|].
  rewrite Hpq by apply list_elem_of_here.
  rewrite IH; [done|]. intros x Hx. apply Hpq. by apply list_elem_of_further.
Qed.

Lemma filter_perm {A} (p : A → bool) (l1 l2 : list A) :
  l1 ≡ₚ l2 → List.filter p l1 ≡ₚ List.filter p l2.
Proof.
  induction 1 as [|x l1 l2 _ IH|x y l|l1 l2 l3 _ IH1 _ IH2]; simpl.
  - done.
  - destruct (p x); [by rewrite IH|done].
  - destruct (p x), (p y); try done. apply Permutation_swap.
  - by rewrite IH1.
Qed.

Lemma NoDup_key_inj {A B} (f : A → B) (l : list A) (x y : A) :
  NoDup (map f l) → x ∈ l → y ∈ l → f x = f y → x = y.
Proof.
  induction l as [|a l IH]; simpl; intros Hnd Hx Hy Hf.
  - by apply elem_of_nil in Hx.
  - apply NoDup_cons in Hnd as [Ha Hnd].
    apply elem_of_cons in Hx as [->|Hx]; apply elem_of_cons in Hy as [->|Hy].
    + done.
    + exfalso. apply Ha. rewrite Hf. by apply (list_elem_of_fmap_2 f).
    + exfalso. apply Ha. rewrite <- Hf. by apply (list_elem_of_fmap_2 f).
    + by apply IH.
Qed.

Lemma elem_of_filter_list {A} (p : A → bool) (l : list A) (x : A) :
  x ∈ List.filter p l → x ∈ l.
Proof. intros H. apply list_elem_of_In, filter_In in H as [H _]. by apply list_elem_of_In. Qed.

(** ** Attribute access on a company row *)

Lemma getattr_setattr (c : Company) (f g : string) (v : pyval) :
  getattr (setattr c f v) g = if decide (f = g) then v else getattr c g.
Proof.
  unfold getattr, setattr; simpl.
  rewrite lookup_insert. by destruct (decide (f = g)).
Qed.

Lemma domain_setattr (c : Company) (f : string) (v : pyval) :
  domain (setattr c f v) = domain c.
Proof. reflexivity. Qed.

(** ** The merge loop of [company_enrich] *)

Section Merge.
Variable overwrite : bool.
Variable data : dict.

Let step := Companies.merge_field overwrite data.

Lemma merge_field_domain st f : domain (fst (step st f)) = domain (fst st).
Proof.
  unfold step, Companies.merge_field.
  destruct (is_none_or_empty _); [done|].
  by destruct (overwrite || _).
Qed.

Lemma merge_field_same st f :
  getattr (fst (step st f)) f =
    if Spec.written overwrite (dict_get data f) (getattr (fst st) f)
    then dict_get data f else getattr (fst st) f.
Proof.
  unfold step, Companies.merge_field, Spec.written.
  destruct (is_none_or_empty _); simpl; [done|].
  destruct (overwrite || _); simpl; [|done].
  rewrite getattr_setattr. by rewrite decide_True.
Qed.

Lemma merge_field_other st f g :
  f ≠ g → getattr (fst (step st f)) g = getattr (fst st) g.
Proof.
  intros Hne. unfold step, Companies.merge_field.
  destruct (is_none_or_empty _); [done|].
  destruct (overwrite || _); simpl; [|done].
  rewrite getattr_setattr. by rewrite decide_False.
Qed.

Lemma merge_field_flag st f :
  snd (step st f) =
    snd st || Spec.written overwrite (dict_get data f) (getattr (fst st) f).
Proof.
  unfold step, Companies.merge_field, Spec.written.
  destruct (is_none_or_empty _); simpl; [by rewrite orb_false_r|].
  destruct (overwrite || _); simpl;
    [by rewrite orb_true_r | by rewrite orb_false_r].
Qed.

(** The loop over any list of distinct field names: each listed field is
    decided on the value the row had when the loop started. *)
Lemma merge_loop (fs : list string) :
  NoDup fs → ∀ st,
  let r := fold_left step fs st in
  domain (fst r) = domain (fst st)
  ∧ (∀ f, getattr (fst r) f =
          if bool_decide (f ∈ fs)
             && Spec.written overwrite (dict_get data f) (getattr (fst st) f)
          then dict_get data f else getattr (fst st) f)
  ∧ snd r = snd st
            || existsb (fun f => Spec.written overwrite (dict_get data f)
                                   (getattr (fst st) f)) fs.
Proof.
  induction 1 as [|f fs Hnotin Hnd IH]; intros st; simpl.
  - split; [done|]. split; [done|]. by rewrite orb_false_r.
  - destruct (IH (step st f)) as (Hdom & Hget & Hflag).
    split; [by rewrite Hdom, merge_field_domain|].
    split.
    + intros g. rewrite Hget.
      destruct (decide (g = f)) as [->|Hne].
      * rewrite (bool_decide_eq_false_2 (f ∈ fs)) by done.
        rewrite (bool_decide_eq_true_2 (f ∈ f :: fs)) by apply list_elem_of_here.
        simpl. apply merge_field_same.
      * rewrite (merge_field_other st f g) by done.
        destruct (decide (g ∈ fs)) as [Hin|Hout].
        -- rewrite (bool_decide_eq_true_2 (g ∈ fs)) by done.
           by rewrite (bool_decide_eq_true_2 (g ∈ f :: fs))
             by (by apply list_elem_of_further).
        -- rewrite (bool_decide_eq_false_2 (g ∈ fs)) by done.
           rewrite (bool_decide_eq_false_2 (g ∈ f :: fs)); [done|].
           rewrite elem_of_cons. intros [?|?]; done.
    + rewrite Hflag, merge_field_flag, <- orb_assoc. f_equal. f_equal.
      apply existsb_ext_elem. intros g Hg.
      rewrite (merge_field_other st f g); [done|]. by intros ->.
Qed.

End Merge.

Lemma fields_NoDup : NoDup Companies.fields.
Proof. apply (bool_decide_unpack _). by vm_compute. Qed.

(** C1. For every company handed to the merge of [company_enrich] and
    every field of the fixed list: after the loop the field holds the
    collaborator's value exactly when that value is neither [None] nor
    [''] and overwrite mode is on or the current value is falsy, and holds
    its old value otherwise; the [updated] flag is set exactly when some
    field was written.  Hence fill mode never changes a populated field,
    and overwrite mode replaces every field for which a non-empty value
    came back. *)
Theorem company_enrich_merge_policy
    (overwrite : bool) (data : dict) (company : Company) (field : string) :
  field ∈ Companies.fields →
  let r := Companies.merge_fields overwrite data company in
  let value := dict_get data field in
  let current := getattr company field in
  getattr (fst r) field =
    (if negb (is_none_or_empty value) && (overwrite || negb (truthy current))
     then value else current)
  ∧ (snd r = true ↔
       ∃ f, f ∈ Companies.fields
            ∧ is_none_or_empty (dict_get data f) = false
            ∧ (overwrite = true ∨ truthy (getattr company f) = false))
  ∧ (overwrite = false → truthy current = true → getattr (fst r) field = current)
  ∧ (overwrite = true → is_none_or_empty value = false →
       getattr (fst r) field = value)
  ∧ domain (fst r) = domain company.
Proof.
  intros Hin r value current. subst r value current.
  unfold Companies.merge_fields.
  destruct (merge_loop overwrite data Companies.fields fields_NoDup (company, false))
    as (Hdom & Hget & Hflag).
  change (fst (company, false)) with company in Hdom, Hget, Hflag.
  change (snd (company, false)) with false in Hflag. rewrite orb_false_l in Hflag.
  set (r := fold_left (Companies.merge_field overwrite data) Companies.fields
              (company, false)) in *.
  assert (Hfield : getattr (fst r) field =
            (if negb (is_none_or_empty (dict_get data field))
                && (overwrite || negb (truthy (getattr company field)))
             then dict_get data field else getattr company field)).
  { rewrite Hget. by rewrite (bool_decide_eq_true_2 _ Hin). }
  split; [exact Hfield|]. split; [|split; [|split]].
  - rewrite Hflag. rewrite existsb_exists. split.
    + intros (f & Hf & Hw). exists f. split; [by apply list_elem_of_In|].
      unfold Spec.written in Hw. apply andb_prop in Hw as [Hv Hc].
      split; [by apply negb_true_iff|].
      apply orb_prop in Hc as [Ho|Hc]; [by left|right; by apply negb_true_iff].
    + intros (f & Hf & Hv & Hc). exists f. split; [by apply list_elem_of_In|].
      unfold Spec.written. rewrite Hv. cbn [negb andb].
      destruct Hc as [-> | ->]; [done|by rewrite orb_true_r].
  - intros -> Ht. rewrite Hfield, Ht. cbn [negb orb]. by rewrite andb_false_r.
  - intros -> Hv. rewrite Hfield, Hv. done.
  - exact Hdom.
Qed.

(** C1 on a row with a populated [linkedin] and an empty [city], fill mode. *)
Lemma company_enrich_merge_policy_witness :
  "linkedin" ∈ Companies.fields
  ∧ let company := {| domain := "acme.io";
                      attrs := {[ "linkedin" := PyStr "old"; "city" := PyStr "" ]} |} in
    let data : dict := {[ "linkedin" := PyStr "new"; "city" := PyStr "Oslo" ]} in
    let r := Companies.merge_fields false data company in
    let value := dict_get data "linkedin" in
    let current := getattr company "linkedin" in
    getattr (fst r) "linkedin" =
      (if negb (is_none_or_empty value) && (false || negb (truthy current))
       then value else current)
    ∧ (snd r = true ↔
         ∃ f, f ∈ Companies.fields
              ∧ is_none_or_empty (dict_get data f) = false
              ∧ (false = true ∨ truthy (getattr company f) = false))
    ∧ (false = false → truthy current = true → getattr (fst r) "linkedin" = current)
    ∧ (false = true → is_none_or_empty value = false →
         getattr (fst r) "linkedin" = value)
    ∧ domain (fst r) = domain company.
Proof.
  assert (H : "linkedin" ∈ Companies.fields)
    by (apply (bool_decide_unpack _); vm_compute; exact I).
  split; [exact H|].
  exact (company_enrich_merge_policy false
           {[ "linkedin" := PyStr "new"; "city" := PyStr "Oslo" ]}
           {| domain := "acme.io";
              attrs := {[ "linkedin" := PyStr "old"; "city" := PyStr "" ]} |}
           "linkedin" H).
Defined.

(** The merge on a concrete row, fill mode: the populated field stays, the
    empty one is filled, a field the collaborator left empty is skipped. *)
Example merge_fill_example :
  let company := {| domain := "acme.io";
                    attrs := {[ "linkedin" := PyStr "old"; "city" := PyStr "" ]} |} in
  let data : dict := {[ "linkedin" := PyStr "new"; "city" := PyStr "Oslo";
                        "state" := PyStr "" ]} in
  let r := Companies.merge_fields false data company in
  getattr (fst r) "linkedin" = PyStr "old"
  ∧ getattr (fst r) "city" = PyStr "Oslo"
  ∧ getattr (fst r) "state" = PyNone
  ∧ snd r = true.
Proof. vm_compute. done. Qed.
(** ** Tallies *)

Lemma tally_eq (t u : Tally) :
  enriched t = enriched u → skipped t = skipped u → errors t = errors u → t = u.
Proof. destruct t, u; simpl; congruence. Qed.

Lemma record_verdicts (vs : list Spec.verdict) (t : Tally) :
  let r := fold_left Spec.record_verdict vs t in
  enriched r = (enriched t + Spec.count_of Spec.Enriched vs)%nat
  ∧ skipped r = (skipped t + Spec.count_of Spec.Skipped vs)%nat
  ∧ errors r = (errors t + Spec.count_of Spec.Errored vs)%nat.
Proof.
  revert t. induction vs as [|v vs IH]; intros t; simpl.
  - unfold Spec.count_of; simpl. lia.
  - destruct (IH (Spec.record_verdict t v)) as (He & Hs & Hx).
    rewrite He, Hs, Hx. unfold Spec.count_of.
    destruct v; simpl; lia.
Qed.

Lemma record_verdicts_zero (vs : list Spec.verdict) :
  fold_left Spec.record_verdict vs zero = Spec.tally_of vs.
Proof.
  destruct (record_verdicts vs zero) as (He & Hs & Hx).
  apply tally_eq; simpl; [rewrite He|rewrite Hs|rewrite Hx]; done.
Qed.

(** Every verdict is counted once: the three counters add up to the
    number of verdicts. *)
Lemma tally_of_total (vs : list Spec.verdict) :
  (enriched (Spec.tally_of vs) + skipped (Spec.tally_of vs)
   + errors (Spec.tally_of vs))%nat = length vs.
Proof.
  unfold Spec.tally_of, Spec.count_of; simpl.
  induction vs as [|v vs IH]; simpl; [done|].
  destruct v; simpl; lia.
Qed.

(** ** The loop of [company_enrich] *)

Section CompanyRun.
Variable enrich_company : string → outcome (option dict).
Variable save_raises : Company → bool.
Variable overwrite : bool.

#[local] Abbreviation one := (Companies.enrich_one enrich_company save_raises overwrite).
#[local] Abbreviation verdict_of := (Spec.company_verdict enrich_company save_raises overwrite).

Lemma company_enrich_one_calls st c :
  Companies.st_calls (one st c) = (Companies.st_calls st ++ [domain c])%list.
Proof.
  unfold Companies.enrich_one.
  destruct (enrich_company (domain c)) as [res|]; [|done].
  destruct (negb (truthy_result res)); [done|].
  destruct (Companies.merge_fields _ _ _) as [c' updated].
  destruct updated; [|done]. by destruct (save_raises c').
Qed.

Lemma company_enrich_one_tally st c :
  Companies.st_tally (one st c) =
    Spec.record_verdict (Companies.st_tally st) (verdict_of c).
Proof.
  unfold Companies.enrich_one, Spec.company_verdict.
  destruct (enrich_company (domain c)) as [[data|]|]; [|done|done].
  unfold truthy_result. destruct (bool_decide (data = ∅)); simpl; [done|].
  destruct (Companies.merge_fields _ _ _) as [c' updated]; simpl.
  destruct updated; [|done]. by destruct (save_raises c').
Qed.

Lemma company_enrich_loop (cands : list Company) : ∀ st,
  let r := fold_left one cands st in
  Companies.st_calls r = (Companies.st_calls st ++ map domain cands)%list
  ∧ Companies.st_tally r =
      fold_left Spec.record_verdict (map verdict_of cands) (Companies.st_tally st).
Proof.
  induction cands as [|c cands IH]; intros st; simpl.
  - by rewrite app_nil_r.
  - destruct (IH (one st c)) as [Hcalls Htally].
    rewrite Hcalls, Htally, company_enrich_one_calls, company_enrich_one_tally.
    by rewrite <- app_assoc.
Qed.

Lemma company_enrich_all_spec (db : DB) (cands : list Company) :
  let r := Companies.enrich_all enrich_company save_raises overwrite db cands in
  Companies.st_calls r = map domain cands
  ∧ Companies.st_tally r = Spec.tally_of (map verdict_of cands).
Proof.
  unfold Companies.enrich_all.
  destruct (company_enrich_loop cands
              {| Companies.st_db := db; Companies.st_tally := zero;
                 Companies.st_calls := [] |}) as [Hcalls Htally].
  split; [exact Hcalls|]. rewrite Htally. apply record_verdicts_zero.
Qed.

End CompanyRun.

(** ** The loop of [lead_enrich] *)

Section LeadRun.
Variable enrich_lead : Lead → bool → DB → outcome (option dict) * DB.
Variable overwrite : bool.

#[local] Abbreviation one := (Leads.enrich_one enrich_lead overwrite).

Lemma lead_enrich_one_spec st l :
  Leads.st_calls (one st l) = (Leads.st_calls st ++ [(l, overwrite)])%list
  ∧ Leads.st_db (one st l) = snd (enrich_lead l overwrite (Leads.st_db st))
  ∧ Leads.st_tally (one st l) =
      Spec.record_verdict (Leads.st_tally st)
        (Spec.lead_verdict (fst (enrich_lead l overwrite (Leads.st_db st)))).
Proof.
  unfold Leads.enrich_one, Spec.lead_verdict.
  destruct (enrich_lead l overwrite (Leads.st_db st)) as [[[d|]|] db']; simpl;
    [|done|done].
  destruct (bool_decide (d = ∅)); simpl; [done|].
  by destruct (truthy (dict_get d "skipped")).
Qed.

Lemma lead_enrich_loop (cands : list Lead) : ∀ st,
  let r := fold_left one cands st in
  Leads.st_calls r = (Leads.st_calls st ++ map (λ l, (l, overwrite)) cands)%list
  ∧ Leads.st_tally r =
      fold_left Spec.record_verdict
        (Spec.lead_verdicts enrich_lead overwrite (Leads.st_db st) cands)
        (Leads.st_tally st).
Proof.
  induction cands as [|l cands IH]; intros st; simpl.
  - by rewrite app_nil_r.
  - destruct (IH (one st l)) as [Hcalls Htally].
    destruct (lead_enrich_one_spec st l) as (Hc & Hd & Ht).
    rewrite Hcalls, Htally, Hc, Hd, Ht. by rewrite <- app_assoc.
Qed.

Lemma lead_enrich_all_spec (db : DB) (cands : list Lead) :
  let r := Leads.enrich_all enrich_lead overwrite db cands in
  Leads.st_calls r = map (λ l, (l, overwrite)) cands
  ∧ Leads.st_tally r =
      Spec.tally_of (Spec.lead_verdicts enrich_lead overwrite db cands).
Proof.
  unfold Leads.enrich_all.
  destruct (lead_enrich_loop cands
              {| Leads.st_db := db; Leads.st_tally := zero; Leads.st_calls := [] |})
    as [Hcalls Htally].
  split; [exact Hcalls|]. rewrite Htally. apply record_verdicts_zero.
Qed.

Lemma lead_verdicts_length (db : DB) (cands : list Lead) :
  length (Spec.lead_verdicts enrich_lead overwrite db cands) = length cands.
Proof.
  revert db. induction cands as [|l cands IH]; intros db; simpl; [done|].
  by rewrite IH.
Qed.

End LeadRun.
(** C2 (as amended). With both credentials set and a non-empty candidate
    set, an enrichment run (company or lead) calls the collaborator once
    for every candidate, in order; one verdict is counted per candidate,
    an exception counting as one error without ending the loop; a
    candidate is an error when the collaborator raises or returns an empty
    result (for a company also when the save raises), skipped when the
    merge changes no field (company) or the result carries a truthy
    ['skipped'] entry (lead), and enriched otherwise; the run ends in one
    success message built from the three counters. *)
Theorem enrichment_run_tally
    (enrich_company : string → outcome (option dict))
    (save_raises : Company → bool)
    (enrich_lead : Lead → bool → DB → outcome (option dict) * DB)
    (environ : gmap string string) (db : DB) (request : HttpRequest) :
  enable_enrichment environ = true →
  let overwrite := overwrite_of request in
  let companies := Companies.candidates overwrite db in
  let leads := Leads.candidates overwrite db in
  let crun := Companies.company_enrich enrich_company save_raises environ db request in
  let lrun := Leads.lead_enrich enrich_lead environ db request in
  let cvs := map (Spec.company_verdict enrich_company save_raises overwrite) companies in
  let lvs := Spec.lead_verdicts enrich_lead overwrite db leads in
  (companies ≠ [] →
     run_calls crun = map domain companies
     ∧ run_result crun =
         Redirect "companies:company_list"
           [(SUCCESS, enrich_msg "Company" "company" (Spec.tally_of cvs))]
     ∧ (enriched (Spec.tally_of cvs) + skipped (Spec.tally_of cvs)
        + errors (Spec.tally_of cvs))%nat = length companies)
  ∧ (leads ≠ [] →
       run_calls lrun = map (λ l, (l, overwrite)) leads
       ∧ run_result lrun =
           Redirect "leads:lead_list"
             [(SUCCESS, enrich_msg "Lead" "lead" (Spec.tally_of lvs))]
       ∧ (enriched (Spec.tally_of lvs) + skipped (Spec.tally_of lvs)
          + errors (Spec.tally_of lvs))%nat = length leads).
Proof.
  intros Hen overwrite companies leads crun lrun cvs lvs.
  subst crun lrun cvs lvs companies leads overwrite.
  unfold Companies.company_enrich, Leads.lead_enrich. rewrite Hen.
  cbn [negb]. split.
  - intros Hc.
    destruct (Companies.candidates (overwrite_of request) db) as [|c cs] eqn:Ecs;
      [done|].
    cbn [length Nat.eqb run_calls run_result].
    destruct (company_enrich_all_spec enrich_company save_raises
                (overwrite_of request) db (c :: cs)) as [Hcc Hct].
    rewrite Hcc, Hct. split_and!; [done|done|].
    rewrite tally_of_total. by rewrite length_map.
  - intros Hl.
    destruct (Leads.candidates (overwrite_of request) db) as [|l ls] eqn:Els;
      [done|].
    cbn [length Nat.eqb run_calls run_result].
    destruct (lead_enrich_all_spec enrich_lead (overwrite_of request) db (l :: ls))
      as [Hlc Hlt].
    rewrite Hlc, Hlt. split_and!; [done|done|].
    rewrite tally_of_total. by rewrite lead_verdicts_length.
Qed.

(** C2 on the three sample companies and leads, the collaborators raising
    for the second record. *)
Lemma enrichment_run_tally_witness :
  enable_enrichment Sample.environ_on = true
  ∧ Companies.candidates (overwrite_of (Sample.get_request [])) Sample.db3 ≠ []
  ∧ Leads.candidates (overwrite_of (Sample.get_request [])) Sample.db3 ≠ []
  ∧ run_calls (Companies.company_enrich Sample.enrich_company_2 Sample.never
                 Sample.environ_on Sample.db3 (Sample.get_request []))
    = map domain (Companies.candidates (overwrite_of (Sample.get_request [])) Sample.db3)
  ∧ run_calls (Leads.lead_enrich Sample.enrich_lead_2
                 Sample.environ_on Sample.db3 (Sample.get_request []))
    = map (λ l, (l, overwrite_of (Sample.get_request [])))
          (Leads.candidates (overwrite_of (Sample.get_request [])) Sample.db3).
Proof.
  assert (H1 : enable_enrichment Sample.environ_on = true) by (vm_compute; reflexivity).
  assert (H2 : Companies.candidates (overwrite_of (Sample.get_request [])) Sample.db3 ≠ [])
    by (vm_compute; discriminate).
  assert (H3 : Leads.candidates (overwrite_of (Sample.get_request [])) Sample.db3 ≠ [])
    by (vm_compute; discriminate).
  pose proof (enrichment_run_tally Sample.enrich_company_2 Sample.never
                Sample.enrich_lead_2 Sample.environ_on Sample.db3
                (Sample.get_request []) H1) as H.
  cbv zeta in H. destruct H as [Hc Hl].
  exact (conj H1 (conj H2 (conj H3 (conj (proj1 (Hc H2)) (proj1 (Hl H3)))))).
Defined.

(** The run of C2's example: the collaborator raises for record 2 of 3;
    records 1 and 3 are still processed and the message carries the
    counters. *)
Example enrichment_second_of_three_raises :
  let crun := Companies.company_enrich Sample.enrich_company_2 Sample.never
                Sample.environ_on Sample.db3 (Sample.get_request []) in
  let lrun := Leads.lead_enrich Sample.enrich_lead_2
                Sample.environ_on Sample.db3 (Sample.get_request []) in
  run_calls crun = ["acme.io"; "bolt.io"; "core.io"]
  ∧ run_result crun =
      Redirect "companies:company_list"
        [(SUCCESS, "Company enrichment completed. Enriched 1 company(s). Skipped 1. 1 error(s) occurred.")]
  ∧ map (λ c, getattr c "city") (companies (run_db crun)) = [PyStr "Oslo"; PyNone; PyStr "Bergen"]
  ∧ map (λ c, email c.1) (run_calls lrun) = ["ann@acme.io"; "bob@bolt.io"; "cyd@core.io"]
  ∧ run_result lrun =
      Redirect "leads:lead_list"
        [(SUCCESS, "Lead enrichment completed. Enriched 1 lead(s). Skipped 1. 1 error(s) occurred.")].
Proof. vm_compute. repeat split. Qed.

(** C2, counterexample. A collaborator that finds nothing (it returns
    [None] for every company, [{}] for every lead) leaves no record
    counted as skipped: each one is counted as an error. *)
Lemma enrichment_empty_result_counts_as_error :
  let crun := Companies.company_enrich Sample.enrich_company_none Sample.never
                Sample.environ_on Sample.db3 (Sample.get_request []) in
  let lrun := Leads.lead_enrich Sample.enrich_lead_none
                Sample.environ_on Sample.db3 (Sample.get_request []) in
  let ctally := Companies.st_tally
                  (Companies.enrich_all Sample.enrich_company_none Sample.never false
                     Sample.db3 (Companies.candidates false Sample.db3)) in
  let ltally := Leads.st_tally
                  (Leads.enrich_all Sample.enrich_lead_none false
                     Sample.db3 (Leads.candidates false Sample.db3)) in
  (skipped ctally = 0 ∧ errors ctally = 3 ∧ skipped ltally = 0 ∧ errors ltally = 3)%nat
  ∧ run_result crun =
      Redirect "companies:company_list"
        [(SUCCESS, "Company enrichment completed. Enriched 0 company(s). 3 error(s) occurred.")]
  ∧ run_result lrun =
      Redirect "leads:lead_list"
        [(SUCCESS, "Lead enrichment completed. Enriched 0 lead(s). 3 error(s) occurred.")].
Proof. vm_compute. repeat split. Qed.
(** ** What [company_enrich] leaves in the table *)

Lemma merge_fields_domain (overwrite : bool) (data : dict) (c : Company) :
  domain (fst (Companies.merge_fields overwrite data c)) = domain c.
Proof.
  unfold Companies.merge_fields.
  by destruct (merge_loop overwrite data Companies.fields fields_NoDup (c, false))
    as (Hdom & _ & _).
Qed.

Section CompanyTable.
Variable enrich_company : string → outcome (option dict).
Variable save_raises : Company → bool.
Variable overwrite : bool.

#[local] Abbreviation one := (Companies.enrich_one enrich_company save_raises overwrite).
#[local] Abbreviation verdict_of := (Spec.company_verdict enrich_company save_raises overwrite).
#[local] Abbreviation after := (Spec.company_after enrich_company save_raises overwrite).

Lemma company_after_domain c : domain (after c) = domain c.
Proof.
  unfold Spec.company_after.
  destruct (enrich_company (domain c)) as [[data|]|]; [|done|done].
  case_bool_decide; [apply merge_fields_domain|done].
Qed.

Lemma company_after_not_enriched c : verdict_of c ≠ Spec.Enriched → after c = c.
Proof.
  intros H. unfold Spec.company_after.
  destruct (enrich_company (domain c)) as [[data|]|]; [|done|done].
  by rewrite bool_decide_eq_false_2.
Qed.

Lemma company_enrich_one_db st c :
  Companies.st_db (one st c) =
    if bool_decide (verdict_of c = Spec.Enriched)
    then save_company (after c) (Companies.st_db st)
    else Companies.st_db st.
Proof.
  unfold Companies.enrich_one, Spec.company_after, Spec.company_verdict.
  destruct (enrich_company (domain c)) as [[data|]|] eqn:E; [|done|done].
  unfold truthy_result. destruct (bool_decide (data = ∅)); simpl; [done|].
  destruct (Companies.merge_fields overwrite data c) as [c' updated]; simpl.
  destruct updated; [|done]. by destruct (save_raises c').
Qed.

#[local] Abbreviation table_after :=
  (Spec.table_after enrich_company save_raises overwrite).

Lemma save_company_table (rows : list Company) (done : list string) (c : Company) (db : DB) :
  NoDup (map domain rows) → c ∈ rows → domain c ∉ done →
  companies db = table_after done rows →
  companies (save_company (after c) db) = table_after (done ++ [domain c]) rows.
Proof.
  intros Hnd Hc Hdone Hrows. unfold save_company. rewrite Hrows.
  assert (Hex : existsb (λ r, String.eqb (domain r) (domain (after c)))
                  (table_after done rows) = true).
  { apply existsb_exists. exists c. split.
    - apply list_elem_of_In. unfold Spec.table_after.
      apply (list_elem_of_fmap_2' _ _ c); [done|].
      by rewrite bool_decide_eq_false_2.
    - rewrite company_after_domain. apply String.eqb_refl. }
  rewrite Hex. simpl. unfold Spec.table_after. rewrite map_map.
  apply map_ext_in. intros r Hr. apply list_elem_of_In in Hr.
  rewrite company_after_domain.
  assert (Hd : domain (if bool_decide (domain r ∈ done) then after r else r) = domain r).
  { case_bool_decide; [apply company_after_domain|done]. }
  rewrite Hd.
  destruct (String.eqb_spec (domain r) (domain c)) as [Heq|Hne].
  - assert (r = c) by (by apply (NoDup_key_inj domain rows)). subst r.
    rewrite bool_decide_eq_true_2; [done|].
    apply elem_of_app. right. apply list_elem_of_here.
  - destruct (decide (domain r ∈ done)) as [Hin|Hout].
    + rewrite !bool_decide_eq_true_2; [done| |done].
      apply elem_of_app. by left.
    + rewrite !bool_decide_eq_false_2; [done| |done].
      rewrite elem_of_app, list_elem_of_singleton. by intros [?|?].
Qed.

Lemma table_after_same (rows : list Company) (done : list string) (c : Company) :
  NoDup (map domain rows) → c ∈ rows → after c = c →
  table_after (done ++ [domain c]) rows = table_after done rows.
Proof.
  intros Hnd Hc Hafter. unfold Spec.table_after. apply map_ext_in.
  intros r Hr. apply list_elem_of_In in Hr.
  destruct (decide (domain r ∈ done)) as [Hin|Hout].
  - rewrite !bool_decide_eq_true_2; [done|done|]. apply elem_of_app. by left.
  - rewrite (bool_decide_eq_false_2 (domain r ∈ done)) by done.
    case_bool_decide as Hin'; [|done].
    apply elem_of_app in Hin' as [?|Hin']; [done|].
    apply list_elem_of_singleton in Hin'.
    assert (r = c) by (by apply (NoDup_key_inj domain rows)). by subst r.
Qed.

Lemma save_company_others (c : Company) (db : DB) :
  leads (save_company c db) = leads db
  ∧ tags (save_company c db) = tags db
  ∧ lead_tags (save_company c db) = lead_tags db.
Proof. unfold save_company. by destruct (existsb _ _). Qed.

Lemma company_enrich_loop_db (rows : list Company) (db0 : DB) (cands : list Company) :
  NoDup (map domain rows) →
  ∀ st done,
  (∀ c, c ∈ cands → c ∈ rows) →
  NoDup (map domain cands) →
  (∀ c, c ∈ cands → domain c ∉ done) →
  companies (Companies.st_db st) = table_after done rows →
  leads (Companies.st_db st) = leads db0
  ∧ tags (Companies.st_db st) = tags db0
  ∧ lead_tags (Companies.st_db st) = lead_tags db0 →
  let r := fold_left one cands st in
  companies (Companies.st_db r) = table_after (done ++ map domain cands) rows
  ∧ leads (Companies.st_db r) = leads db0
  ∧ tags (Companies.st_db r) = tags db0
  ∧ lead_tags (Companies.st_db r) = lead_tags db0.
Proof.
  intros Hnd. induction cands as [|c cands IH]; intros st done Hsub Hndc Hdisj Hrows Hrest.
  - simpl. by rewrite app_nil_r.
  - simpl in Hndc. apply NoDup_cons in Hndc as [Hc Hndc].
    cbn [fold_left map].
    replace (done ++ domain c :: map domain cands)%list
      with ((done ++ [domain c]) ++ map domain cands)%list by (by rewrite <- app_assoc).
    apply IH.
    + intros c' Hc'. apply Hsub. by apply list_elem_of_further.
    + exact Hndc.
    + intros c' Hc' Hin. apply elem_of_app in Hin as [Hin|Hin].
      * apply (Hdisj c'); [by apply list_elem_of_further|done].
      * apply list_elem_of_singleton in Hin. apply Hc. rewrite <- Hin.
        by apply (list_elem_of_fmap_2 domain).
    + rewrite company_enrich_one_db. case_bool_decide as Hv.
      * apply save_company_table; [done| |by apply Hdisj, list_elem_of_here|done].
        apply Hsub, list_elem_of_here.
      * rewrite table_after_same; [done|done| |by apply company_after_not_enriched].
        apply Hsub, list_elem_of_here.
    + rewrite company_enrich_one_db. case_bool_decide as Hv; [|done].
      destruct (save_company_others (after c) (Companies.st_db st)) as (-> & -> & ->).
      done.
Qed.

End CompanyTable.
Lemma NoDup_map_filter {A B} (f : A → B) (p : A → bool) (l : list A) :
  NoDup (map f l) → NoDup (map f (List.filter p l)).
Proof.
  induction l as [|a l IH]; simpl; intros Hnd; [done|].
  apply NoDup_cons in Hnd as [Ha Hnd].
  destruct (p a); simpl; [|by apply IH].
  apply NoDup_cons. split; [|by apply IH].
  intros Hin. apply Ha. apply list_elem_of_fmap in Hin as (x & -> & Hx).
  apply (list_elem_of_fmap_2 f). by apply elem_of_filter_list in Hx.
Qed.

(** The tables a run of [company_enrich] leaves. *)
Lemma company_enrich_table
    (enrich_company : string → outcome (option dict))
    (save_raises : Company → bool)
    (environ : gmap string string) (db : DB) (request : HttpRequest) :
  NoDup (map domain (companies db)) →
  let overwrite := overwrite_of request in
  let cands := if enable_enrichment environ
               then Companies.candidates overwrite db else [] in
  let run := Companies.company_enrich enrich_company save_raises environ db request in
  companies (run_db run) =
    Spec.table_after enrich_company save_raises overwrite (map domain cands) (companies db)
  ∧ leads (run_db run) = leads db
  ∧ tags (run_db run) = tags db
  ∧ lead_tags (run_db run) = lead_tags db.
Proof.
  intros Hnd overwrite cands run. subst run cands overwrite.
  assert (Hid : Spec.table_after enrich_company save_raises (overwrite_of request) []
                  (companies db) = companies db).
  { unfold Spec.table_after. rewrite <- (map_id (companies db)) at 2.
    apply map_ext. intros r. by rewrite bool_decide_eq_false_2 by apply not_elem_of_nil. }
  unfold Companies.company_enrich.
  destruct (enable_enrichment environ); cbn [negb run_db map]; [|by rewrite Hid].
  assert (Hsub : ∀ x, x ∈ Companies.candidates (overwrite_of request) db → x ∈ companies db).
  { intros x. unfold Companies.candidates.
    destruct (overwrite_of request); [done|apply elem_of_filter_list]. }
  assert (Hndc : NoDup (map domain (Companies.candidates (overwrite_of request) db))).
  { unfold Companies.candidates.
    destruct (overwrite_of request); [done|by apply NoDup_map_filter]. }
  set (cands := Companies.candidates (overwrite_of request) db) in *.
  destruct (Nat.eqb_spec (length cands) 0) as [Hz|Hnz].
  - apply length_zero_iff_nil in Hz. rewrite Hz. cbn [map run_db]. by rewrite Hid.
  - cbn [run_db]. unfold Companies.enrich_all.
    pose proof (company_enrich_loop_db enrich_company save_raises (overwrite_of request)
                  (companies db) db cands Hnd
                  {| Companies.st_db := db; Companies.st_tally := zero;
                     Companies.st_calls := [] |} []) as H.
    cbv zeta in H. rewrite app_nil_l in H. apply H; try done.
    intros x _. apply not_elem_of_nil.
Qed.

(** In fill mode a populated attribute of a company row is the same
    after the run, whatever the collaborator returned. *)
Lemma company_after_keeps_populated
    (enrich_company : string → outcome (option dict))
    (save_raises : Company → bool) (c : Company) (field : string) :
  truthy (getattr c field) = true →
  getattr (Spec.company_after enrich_company save_raises false c) field = getattr c field.
Proof.
  intros Ht. unfold Spec.company_after.
  destruct (enrich_company (domain c)) as [[data|]|]; [|done|done].
  case_bool_decide; [|done].
  destruct (merge_loop false data Companies.fields fields_NoDup (c, false))
    as (_ & Hget & _).
  unfold Companies.merge_fields. rewrite Hget. cbn [fst].
  unfold Spec.written. rewrite Ht. cbn [negb orb]. by rewrite !andb_false_r.
Qed.

(** ** The credential gate and the mode parameter *)

Lemma enable_enrichment_false (environ : gmap string string) :
  or_empty (environ !! "GENAI_API_KEY") = ""
  ∨ or_empty (environ !! "OPENAI_API_KEY") = "" →
  enable_enrichment environ = false.
Proof.
  unfold enable_enrichment, env_truthy, nonempty, or_empty.
  intros [H|H].
  - destruct (environ !! "GENAI_API_KEY") as [s|]; [|done].
    simpl in H. by rewrite H.
  - rewrite andb_comm.
    destruct (environ !! "OPENAI_API_KEY") as [s|]; [|done].
    simpl in H. by rewrite H.
Qed.

(** C8. Whenever one of the two credentials is absent from the
    environment or empty, both enrichment views stop at the gate: they
    queue the disabled-feature error, redirect to their list, call no
    collaborator and leave the database as it was. *)
Theorem enrichment_gated_on_credentials
    (enrich_company : string → outcome (option dict))
    (save_raises : Company → bool)
    (enrich_lead : Lead → bool → DB → outcome (option dict) * DB)
    (environ : gmap string string) (db : DB) (request : HttpRequest) :
  or_empty (environ !! "GENAI_API_KEY") = ""
  ∨ or_empty (environ !! "OPENAI_API_KEY") = "" →
  Companies.company_enrich enrich_company save_raises environ db request =
    {| run_db := db; run_calls := [];
       run_result := Redirect "companies:company_list"
         [(ERROR, "AI enrichment is disabled. Add GENAI_API_KEY and OPENAI_API_KEY to keys.env to enable.")] |}
  ∧ Leads.lead_enrich enrich_lead environ db request =
    {| run_db := db; run_calls := [];
       run_result := Redirect "leads:lead_list"
         [(ERROR, "AI enrichment is disabled. Add GENAI_API_KEY and OPENAI_API_KEY to keys.env to enable.")] |}.
Proof.
  intros H. apply enable_enrichment_false in H.
  unfold Companies.company_enrich, Leads.lead_enrich. by rewrite H.
Qed.

(** C8 with [OPENAI_API_KEY] set to the empty string. *)
Lemma enrichment_gated_on_credentials_witness :
  (or_empty (({[ "GENAI_API_KEY" := "g-key"; "OPENAI_API_KEY" := "" ]}
                : gmap string string) !! "GENAI_API_KEY") = ""
   ∨ or_empty (({[ "GENAI_API_KEY" := "g-key"; "OPENAI_API_KEY" := "" ]}
                  : gmap string string) !! "OPENAI_API_KEY") = "")
  ∧ Companies.company_enrich Sample.enrich_company_2 Sample.never
      {[ "GENAI_API_KEY" := "g-key"; "OPENAI_API_KEY" := "" ]}
      Sample.db3 (Sample.get_request [("mode", "all")]) =
    {| run_db := Sample.db3; run_calls := [];
       run_result := Redirect "companies:company_list"
         [(ERROR, "AI enrichment is disabled. Add GENAI_API_KEY and OPENAI_API_KEY to keys.env to enable.")] |}
  ∧ Leads.lead_enrich Sample.enrich_lead_2
      {[ "GENAI_API_KEY" := "g-key"; "OPENAI_API_KEY" := "" ]}
      Sample.db3 (Sample.get_request [("mode", "all")]) =
    {| run_db := Sample.db3; run_calls := [];
       run_result := Redirect "leads:lead_list"
         [(ERROR, "AI enrichment is disabled. Add GENAI_API_KEY and OPENAI_API_KEY to keys.env to enable.")] |}.
Proof.
  assert (H : or_empty (({[ "GENAI_API_KEY" := "g-key"; "OPENAI_API_KEY" := "" ]}
                          : gmap string string) !! "GENAI_API_KEY") = ""
            ∨ or_empty (({[ "GENAI_API_KEY" := "g-key"; "OPENAI_API_KEY" := "" ]}
                           : gmap string string) !! "OPENAI_API_KEY") = "")
    by (right; vm_compute; reflexivity).
  exact (conj H
    (enrichment_gated_on_credentials Sample.enrich_company_2 Sample.never
       Sample.enrich_lead_2 {[ "GENAI_API_KEY" := "g-key"; "OPENAI_API_KEY" := "" ]}
       Sample.db3 (Sample.get_request [("mode", "all")]) H)).
Defined.

(** The gate is exactly the presence of both credentials. *)
Lemma enable_enrichment_true (environ : gmap string string) :
  enable_enrichment environ = true ↔
  ∃ g o, environ !! "GENAI_API_KEY" = Some g ∧ g ≠ ""
         ∧ environ !! "OPENAI_API_KEY" = Some o ∧ o ≠ "".
Proof.
  unfold enable_enrichment, env_truthy, nonempty. split.
  - intros H. apply andb_prop in H as [Hg Ho].
    destruct (environ !! "GENAI_API_KEY") as [g|]; [|done].
    destruct (environ !! "OPENAI_API_KEY") as [o|]; [|done].
    exists g, o. repeat split; intros ->; done.
  - intros (g & o & -> & Hg & -> & Ho).
    apply andb_true_intro. split; apply negb_true_iff, String.eqb_neq; done.
Qed.

(** C9. Overwrite mode is on exactly when the [mode] parameter is the
    string ['all'].  The views read nothing else of the request, so any
    other value -- absent, ['empty'], or a string they do not know --
    gives the run of the default fill mode, with the same messages. *)
Theorem enrichment_mode_all_or_fill
    (enrich_company : string → outcome (option dict))
    (save_raises : Company → bool)
    (enrich_lead : Lead → bool → DB → outcome (option dict) * DB)
    (environ : gmap string string) (db : DB) (request : HttpRequest) :
  overwrite_of request = bool_decide (get (GET request) "mode" = Some "all")
  ∧ Companies.company_enrich enrich_company save_raises environ db request =
      (if bool_decide (get (GET request) "mode" = Some "all")
       then Companies.company_enrich enrich_company save_raises environ db
              (Sample.get_request [("mode", "all")])
       else Companies.company_enrich enrich_company save_raises environ db
              (Sample.get_request []))
  ∧ Leads.lead_enrich enrich_lead environ db request =
      (if bool_decide (get (GET request) "mode" = Some "all")
       then Leads.lead_enrich enrich_lead environ db (Sample.get_request [("mode", "all")])
       else Leads.lead_enrich enrich_lead environ db (Sample.get_request []))
  ∧ Companies.company_enrich enrich_company save_raises environ db
      (Sample.get_request [("mode", "empty")]) =
    Companies.company_enrich enrich_company save_raises environ db (Sample.get_request [])
  ∧ Leads.lead_enrich enrich_lead environ db (Sample.get_request [("mode", "empty")]) =
    Leads.lead_enrich enrich_lead environ db (Sample.get_request []).
Proof.
  assert (Hov : overwrite_of request
                = bool_decide (get (GET request) "mode" = Some "all")).
  { unfold overwrite_of, get_or. case_bool_decide as H.
    - by rewrite H.
    - destruct (get (GET request) "mode") as [m|]; simpl; [|done].
      apply String.eqb_neq. congruence. }
  split; [exact Hov|].
  unfold Companies.company_enrich, Leads.lead_enrich.
  rewrite Hov.
  destruct (bool_decide (get (GET request) "mode" = Some "all")); done.
Qed.

(** An unknown mode value on the sample data: the run is the fill-mode
    run, message included. *)
Example enrichment_unknown_mode :
  Companies.company_enrich Sample.enrich_company_2 Sample.never Sample.environ_on
    Sample.db3 (Sample.get_request [("mode", "ALL")]) =
  Companies.company_enrich Sample.enrich_company_2 Sample.never Sample.environ_on
    Sample.db3 (Sample.get_request []).
Proof. vm_compute. reflexivity. Qed.
(** ** Query dictionaries *)

Lemma getlist_pop_ne (q : QueryDict) (d k : string) :
  k ≠ d → getlist (pop q d) k = getlist q k.
Proof.
  intros Hne. unfold getlist, pop. f_equal.
  induction q as [|[k' v] q IH]; simpl; [done|].
  destruct (String.eqb_spec k' d) as [->|Hd]; simpl.
  - destruct (String.eqb_spec d k) as [->|_]; [done|exact IH].
  - destruct (String.eqb_spec k' k); simpl; by rewrite IH.
Qed.

Lemma get_pop_ne (q : QueryDict) (d k : string) :
  k ≠ d → get (pop q d) k = get q k.
Proof. intros Hne. unfold get. by rewrite getlist_pop_ne. Qed.

(** Two queries that agree once [d] is dropped agree on every other key. *)
Lemma get_agree (q1 q2 : QueryDict) (d k : string) :
  pop q1 d = pop q2 d → k ≠ d → get q1 k = get q2 k.
Proof.
  intros Hpop Hne.
  rewrite <- (get_pop_ne q1 d k Hne), <- (get_pop_ne q2 d k Hne). by rewrite Hpop.
Qed.

Lemma nonempty_false (s : string) : nonempty s = false → s = "".
Proof. unfold nonempty. intros H. apply negb_false_iff in H. by apply String.eqb_eq. Qed.

Lemma elem_of_getlist (q : QueryDict) (k v : string) :
  v ∈ getlist q k ↔ (k, v) ∈ q.
Proof.
  unfold getlist. rewrite list_elem_of_In, in_map_iff. split.
  - intros ([k' v'] & <- & Hin). apply filter_In in Hin as [Hin Hk].
    simpl in Hk. apply String.eqb_eq in Hk. subst. by apply list_elem_of_In.
  - intros Hin. exists (k, v). split; [done|]. apply filter_In.
    split; [by apply list_elem_of_In|]. simpl. apply String.eqb_refl.
Qed.

(** The pairs kept for the pagination links are the pairs of the query. *)
Lemma elem_of_keys (q : QueryDict) (k : string) : k ∈ keys q ↔ k ∈ map fst q.
Proof.
  induction q as [|[k0 v0] q IH]; [done|].
  cbn [keys map fst]. rewrite !elem_of_cons, <- IH.
  rewrite list_elem_of_In, filter_In, <- list_elem_of_In, negb_true_iff, String.eqb_neq.
  destruct (decide (k = k0)); tauto.
Qed.

Lemma elem_of_pagination_params (q : QueryDict) (k v : string) :
  (k, v) ∈ pagination_params_of q ↔ (k, v) ∈ q.
Proof.
  unfold pagination_params_of, lists. rewrite list_elem_of_In, in_flat_map. split.
  - intros (kvs & Hkvs & Hin). apply in_map_iff in Hkvs as (k' & <- & _).
    cbn [fst snd] in Hin. apply in_map_iff in Hin as (v' & [= <- <-] & Hv).
    by apply elem_of_getlist, list_elem_of_In.
  - intros Hin. exists (k, getlist q k). split.
    + apply in_map_iff. exists k. split; [done|].
      apply list_elem_of_In, elem_of_keys. by apply (list_elem_of_fmap_2 fst) in Hin.
    + cbn [fst snd]. apply in_map_iff. exists v. split; [done|].
      by apply list_elem_of_In, elem_of_getlist.
Qed.

Lemma elem_of_pop (q : QueryDict) (d k v : string) :
  (k, v) ∈ pop q d ↔ (k, v) ∈ q ∧ k ≠ d.
Proof.
  unfold pop. rewrite list_elem_of_In, filter_In, <- list_elem_of_In. simpl.
  rewrite negb_true_iff, String.eqb_neq. done.
Qed.

Lemma dir_in_pagination_params (q : QueryDict) (v : string) :
  ("dir", v) ∈ pagination_params_of (pop q "page") ↔ ("dir", v) ∈ q.
Proof.
  rewrite elem_of_pagination_params, elem_of_pop. split; [by intros [? _]|].
  intros H. split; [done|discriminate].
Qed.

(** ** The list views: what goes to the paginator *)

Lemma company_list_page (db : DB) (request : HttpRequest) :
  Companies.page_obj (Companies.company_list db request) =
    get_page (Companies.ordered db request) 10
      (page_or_1 (strip (or_empty (get (GET request) "page")))).
Proof. reflexivity. Qed.

Lemma lead_list_page (db : DB) (request : HttpRequest) :
  Leads.page_obj (Leads.lead_list db request) =
    get_page (Leads.ordered db request) 10
      (page_or_1 (strip (get_or (GET request) "page" ""))).
Proof. reflexivity. Qed.

Lemma company_list_sort_context (db : DB) (request : HttpRequest) :
  Companies.sort_key (Companies.company_list db request) = Companies.checked_sort_key request
  ∧ Companies.sort_dir (Companies.company_list db request) =
      (if nonempty (Companies.checked_sort_key request)
       then Companies._default_dir_for (Companies.checked_sort_key request)
       else lower (strip (or_empty (get (GET request) "dir")))).
Proof. split; reflexivity. Qed.

Lemma lead_list_sort_context (db : DB) (request : HttpRequest) :
  Leads.sort_key (Leads.lead_list db request) = Leads.checked_sort_key request
  ∧ Leads.sort_dir (Leads.lead_list db request) =
      (if nonempty (Leads.checked_sort_key request)
       then Leads._default_dir_for (Leads.checked_sort_key request)
       else lower (strip (or_empty (get (GET request) "dir")))).
Proof. split; reflexivity. Qed.

(** With the empty sort key the direction plays no part. *)
Lemma company_sorted_no_key (db : DB) (d1 d2 : string) (rows : list Company) :
  Companies.sorted db "" d1 rows = Companies.sorted db "" d2 rows.
Proof. reflexivity. Qed.

Lemma lead_sorted_no_key (db : DB) (d1 d2 : string) (rows : list Lead) :
  Leads.sorted db "" d1 rows = Leads.sorted db "" d2 rows.
Proof. reflexivity. Qed.

Lemma company_ordered_ignores_dir (db : DB) (r1 r2 : HttpRequest) :
  pop (GET r1) "dir" = pop (GET r2) "dir" →
  Companies.ordered db r1 = Companies.ordered db r2.
Proof.
  intros Hpop. unfold Companies.ordered, Companies.filtered, Companies.checked_sort_key, get_or.
  rewrite (get_agree _ _ "dir" "sort" Hpop) by done.
  rewrite (get_agree _ _ "dir" "search" Hpop) by done.
  cbv zeta.
  destruct (py_in _ Companies.allowed_sort_keys).
  - destruct (nonempty (lower (strip (or_empty (get (GET r2) "sort"))))) eqn:E; [done|].
    apply nonempty_false in E. rewrite E. apply company_sorted_no_key.
  - apply company_sorted_no_key.
Qed.

Lemma lead_ordered_ignores_dir (db : DB) (r1 r2 : HttpRequest) :
  pop (GET r1) "dir" = pop (GET r2) "dir" →
  Leads.ordered db r1 = Leads.ordered db r2.
Proof.
  intros Hpop. unfold Leads.ordered, Leads.filtered, Leads.checked_sort_key, get_or.
  rewrite (get_agree _ _ "dir" "sort" Hpop) by done.
  rewrite (get_agree _ _ "dir" "search" Hpop) by done.
  rewrite (get_agree _ _ "dir" "company" Hpop) by done.
  cbv zeta.
  destruct (py_in _ Leads.allowed_sort_keys).
  - destruct (nonempty (lower (strip (or_empty (get (GET r2) "sort"))))) eqn:E; [done|].
    apply nonempty_false in E. rewrite E. apply lead_sorted_no_key.
  - apply lead_sorted_no_key.
Qed.
(** For a key on the allow-list the view orders by the key's own terms. *)
Lemma company_sorted_fixed (db : DB) (key : string) (rows : list Company) :
  key ∈ Companies.allowed_sort_keys →
  Companies.sorted db key (Companies._default_dir_for key) rows =
    order_by (Spec.company_order db key) rows.
Proof.
  unfold Companies.allowed_sort_keys. rewrite !elem_of_cons, elem_of_nil.
  intros [->|[->|[->|[->|[->|[]]]]]]; reflexivity.
Qed.

Lemma lead_sorted_fixed (db : DB) (key : string) (rows : list Lead) :
  key ∈ Leads.allowed_sort_keys →
  Leads.sorted db key (Leads._default_dir_for key) rows =
    order_by (Spec.lead_order db key) rows.
Proof.
  unfold Leads.allowed_sort_keys. rewrite !elem_of_cons, elem_of_nil.
  intros [->|[->|[->|[->|[->|[->|[]]]]]]]; reflexivity.
Qed.

Lemma allowed_company_key_nonempty (key : string) :
  key ∈ Companies.allowed_sort_keys → nonempty key = true.
Proof.
  unfold Companies.allowed_sort_keys. rewrite !elem_of_cons, elem_of_nil.
  intros [->|[->|[->|[->|[->|[]]]]]]; reflexivity.
Qed.

Lemma allowed_lead_key_nonempty (key : string) :
  key ∈ Leads.allowed_sort_keys → nonempty key = true.
Proof.
  unfold Leads.allowed_sort_keys. rewrite !elem_of_cons, elem_of_nil.
  intros [->|[->|[->|[->|[->|[->|[]]]]]]]; reflexivity.
Qed.

(** C3. Two requests that differ only in their [dir] parameters get the
    same ordered records and the same page from both list views.  For a
    sort key on the allow-list the order is that of the key's own terms
    (size and leads, score and stage descending; the others ascending)
    and the context reports that fixed direction; the [dir] values of
    the request only come back among the parameters kept for the
    pagination links. *)
Theorem list_order_ignores_dir (db : DB) (r1 r2 : HttpRequest) (key : string) :
  pop (GET r1) "dir" = pop (GET r2) "dir" →
  lower (strip (or_empty (get (GET r1) "sort"))) = key →
  (Companies.ordered db r1 = Companies.ordered db r2
   ∧ Companies.page_obj (Companies.company_list db r1) =
       Companies.page_obj (Companies.company_list db r2)
   ∧ (key ∈ Companies.allowed_sort_keys →
        Companies.ordered db r1 =
          order_by (Spec.company_order db key) (Companies.filtered db r1)
        ∧ Companies.sort_dir (Companies.company_list db r1) =
            Companies._default_dir_for key
        ∧ Companies.sort_dir (Companies.company_list db r2) =
            Companies._default_dir_for key))
  ∧ (Leads.ordered db r1 = Leads.ordered db r2
     ∧ Leads.page_obj (Leads.lead_list db r1) = Leads.page_obj (Leads.lead_list db r2)
     ∧ (key ∈ Leads.allowed_sort_keys →
          Leads.ordered db r1 = order_by (Spec.lead_order db key) (Leads.filtered db r1)
          ∧ Leads.sort_dir (Leads.lead_list db r1) = Leads._default_dir_for key
          ∧ Leads.sort_dir (Leads.lead_list db r2) = Leads._default_dir_for key))
  ∧ map Companies._default_dir_for Companies.allowed_sort_keys
      = ["asc"; "asc"; "asc"; "desc"; "desc"]
  ∧ map Leads._default_dir_for Leads.allowed_sort_keys
      = ["asc"; "asc"; "asc"; "asc"; "desc"; "desc"]
  ∧ (∀ v, ("dir", v) ∈ Companies.pagination_params (Companies.company_list db r1)
          ↔ ("dir", v) ∈ GET r1)
  ∧ (∀ v, ("dir", v) ∈ Leads.pagination_params (Leads.lead_list db r1)
          ↔ ("dir", v) ∈ GET r1).
Proof.
  intros Hpop Hkey.
  assert (Hsort : get (GET r2) "sort" = get (GET r1) "sort")
    by (symmetry; by apply (get_agree _ _ "dir")).
  assert (Hpage : get (GET r2) "page" = get (GET r1) "page")
    by (symmetry; by apply (get_agree _ _ "dir")).
  split; [|split; [|split_and!; [done|done|apply dir_in_pagination_params
                                  |apply dir_in_pagination_params]]].
  - split; [by apply company_ordered_ignores_dir|]. split.
    + rewrite !company_list_page, Hpage.
      by rewrite (company_ordered_ignores_dir db r1 r2).
    + intros Hin.
      assert (Hk1 : Companies.checked_sort_key r1 = key).
      { unfold Companies.checked_sort_key. rewrite Hkey.
        unfold py_in. by rewrite bool_decide_eq_true_2. }
      assert (Hk2 : Companies.checked_sort_key r2 = key).
      { unfold Companies.checked_sort_key. rewrite Hsort, Hkey.
        unfold py_in. by rewrite bool_decide_eq_true_2. }
      split; [|split].
      * unfold Companies.ordered. rewrite Hk1.
        rewrite (allowed_company_key_nonempty key Hin).
        by apply company_sorted_fixed.
      * destruct (company_list_sort_context db r1) as [_ ->].
        by rewrite Hk1, (allowed_company_key_nonempty key Hin).
      * destruct (company_list_sort_context db r2) as [_ ->].
        by rewrite Hk2, (allowed_company_key_nonempty key Hin).
  - split; [by apply lead_ordered_ignores_dir|]. split.
    + rewrite !lead_list_page. unfold get_or. rewrite Hpage.
      by rewrite (lead_ordered_ignores_dir db r1 r2).
    + intros Hin.
      assert (Hk1 : Leads.checked_sort_key r1 = key).
      { unfold Leads.checked_sort_key. rewrite Hkey.
        unfold py_in. by rewrite bool_decide_eq_true_2. }
      assert (Hk2 : Leads.checked_sort_key r2 = key).
      { unfold Leads.checked_sort_key. rewrite Hsort, Hkey.
        unfold py_in. by rewrite bool_decide_eq_true_2. }
      split; [|split].
      * unfold Leads.ordered. rewrite Hk1.
        rewrite (allowed_lead_key_nonempty key Hin).
        by apply lead_sorted_fixed.
      * destruct (lead_list_sort_context db r1) as [_ ->].
        by rewrite Hk1, (allowed_lead_key_nonempty key Hin).
      * destruct (lead_list_sort_context db r2) as [_ ->].
        by rewrite Hk2, (allowed_lead_key_nonempty key Hin).
Qed.
(** C3 on two requests for the [name] sort that differ in [dir] only. *)
Lemma list_order_ignores_dir_witness :
  pop (GET (Sample.get_request [("sort", " Name "); ("dir", "desc")])) "dir"
    = pop (GET (Sample.get_request [("dir", "asc"); ("sort", " Name "); ("dir", "up")])) "dir"
  ∧ lower (strip (or_empty
      (get (GET (Sample.get_request [("sort", " Name "); ("dir", "desc")])) "sort"))) = "name"
  ∧ "name" ∈ Companies.allowed_sort_keys
  ∧ "name" ∈ Leads.allowed_sort_keys
  ∧ Companies.ordered Sample.db3 (Sample.get_request [("sort", " Name "); ("dir", "desc")])
    = Companies.ordered Sample.db3
        (Sample.get_request [("dir", "asc"); ("sort", " Name "); ("dir", "up")])
  ∧ Leads.ordered Sample.db3 (Sample.get_request [("sort", " Name "); ("dir", "desc")])
    = Leads.ordered Sample.db3
        (Sample.get_request [("dir", "asc"); ("sort", " Name "); ("dir", "up")]).
Proof.
  assert (H1 : pop (GET (Sample.get_request [("sort", " Name "); ("dir", "desc")])) "dir"
               = pop (GET (Sample.get_request
                             [("dir", "asc"); ("sort", " Name "); ("dir", "up")])) "dir")
    by (vm_compute; reflexivity).
  assert (H2 : lower (strip (or_empty
            (get (GET (Sample.get_request [("sort", " Name "); ("dir", "desc")])) "sort")))
               = "name")
    by (vm_compute; reflexivity).
  assert (H3 : "name" ∈ Companies.allowed_sort_keys)
    by (apply (bool_decide_unpack _); vm_compute; exact I).
  assert (H4 : "name" ∈ Leads.allowed_sort_keys)
    by (apply (bool_decide_unpack _); vm_compute; exact I).
  pose proof (list_order_ignores_dir Sample.db3
                (Sample.get_request [("sort", " Name "); ("dir", "desc")])
                (Sample.get_request [("dir", "asc"); ("sort", " Name "); ("dir", "up")])
                "name" H1 H2) as H.
  exact (conj H1 (conj H2 (conj H3 (conj H4
           (conj (proj1 (proj1 H)) (proj1 (proj1 (proj2 H)))))))).
Defined.

(** Sorting the sample leads by score: highest first whatever [dir] asks
    for, and the context says ["desc"]. *)
Example lead_list_score_dir :
  let asc := Leads.lead_list Sample.db_scored
               (Sample.get_request [("sort", "score"); ("dir", "asc")]) in
  let desc := Leads.lead_list Sample.db_scored
                (Sample.get_request [("sort", "score"); ("dir", "desc")]) in
  map email (object_list (Leads.page_obj asc)) = ["b@x.io"; "c@x.io"; "a@x.io"]
  ∧ map email (object_list (Leads.page_obj desc)) = ["b@x.io"; "c@x.io"; "a@x.io"]
  ∧ Leads.sort_dir asc = "desc"
  ∧ Leads.pagination_params asc = [("sort", "score"); ("dir", "asc")].
Proof. vm_compute. repeat split. Qed.
(** ** Ordering: ties and tie-breakers *)

Lemma compare_terms_Eq {A} (ts : list (term A)) (x y : A) :
  compare_terms ts x y = Eq ↔ Forall (λ t, compare_term t x y = Eq) ts.
Proof.
  induction ts as [|t ts IH]; simpl.
  - split; [constructor|done].
  - rewrite Forall_cons, <- IH.
    destruct (compare_term t x y); split; try done; by intros [? ?].
Qed.

Lemma string_compare_refl (s : string) : String.compare s s = Eq.
Proof.
  pose proof (String.compare_antisym s s) as H.
  destruct (String.compare s s); simpl in H; congruence.
Qed.

Lemma sql_compare_text_Eq (s t : string) :
  sql_compare (PyStr s) (PyStr t) = Eq → s = t.
Proof. simpl. apply String.compare_eq_iff. Qed.

(** Every company sort but the one on the domain ends with the domain
    itself, so two rows tie only when they have the same domain. *)
Lemma company_order_tie (db : DB) (key : string) (x y : Company) :
  key ∈ Companies.allowed_sort_keys → key ≠ "domain" →
  last (Spec.company_order db key) = Some (asc_ (λ c, PyStr (domain c)))
  ∧ (compare_terms (Spec.company_order db key) x y = Eq → domain x = domain y).
Proof.
  intros Hin Hne.
  assert (Hlast : last (Spec.company_order db key) = Some (asc_ (λ c, PyStr (domain c)))).
  { revert Hin. unfold Companies.allowed_sort_keys. rewrite !elem_of_cons, elem_of_nil.
    intros [->|[->|[->|[->|[->|[]]]]]]; done. }
  split; [exact Hlast|].
  intros Htie. apply compare_terms_Eq in Htie.
  apply last_Some_elem_of in Hlast.
  rewrite Forall_forall in Htie. apply Htie in Hlast.
  by apply sql_compare_text_Eq.
Qed.

Lemma lead_order_tie (db : DB) (key : string) (x y : Lead) :
  key ∈ Leads.allowed_sort_keys → key ≠ "email" →
  last (Spec.lead_order db key) = Some (asc_ (λ l, PyStr (email l)))
  ∧ (compare_terms (Spec.lead_order db key) x y = Eq → email x = email y).
Proof.
  intros Hin Hne.
  assert (Hlast : last (Spec.lead_order db key) = Some (asc_ (λ l, PyStr (email l)))).
  { revert Hin. unfold Leads.allowed_sort_keys. rewrite !elem_of_cons, elem_of_nil.
    intros [->|[->|[->|[->|[->|[->|[]]]]]]]; done. }
  split; [exact Hlast|].
  intros Htie. apply compare_terms_Eq in Htie.
  apply last_Some_elem_of in Hlast.
  rewrite Forall_forall in Htie. apply Htie in Hlast.
  by apply sql_compare_text_Eq.
Qed.

(** The sorts on the natural key itself order by its lower-cased form
    alone: rows tie exactly when their keys agree up to letter case. *)
Lemma company_domain_order_tie (db : DB) (x y : Company) :
  Spec.company_order db "domain" = [asc_ (λ c, Lower (PyStr (domain c)))]
  ∧ (compare_terms (Spec.company_order db "domain") x y = Eq
     ↔ lower (domain x) = lower (domain y)).
Proof.
  split; [reflexivity|].
  change (Spec.company_order db "domain") with [asc_ (λ c : Company, Lower (PyStr (domain c)))].
  simpl. unfold compare_term; simpl.
  split.
  - intros H.
    destruct (String.compare (lower (domain x)) (lower (domain y))) eqn:E; [|done|done].
    by apply String.compare_eq_iff.
  - intros ->. by rewrite string_compare_refl.
Qed.
(** ** Comparisons that order *)

Section Laws.
Context {A : Type}.
Variable c : A → A → comparison.
Hypothesis laws : CompareLaws c.

Lemma law_refl x : c x x = Eq.
Proof.
  pose proof (law_antisym c laws x x) as H.
  destruct (c x x); simpl in H; congruence.
Qed.

Lemma law_eq_cong_r x y z : c x y = Eq → c z x = c z y.
Proof.
  intros H. rewrite (law_antisym c laws x z), (law_antisym c laws y z).
  f_equal. by apply law_eq_cong.
Qed.

Lemma law_eq_sym x y : c x y = Eq → c y x = Eq.
Proof. intros H. rewrite (law_antisym c laws x y), H. done. Qed.

Lemma law_gt_lt x y : c x y = Gt → c y x = Lt.
Proof. intros H. rewrite (law_antisym c laws x y), H. done. Qed.

Lemma law_lt_gt x y : c x y = Lt → c y x = Gt.
Proof. intros H. rewrite (law_antisym c laws x y), H. done. Qed.

Lemma not_after_trans x y z :
  not_after c x y → not_after c y z → not_after c x z.
Proof.
  unfold not_after. intros Hxy Hyz.
  destruct (c x y) eqn:Exy; [| |done].
  - by rewrite (law_eq_cong c laws x y z Exy).
  - destruct (c y z) eqn:Eyz; [| |done].
    + by rewrite <- (law_eq_cong_r y z x Eyz), Exy.
    + by rewrite (law_lt_trans c laws x y z Exy Eyz).
Qed.

Lemma not_after_total x y : not_after c x y ∨ not_after c y x.
Proof.
  unfold not_after. destruct (c x y) eqn:E; [by left|by left|].
  right. by rewrite (law_gt_lt x y E).
Qed.

(** Each other's not-after means a tie. *)
Lemma not_after_both x y : not_after c x y → not_after c y x → c x y = Eq.
Proof.
  unfold not_after. intros Hxy Hyx.
  destruct (c x y) eqn:E; [done| |done].
  by rewrite (law_lt_gt x y E) in Hyx.
Qed.

End Laws.

(** The laws pass to the reversed comparison, to a comparison of keys and
    to a comparison refined by a second one. *)
Lemma laws_opp {A} (c : A → A → comparison) :
  CompareLaws c → CompareLaws (λ x y, CompOpp (c x y)).
Proof.
  intros L. split.
  - intros x y. by rewrite (law_antisym c L x y).
  - intros x y z Hxy Hyz.
    apply (f_equal CompOpp) in Hxy, Hyz. rewrite CompOpp_involutive in Hxy, Hyz.
    simpl in Hxy, Hyz.
    apply (law_gt_lt c L) in Hxy, Hyz.
    rewrite (law_antisym c L z x), (law_lt_trans c L z y x Hyz Hxy). done.
  - intros x y z Hxy.
    apply (f_equal CompOpp) in Hxy. rewrite CompOpp_involutive in Hxy. simpl in Hxy.
    by rewrite (law_eq_cong c L x y z Hxy).
Qed.

Lemma laws_lex {A} (c1 c2 : A → A → comparison) :
  CompareLaws c1 → CompareLaws c2 →
  CompareLaws (λ x y, match c1 x y with Eq => c2 x y | o => o end).
Proof.
  intros L1 L2. split.
  - intros x y. rewrite (law_antisym c1 L1 x y).
    destruct (c1 x y); simpl; [apply (law_antisym c2 L2)|done|done].
  - intros x y z.
    destruct (c1 x y) eqn:Exy; [| |done]; (destruct (c1 y z) eqn:Eyz; [| |done]).
    + rewrite (law_eq_cong c1 L1 x y z Exy), Eyz. apply (law_lt_trans c2 L2).
    + intros _ _. by rewrite (law_eq_cong c1 L1 x y z Exy), Eyz.
    + intros _ _. by rewrite <- (law_eq_cong_r c1 L1 y z x Eyz), Exy.
    + intros _ _. by rewrite (law_lt_trans c1 L1 x y z Exy Eyz).
  - intros x y z.
    destruct (c1 x y) eqn:Exy; [|done|done]. intros Hxy.
    rewrite (law_eq_cong c1 L1 x y z Exy).
    destruct (c1 y z); [|done|done]. by apply (law_eq_cong c2 L2).
Qed.

Lemma laws_key {A B} (c : B → B → comparison) (f : A → B) :
  CompareLaws c → CompareLaws (λ x y, c (f x) (f y)).
Proof.
  intros L. split.
  - intros x y. apply (law_antisym c L).
  - intros x y z. apply (law_lt_trans c L).
  - intros x y z. apply (law_eq_cong c L).
Qed.

Lemma laws_Z : CompareLaws Z.compare.
Proof.
  split.
  - intros x y. apply Z.compare_antisym.
  - intros x y z. rewrite !Z.compare_lt_iff. lia.
  - intros x y z Hxy. apply Z.compare_eq_iff in Hxy. by subst.
Qed.

Lemma laws_string : CompareLaws String.compare.
Proof.
  split.
  - intros x y. apply String.compare_antisym.
  - intros x y z Hxy Hyz.
    apply OrderedTypeEx.String_as_OT.cmp_lt.
    apply (OrderedTypeEx.String_as_OT.lt_trans x y z);
      by apply OrderedTypeEx.String_as_OT.cmp_lt.
  - intros x y z Hxy. apply String.compare_eq_iff in Hxy. by subst.
Qed.
(** ORDER BY compares like a key: first the class of the value, then the
    number or the text. *)
Lemma laws_sql : CompareLaws sql_compare.
Proof.
  pose proof laws_Z as LZ. pose proof laws_string as LS.
  assert (Hform : ∀ a b, sql_compare a b =
            match Z.compare (sql_class a) (sql_class b) with
            | Eq => match Z.compare (sql_num a) (sql_num b) with
                    | Eq => String.compare (match a with PyStr s => s | _ => "" end)
                                           (match b with PyStr s => s | _ => "" end)
                    | o => o
                    end
            | o => o
            end).
  { intros a b.
    destruct a as [|[]|za|sa], b as [|[]|zb|sb];
      unfold sql_compare; cbn [sql_class sql_num]; rewrite ?Z.compare_refl;
      first [ reflexivity
            | match goal with
              | |- context [Z.compare ?u ?v] => destruct (Z.compare u v); reflexivity
              end ]. }
  pose proof (laws_lex _ _ (laws_key Z.compare sql_class LZ)
                (laws_lex _ _ (laws_key Z.compare sql_num LZ)
                   (laws_key String.compare
                      (λ a, match a with PyStr s => s | _ => "" end) LS))) as L.
  split.
  - intros x y. rewrite !Hform. apply (law_antisym _ L).
  - intros x y z. rewrite !Hform. apply (law_lt_trans _ L).
  - intros x y z. rewrite !Hform. apply (law_eq_cong _ L).
Qed.

Lemma laws_term {A} (t : term A) : CompareLaws (compare_term t).
Proof.
  unfold compare_term. destruct (desc t).
  - apply (laws_opp (λ x y, sql_compare (expr t x) (expr t y))).
    apply (laws_key sql_compare (expr t)), laws_sql.
  - apply (laws_key sql_compare (expr t)), laws_sql.
Qed.

Lemma laws_terms {A} (ts : list (term A)) : CompareLaws (compare_terms ts).
Proof.
  induction ts as [|t ts IH].
  - split; done.
  - apply (laws_lex (compare_term t) (compare_terms ts)); [apply laws_term|exact IH].
Qed.

(** ** [order_by] sorts *)

Section InsertionSort.
Context {A : Type}.
Variable c : A → A → comparison.
Hypothesis laws : CompareLaws c.

Lemma insert_row_perm (x : A) (l : list A) : insert_row c x l ≡ₚ x :: l.
Proof.
  induction l as [|y l IH]; simpl; [done|].
  destruct (c x y); [done|done|].
  rewrite IH. apply Permutation_swap.
Qed.

Lemma insert_row_sorted (x : A) (l : list A) :
  StronglySorted (not_after c) l → StronglySorted (not_after c) (insert_row c x l).
Proof.
  induction 1 as [|y l Hs IH Hall]; simpl.
  - constructor; [constructor|constructor].
  - destruct (c x y) eqn:E.
    + constructor; [by constructor|]. constructor; [unfold not_after; by rewrite E|].
      eapply Forall_impl; [exact Hall|]. intros z Hz. simpl in Hz.
      unfold not_after. rewrite (law_eq_cong c laws x y z E). exact Hz.
    + constructor; [by constructor|]. constructor; [unfold not_after; by rewrite E|].
      eapply Forall_impl; [exact Hall|]. intros z Hz. simpl in Hz.
      apply (not_after_trans c laws x y z); [|done]. unfold not_after. by rewrite E.
    + constructor; [exact IH|].
      rewrite (insert_row_perm x l). constructor; [|exact Hall].
      unfold not_after. by rewrite (law_gt_lt c laws x y E).
Qed.

Lemma sort_perm (l : list A) : fold_right (insert_row c) [] l ≡ₚ l.
Proof.
  induction l as [|x l IH]; simpl; [done|].
  by rewrite insert_row_perm, IH.
Qed.

Lemma sort_sorted (l : list A) :
  StronglySorted (not_after c) (fold_right (insert_row c) [] l).
Proof.
  induction l as [|x l IH]; simpl; [constructor|]. by apply insert_row_sorted.
Qed.

(** Two sorted arrangements of the same rows are equal when rows that tie
    are the same row. *)
Lemma sorted_perm_unique (l1 : list A) : ∀ l2,
  (∀ x y, x ∈ l1 → y ∈ l1 → c x y = Eq → x = y) →
  StronglySorted (not_after c) l1 → StronglySorted (not_after c) l2 →
  l1 ≡ₚ l2 → l1 = l2.
Proof.
  induction l1 as [|x l1 IH]; intros l2 Htie Hs1 Hs2 Hp.
  - by apply Permutation_nil_l in Hp.
  - destruct l2 as [|y l2]; [by apply Permutation_nil_r in Hp|].
    apply StronglySorted_inv in Hs1 as [Hs1 Hx].
    apply StronglySorted_inv in Hs2 as [Hs2 Hy].
    rewrite Forall_forall in Hx, Hy.
    assert (Hxy : x = y).
    { assert (Hyin : y ∈ x :: l1) by (rewrite Hp; apply list_elem_of_here).
      assert (Hxin : x ∈ y :: l2) by (rewrite <- Hp; apply list_elem_of_here).
      apply elem_of_cons in Hyin as [->|Hyin]; [done|].
      apply elem_of_cons in Hxin as [->|Hxin]; [done|].
      apply Htie; [apply list_elem_of_here|by apply list_elem_of_further|].
      apply (not_after_both c laws); [by apply Hx|by apply Hy]. }
    subst y. f_equal.
    apply IH; [|done|done|by apply (inj (cons x))].
    intros a b Ha Hb. apply Htie; by apply list_elem_of_further.
Qed.

End InsertionSort.

(** The result of [order_by] is a rearrangement of the rows in which no
    row comes after a later one. *)
Lemma order_by_sorted_perm {A} (ts : list (term A)) (rows : list A) :
  order_by ts rows ≡ₚ rows
  ∧ StronglySorted (not_after (compare_terms ts)) (order_by ts rows).
Proof.
  split; [apply sort_perm|apply sort_sorted, laws_terms].
Qed.

(** When the terms break every tie among the rows, the result does not
    depend on the order the table holds them in. *)
Lemma order_by_deterministic {A} (ts : list (term A)) (rows1 rows2 : list A) :
  rows1 ≡ₚ rows2 →
  (∀ x y, x ∈ rows1 → y ∈ rows1 → compare_terms ts x y = Eq → x = y) →
  order_by ts rows1 = order_by ts rows2.
Proof.
  intros Hp Htie.
  destruct (order_by_sorted_perm ts rows1) as [Hp1 Hs1].
  destruct (order_by_sorted_perm ts rows2) as [Hp2 Hs2].
  apply (sorted_perm_unique (compare_terms ts) (laws_terms ts)); [|done|done|].
  - intros x y Hx Hy. rewrite Hp1 in Hx, Hy. by apply Htie.
  - by rewrite Hp1, Hp2.
Qed.
(** ** The sorts that end with the natural key are deterministic *)

(** For every allowed key but [domain] (companies) and [email] (leads),
    the ordered rows are the same whatever order the table holds them in,
    the natural keys being unique. *)
Theorem tie_broken_sorts_deterministic
    (db : DB) (cs : list Company) (ls : list Lead) (request : HttpRequest) (key : string) :
  lower (strip (or_empty (get (GET request) "sort"))) = key →
  NoDup (map domain (companies db)) →
  NoDup (map email (leads db)) →
  companies db ≡ₚ cs →
  leads db ≡ₚ ls →
  (key ∈ Companies.allowed_sort_keys → key ≠ "domain" →
     Companies.ordered (set_companies db cs) request = Companies.ordered db request)
  ∧ (key ∈ Leads.allowed_sort_keys → key ≠ "email" →
       Leads.ordered (set_leads db ls) request = Leads.ordered db request).
Proof.
  intros Hkey Hndc Hndl Hpc Hpl. split.
  - intros Hin Hne.
    assert (Hk : Companies.checked_sort_key request = key).
    { unfold Companies.checked_sort_key. rewrite Hkey.
      unfold py_in. by rewrite bool_decide_eq_true_2. }
    unfold Companies.ordered. rewrite Hk.
    rewrite (allowed_company_key_nonempty key Hin).
    rewrite !company_sorted_fixed by done.
    change (Spec.company_order (set_companies db cs) key) with (Spec.company_order db key).
    symmetry. apply order_by_deterministic.
    + unfold Companies.filtered. simpl.
      destruct (nonempty _); [by apply filter_perm|done].
    + intros x y Hx Hy Htie.
      apply (NoDup_key_inj domain (companies db)); [done| | |].
      * unfold Companies.filtered in Hx. destruct (nonempty _) in Hx; [|done].
        by apply elem_of_filter_list in Hx.
      * unfold Companies.filtered in Hy. destruct (nonempty _) in Hy; [|done].
        by apply elem_of_filter_list in Hy.
      * by apply (company_order_tie db key x y Hin Hne).
  - intros Hin Hne.
    assert (Hk : Leads.checked_sort_key request = key).
    { unfold Leads.checked_sort_key. rewrite Hkey.
      unfold py_in. by rewrite bool_decide_eq_true_2. }
    unfold Leads.ordered. rewrite Hk.
    rewrite (allowed_lead_key_nonempty key Hin).
    rewrite !lead_sorted_fixed by done.
    change (Spec.lead_order (set_leads db ls) key) with (Spec.lead_order db key).
    symmetry. apply order_by_deterministic.
    + unfold Leads.filtered. cbv zeta.
      change (Models.leads (set_leads db ls)) with ls.
      change (Leads.matches_search (set_leads db ls)) with (Leads.matches_search db).
      change (Leads.company__domain (set_leads db ls)) with (Leads.company__domain db).
      destruct (nonempty (strip (get_or (GET request) "search" "")));
        destruct (nonempty (strip (get_or (GET request) "company" "")));
        repeat apply filter_perm; done.
    + intros x y Hx Hy Htie.
      apply (NoDup_key_inj email (leads db)); [done| | |].
      * unfold Leads.filtered in Hx. cbv zeta in Hx.
        destruct (nonempty (strip (get_or (GET request) "search" ""))) in Hx;
          destruct (nonempty (strip (get_or (GET request) "company" ""))) in Hx;
          repeat apply elem_of_filter_list in Hx; done.
      * unfold Leads.filtered in Hy. cbv zeta in Hy.
        destruct (nonempty (strip (get_or (GET request) "search" ""))) in Hy;
          destruct (nonempty (strip (get_or (GET request) "company" ""))) in Hy;
          repeat apply elem_of_filter_list in Hy; done.
      * by apply (lead_order_tie db key x y Hin Hne).
Qed.

(** ** The sorts on the natural key itself *)

Lemma lead_email_order_tie (db : DB) (x y : Lead) :
  Spec.lead_order db "email" = [asc_ (λ l, Lower (PyStr (email l)))]
  ∧ (compare_terms (Spec.lead_order db "email") x y = Eq
     ↔ lower (email x) = lower (email y)).
Proof.
  split; [reflexivity|].
  change (Spec.lead_order db "email") with [asc_ (λ l : Lead, Lower (PyStr (email l)))].
  simpl. unfold compare_term; simpl.
  split.
  - intros H.
    destruct (String.compare (lower (email x)) (lower (email y))) eqn:E; [|done|done].
    by apply String.compare_eq_iff.
  - intros ->. by rewrite string_compare_refl.
Qed.

(** C4, the failing input. The [domain] sort of the company list and the
    [email] sort of the lead list order by the lower-cased key and by
    nothing else: no natural key is appended, and two rows tie under the
    whole ordering exactly when their keys agree up to letter case.  So
    the ordering leaves the places of two distinct rows such as
    [Acme.io] and [acme.io], or [Bob@x.io] and [bob@x.io], open.  For the
    lead list, whose query (no search being made) yields the rows as the
    table holds them, the two leads come back in either order for the
    same record set.  (Every other key appends the natural key; see
    [company_order_tie] and [lead_order_tie].) *)
Theorem natural_key_sort_leaves_ties :
  let by_email := Sample.get_request [("sort", "email")] in
  let domain_terms := [asc_ (λ c : Company, Lower (PyStr (domain c)))] in
  let email_terms := [asc_ (λ l : Lead, Lower (PyStr (email l)))] in
  ((∀ db rows,
      Companies.sorted db "domain" (Companies._default_dir_for "domain") rows
      = order_by domain_terms rows)
   ∧ (∀ x y, compare_terms domain_terms x y = Eq ↔ lower (domain x) = lower (domain y))
   ∧ Sample.Acme_io ≠ Sample.acme_io
   ∧ compare_terms domain_terms Sample.Acme_io Sample.acme_io = Eq)
  ∧ ((∀ db rows,
        Leads.sorted db "email" (Leads._default_dir_for "email") rows
        = order_by email_terms rows)
     ∧ (∀ x y, compare_terms email_terms x y = Eq ↔ lower (email x) = lower (email y))
     ∧ Sample.Bob ≠ Sample.bob_
     ∧ compare_terms email_terms Sample.Bob Sample.bob_ = Eq
     ∧ map email (object_list (Leads.page_obj
         (Leads.lead_list (Sample.db_of [] [Sample.Bob; Sample.bob_]) by_email)))
       = ["Bob@x.io"; "bob@x.io"]
     ∧ map email (object_list (Leads.page_obj
         (Leads.lead_list (Sample.db_of [] [Sample.bob_; Sample.Bob]) by_email)))
       = ["bob@x.io"; "Bob@x.io"]).
Proof.
  cbv zeta. split; split_and!.
  - reflexivity.
  - intros x y. apply (company_domain_order_tie (Sample.db_of [] []) x y).
  - by intros [=].
  - vm_compute. reflexivity.
  - reflexivity.
  - intros x y. apply (lead_email_order_tie (Sample.db_of [] []) x y).
  - by intros [=].
  - vm_compute. reflexivity.
  - vm_compute. reflexivity.
  - vm_compute. reflexivity.
Qed.

(** The same two companies under the [name] sort: the names tie (both
    fall back to the lower-cased domain) and the domain decides, whatever
    the order of the table. *)
Example name_sort_breaks_ties :
  let by_name := Sample.get_request [("sort", "name")] in
  map domain (object_list (Companies.page_obj
    (Companies.company_list (Sample.db_of [Sample.Acme_io; Sample.acme_io] []) by_name)))
  = ["Acme.io"; "acme.io"]
  ∧ map domain (object_list (Companies.page_obj
      (Companies.company_list (Sample.db_of [Sample.acme_io; Sample.Acme_io] []) by_name)))
    = ["Acme.io"; "acme.io"].
Proof. vm_compute. repeat split. Qed.
(** ** The paginator *)

Section PaginatorFacts.
Context {A : Type}.
Variable objects : list A.

Lemma num_pages_10_pos : 1 ≤ num_pages objects 10.
Proof.
  unfold num_pages, count.
  apply Z.div_le_lower_bound; lia.
Qed.

Lemma page_object_list (n : Z) :
  1 ≤ n →
  object_list (page objects 10 n) =
    firstn 10 (skipn (Z.to_nat (10 * (n - 1))) objects).
Proof.
  intros Hn. unfold page, count; simpl.
  replace ((n - 1) * 10) with (10 * (n - 1)) by lia.
  set (bottom := 10 * (n - 1)).
  destruct (Z.leb_spec (Z.of_nat (length objects)) (bottom + 10)) as [Hle|Hgt].
  - rewrite !firstn_all2; [done| |]; rewrite length_skipn; lia.
  - f_equal. lia.
Qed.

Lemma page_length (n : Z) :
  1 ≤ n → (length (object_list (page objects 10 n)) ≤ 10)%nat.
Proof. intros Hn. rewrite page_object_list by done. apply firstn_le_length. Qed.

(** The number [get_page] settles on: the requested one when it is in
    range, the last page when it is an integer out of range (below 1 or
    above the last page), page 1 when it is not an integer. *)
Lemma get_page_number (page_number : string) :
  let p := get_page objects 10 (page_or_1 page_number) in
  let last := num_pages objects 10 in
  number p =
    match Py.int page_number with
    | Some n => if (1 <=? n) && (n <=? last) then n else last
    | None => 1
    end
  ∧ 1 ≤ number p ≤ last
  ∧ page_num_pages p = last.
Proof.
  pose proof num_pages_10_pos as Hpos.
  unfold get_page, validate_number, page_or_1.
  destruct (String.eqb_spec page_number "") as [->|Hne].
  - change (Py.int "") with (@None Z). cbv zeta.
    destruct (Z.ltb_spec 1 1); [lia|].
    destruct (Z.ltb_spec (num_pages objects 10) 1); [lia|].
    simpl. lia.
  - cbv zeta. destruct (Py.int page_number) as [n|]; [|simpl; lia].
    destruct (Z.ltb_spec n 1) as [Hlt|Hge].
    + destruct (Z.leb_spec 1 n); [lia|]. simpl. lia.
    + destruct (Z.leb_spec 1 n); [|lia].
      destruct (Z.ltb_spec (num_pages objects 10) n);
        destruct (Z.leb_spec n (num_pages objects 10)); try lia; simpl; lia.
Qed.

Lemma get_page_object_list (page_number : string) :
  let p := get_page objects 10 (page_or_1 page_number) in
  object_list p = firstn 10 (skipn (Z.to_nat (10 * (number p - 1))) objects)
  ∧ (length (object_list p) ≤ 10)%nat.
Proof.
  pose proof num_pages_10_pos as Hpos.
  assert (Hpage : ∀ n, 1 ≤ n →
            object_list (page objects 10 n) =
              firstn 10 (skipn (Z.to_nat (10 * (number (page objects 10 n) - 1))) objects)
            ∧ (length (object_list (page objects 10 n)) ≤ 10)%nat).
  { intros n Hn. split; [by apply page_object_list|by apply page_length]. }
  cbv zeta. unfold get_page.
  destruct (validate_number objects 10 (page_or_1 page_number)) as [[]|n] eqn:E;
    try (apply Hpage; lia).
  apply Hpage. unfold validate_number in E.
  destruct (match page_or_1 page_number with
            | PyNone => None | PyBool b => Some (if b then 1 else 0)
            | PyInt z => Some z | PyStr s => Py.int s end) as [z|]; [|done].
  destruct (Z.ltb_spec z 1); [done|].
  destruct (num_pages objects 10 <? z); [done|].
  injection E as <-. lia.
Qed.

End PaginatorFacts.
(** C5 (as amended). Both list views hand their ordered rows to a
    paginator of page size 10 and never fail on the [page] parameter: a
    number within range gives that page; a number beyond the last page,
    zero or a negative number gives the last page; a parameter that is
    absent or not an integer gives the first page.  The page holds the
    (at most ten) rows at its position. *)
Theorem pagination_clamps (db : DB) (request : HttpRequest) :
  let page_number := strip (or_empty (get (GET request) "page")) in
  let clamp (last : Z) : Z :=
    match Py.int page_number with
    | Some n => if (1 <=? n) && (n <=? last) then n else last
    | None => 1
    end in
  (let rows := Companies.ordered db request in
   let p := Companies.page_obj (Companies.company_list db request) in
   number p = clamp (num_pages rows 10)
   ∧ 1 ≤ number p ≤ num_pages rows 10
   ∧ object_list p = firstn 10 (skipn (Z.to_nat (10 * (number p - 1))) rows)
   ∧ (length (object_list p) ≤ 10)%nat)
  ∧ (let rows := Leads.ordered db request in
     let p := Leads.page_obj (Leads.lead_list db request) in
     number p = clamp (num_pages rows 10)
     ∧ 1 ≤ number p ≤ num_pages rows 10
     ∧ object_list p = firstn 10 (skipn (Z.to_nat (10 * (number p - 1))) rows)
     ∧ (length (object_list p) ≤ 10)%nat).
Proof.
  cbv zeta. split.
  - rewrite company_list_page.
    destruct (get_page_number (Companies.ordered db request)
                (strip (or_empty (get (GET request) "page")))) as (Hn & Hr & _).
    destruct (get_page_object_list (Companies.ordered db request)
                (strip (or_empty (get (GET request) "page")))) as (Ho & Hl).
    done.
  - rewrite lead_list_page.
    change (get_or (GET request) "page" "") with (or_empty (get (GET request) "page")).
    destruct (get_page_number (Leads.ordered db request)
                (strip (or_empty (get (GET request) "page")))) as (Hn & Hr & _).
    destruct (get_page_object_list (Leads.ordered db request)
                (strip (or_empty (get (GET request) "page")))) as (Ho & Hl).
    done.
Qed.

(** C5, counterexample. With 11 companies (two pages) and 25 leads
    (three pages), page 0 and page -3 are answered with the last page,
    not the first: its number is 2 (resp. 3) and it holds the last
    row(s). *)
Lemma page_zero_or_negative_gives_last_page :
  let cdb := Sample.db_of (Sample.many_companies 11) [] in
  let ldb := Sample.db_of [] (Sample.many_leads 25) in
  let zero := Sample.get_request [("page", "0")] in
  let minus := Sample.get_request [("page", "-3")] in
  (number (Companies.page_obj (Companies.company_list cdb zero)) = 2
   ∧ number (Companies.page_obj (Companies.company_list cdb minus)) = 2
   ∧ length (object_list (Companies.page_obj (Companies.company_list cdb zero))) = 1%nat
   ∧ Companies.page_obj (Companies.company_list cdb zero)
     ≠ Companies.page_obj (Companies.company_list cdb (Sample.get_request [("page", "1")])))
  ∧ (number (Leads.page_obj (Leads.lead_list ldb zero)) = 3
     ∧ number (Leads.page_obj (Leads.lead_list ldb minus)) = 3
     ∧ map email (object_list (Leads.page_obj (Leads.lead_list ldb zero)))
       = ["21@x.io"; "22@x.io"; "23@x.io"; "24@x.io"; "25@x.io"]
     ∧ Leads.page_obj (Leads.lead_list ldb zero)
       ≠ Leads.page_obj (Leads.lead_list ldb (Sample.get_request [("page", "1")]))).
Proof.
  cbv zeta. split.
  - split; [by vm_compute|]. split; [by vm_compute|]. split; [by vm_compute|].
    intros H. apply (f_equal number) in H. vm_compute in H. discriminate.
  - split; [by vm_compute|]. split; [by vm_compute|]. split; [by vm_compute|].
    intros H. apply (f_equal number) in H. vm_compute in H. discriminate.
Qed.

(** Pages of the 25 sample leads: beyond the last page, in range, not a
    number, absent. *)
Example lead_pages :
  let ldb := Sample.db_of [] (Sample.many_leads 25) in
  let at_ (p : string) :=
    Leads.page_obj (Leads.lead_list ldb (Sample.get_request [("page", p)])) in
  number (at_ "99") = 3 ∧ number (at_ "2") = 2 ∧ number (at_ "two") = 1
  ∧ number (at_ "") = 1
  ∧ number (Leads.page_obj (Leads.lead_list ldb (Sample.get_request []))) = 1
  ∧ map (λ p, length (object_list (at_ p))) ["1"; "2"; "3"] = [10; 10; 5]%nat.
Proof. vm_compute. repeat split. Qed.
(** ** [strip] is idempotent *)

Lemma rstrip_rstrip (s : string) : rstrip (rstrip s) = rstrip s.
Proof.
  induction s as [|a s IH]; simpl; [done|].
  destruct (rstrip s) as [|b r] eqn:E.
  - destruct (is_space a) eqn:Ea; simpl; [done|]. by rewrite Ea.
  - simpl in IH |- *. by rewrite IH.
Qed.

Lemma lstrip_head (s : string) :
  lstrip s = "" ∨ ∃ a r, lstrip s = String a r ∧ is_space a = false.
Proof.
  induction s as [|a s IH]; simpl; [by left|].
  destruct (is_space a) eqn:Ea; [exact IH|]. right. by exists a, s.
Qed.

Lemma rstrip_head (a : ascii) (r : string) :
  is_space a = false → ∃ r', rstrip (String a r) = String a r'.
Proof.
  intros Ea. simpl. destruct (rstrip r) as [|b r'].
  - rewrite Ea. by exists "".
  - by exists (String b r').
Qed.

Lemma strip_strip (s : string) : strip (strip s) = strip s.
Proof.
  unfold strip.
  destruct (lstrip_head s) as [->|(a & r & -> & Ea)]; [done|].
  destruct (rstrip_head a r Ea) as [r' Hr]. rewrite Hr.
  cbn [lstrip]. rewrite Ea, <- Hr. apply rstrip_rstrip.
Qed.

(** ** [get_or_create] and [tags.add] *)

Lemma find_app_None {A} (p : A → bool) (l : list A) (x : A) :
  List.find p l = None → p x = true → List.find p (l ++ [x]) = Some x.
Proof.
  induction l as [|a l IH]; simpl; intros Hnone Hx.
  - by rewrite Hx.
  - destruct (p a); [done|]. by apply IH.
Qed.

Lemma get_or_create_spec (n : string) (db : DB) :
  let r := get_or_create n db in
  name (fst r) = n
  ∧ List.find (λ t, String.eqb (name t) n) (tags (snd r)) = Some (fst r)
  ∧ (tags (snd r) = tags db
     ∨ (List.find (λ t, String.eqb (name t) n) (tags db) = None
        ∧ tags (snd r) = (tags db ++ [fst r])%list))
  ∧ companies (snd r) = companies db
  ∧ leads (snd r) = leads db
  ∧ lead_tags (snd r) = lead_tags db.
Proof.
  unfold get_or_create.
  destruct (List.find _ (tags db)) as [t|] eqn:E; simpl.
  - apply find_some in E as E'. destruct E' as [_ E'].
    apply String.eqb_eq in E'. repeat split; try done. by left.
  - repeat split; try done.
    + apply find_app_None; [done|]. simpl. apply String.eqb_refl.
    + by right.
Qed.

(** Once the tag exists, [get_or_create] returns it and writes nothing. *)
Lemma get_or_create_found (n : string) (db : DB) (t : LeadTag) :
  List.find (λ t, String.eqb (name t) n) (tags db) = Some t →
  get_or_create n db = (t, db).
Proof. intros H. unfold get_or_create. by rewrite H. Qed.

Section ApplyTag.
Variable tag : LeadTag.

#[local] Abbreviation row l := (lead_pk l, tag_id tag).

Lemma apply_tag_loop (ls : list Lead) : ∀ (db : DB) (k : nat),
  let r := fold_left (Leads.apply_tag tag) ls (db, k) in
  snd r = (k + length ls)%nat
  ∧ companies (fst r) = companies db
  ∧ leads (fst r) = leads db
  ∧ tags (fst r) = tags db
  ∧ (∀ x, x ∈ lead_tags db → x ∈ lead_tags (fst r))
  ∧ (∀ l, l ∈ ls → row l ∈ lead_tags (fst r))
  ∧ (∀ x, x ∈ lead_tags (fst r) → x ∈ lead_tags db ∨ ∃ l, l ∈ ls ∧ x = row l)
  ∧ (NoDup (lead_tags db) → NoDup (lead_tags (fst r)))
  ∧ ((∀ l, l ∈ ls → row l ∈ lead_tags db) → fst r = db).
Proof.
  induction ls as [|l ls IH]; intros db k; simpl.
  - split_and!;
      [lia|done|done|done|done
      |intros l Hl; by apply elem_of_nil in Hl
      |intros x Hx; by left
      |done|done].
  - destruct (IH (tags_add l tag db) (S k)) as (Hk & Hc & Hl & Ht & Hold & Hnew & Hsub & Hnd & Hid).
    change (Leads.apply_tag tag (db, k) l) with (tags_add l tag db, S k).
    assert (Hadd : companies (tags_add l tag db) = companies db
                   ∧ leads (tags_add l tag db) = leads db
                   ∧ tags (tags_add l tag db) = tags db
                   ∧ (∀ x, x ∈ lead_tags (tags_add l tag db) ↔ x ∈ lead_tags db ∨ x = row l)
                   ∧ (NoDup (lead_tags db) → NoDup (lead_tags (tags_add l tag db)))
                   ∧ (row l ∈ lead_tags db → tags_add l tag db = db)).
    { unfold tags_add. case_bool_decide as Hin; simpl.
      - split_and!; [done|done|done| |done|done].
        intros x. split; [by left|]. by intros [?| ->].
      - split_and!; [done|done|done| | |done].
        + intros x. by rewrite elem_of_app, list_elem_of_singleton.
        + intros Hn. apply NoDup_app. split_and!; [done| |apply NoDup_singleton].
          intros x Hx Hx'. apply list_elem_of_singleton in Hx'. by subst. }
    destruct Hadd as (Hc' & Hl' & Ht' & Hrows & Hnd' & Hid').
    split_and!.
    + rewrite Hk. lia.
    + by rewrite Hc.
    + by rewrite Hl.
    + by rewrite Ht.
    + intros x Hx. apply Hold, Hrows. by left.
    + intros l' Hl0. apply elem_of_cons in Hl0 as [->|Hl0].
      * apply Hold, Hrows. by right.
      * by apply Hnew.
    + intros x Hx. apply Hsub in Hx as [Hx|(l' & Hl0 & ->)].
      * apply Hrows in Hx as [Hx| ->]; [by left|].
        right. exists l. split; [apply list_elem_of_here|done].
      * right. exists l'. split; [by apply list_elem_of_further|done].
    + intros Hn. by apply Hnd, Hnd'.
    + intros Hall.
      rewrite Hid.
      * apply Hid', Hall, list_elem_of_here.
      * intros l' Hl0. apply Hrows. left. apply Hall. by apply list_elem_of_further.
Qed.

End ApplyTag.

Lemma filter_absent {A} `{EqDecision A} (x : A) (l : list A) :
  x ∉ l → List.filter (λ y, bool_decide (y = x)) l = [].
Proof.
  induction l as [|a l IH]; simpl; intros Hx; [done|].
  rewrite not_elem_of_cons in Hx. destruct Hx as [Hne Hx].
  rewrite bool_decide_eq_false_2 by congruence. by apply IH.
Qed.

(** In a list without duplicates a member occurs once. *)
Lemma NoDup_count_one {A} `{EqDecision A} (x : A) (l : list A) :
  NoDup l → x ∈ l → length (List.filter (λ y, bool_decide (y = x)) l) = 1%nat.
Proof.
  induction 1 as [|a l Hnotin Hnd IH]; intros Hin.
  - by apply elem_of_nil in Hin.
  - simpl. apply elem_of_cons in Hin as [->|Hin].
    + rewrite bool_decide_eq_true_2 by done. simpl.
      by rewrite filter_absent.
    + rewrite bool_decide_eq_false_2; [by apply IH|].
      intros ->. done.
Qed.
(** ** [bulk_apply_tag] *)

(** The view past its three guards. *)
Lemma bulk_apply_tag_applies (db : DB) (request : HttpRequest) (raw : string) :
  method request = "POST" →
  getlist (POST request) "selected_leads" ≠ [] →
  get (POST request) "tag_name" = Some raw →
  strip raw ≠ "" →
  let created := get_or_create (lower (strip raw)) db in
  let selected :=
    List.filter (λ l, py_in (lead_pk l) (getlist (POST request) "selected_leads"))
                (leads db) in
  let applied := fold_left (Leads.apply_tag (fst created)) selected (snd created, 0%nat) in
  Leads.bulk_apply_tag db request =
    {| run_db := fst applied; run_calls := [];
       run_result := Redirect "leads:lead_list"
         [(SUCCESS, "Applied tag " +:+ dquote +:+ name (fst created) +:+ dquote +:+ " to "
                    +:+ pretty (snd applied) +:+ " lead(s).")] |}.
Proof.
  intros Hm Hsel Hraw Hne. cbv zeta.
  unfold Leads.bulk_apply_tag. rewrite Hm, Hraw.
  change (negb (String.eqb "POST" "POST")) with false.
  change (or_empty (Some raw)) with raw. cbv iota.
  destruct (getlist (POST request) "selected_leads") as [|i ids] eqn:Eids; [done|].
  assert (Hn : nonempty (strip raw) = true).
  { unfold nonempty. apply negb_true_iff. by apply String.eqb_neq. }
  rewrite Hn. cbn [negb]. rewrite strip_strip.
  destruct (get_or_create_spec (lower (strip raw)) db) as (_ & _ & _ & _ & Hl & _).
  destruct (get_or_create (lower (strip raw)) db) as [tag db1]. simpl in Hl.
  rewrite Hl. simpl fst. simpl snd.
  by destruct (fold_left (Leads.apply_tag tag) _ (db1, 0%nat)).
Qed.
(** C6. For a POST with a non-empty selection and a tag name that is not
    blank, [bulk_apply_tag] uses the tag whose name is the trimmed,
    lower-cased input (the existing one, or a new row when there is
    none), attaches it to every lead whose key is selected, and reports
    how many it went through.  Doing it again changes nothing: the
    database and the message are the same, and each of those leads has
    the tag exactly once (the join table having no duplicate row to start
    with). *)
Theorem bulk_apply_tag_idempotent (db : DB) (request : HttpRequest) (raw : string) :
  method request = "POST" →
  getlist (POST request) "selected_leads" ≠ [] →
  get (POST request) "tag_name" = Some raw →
  strip raw ≠ "" →
  NoDup (lead_tags db) →
  let ids := getlist (POST request) "selected_leads" in
  let run := Leads.bulk_apply_tag db request in
  let again := Leads.bulk_apply_tag (run_db run) request in
  ∃ tag : LeadTag,
    name tag = lower (strip raw)
    ∧ List.find (λ t, String.eqb (name t) (lower (strip raw))) (tags (run_db run))
      = Some tag
    ∧ (tags (run_db run) = tags db
       ∨ (List.find (λ t, String.eqb (name t) (lower (strip raw))) (tags db) = None
          ∧ tags (run_db run) = (tags db ++ [tag])%list))
    ∧ leads (run_db run) = leads db
    ∧ companies (run_db run) = companies db
    ∧ (∀ l, l ∈ leads db → lead_pk l ∈ ids →
         (lead_pk l, tag_id tag) ∈ lead_tags (run_db run))
    ∧ run_result run =
        Redirect "leads:lead_list"
          [(SUCCESS, "Applied tag " +:+ dquote +:+ lower (strip raw) +:+ dquote +:+ " to "
                     +:+ pretty (length (List.filter (λ l, py_in (lead_pk l) ids) (leads db)))
                     +:+ " lead(s).")]
    ∧ run_db again = run_db run
    ∧ run_result again = run_result run
    ∧ (∀ l, l ∈ leads db → lead_pk l ∈ ids →
         length (List.filter (λ r, bool_decide (r = (lead_pk l, tag_id tag)))
                             (lead_tags (run_db again))) = 1%nat).
Proof.
  intros Hm Hsel Hraw Hne Hnd ids run again. subst again run.
  rewrite (bulk_apply_tag_applies db request raw Hm Hsel Hraw Hne). cbv zeta.
  cbn [run_db run_result].
  destruct (get_or_create_spec (lower (strip raw)) db)
    as (Hname & Hfind & Htags & Hcomp & Hleads & Hjoin).
  destruct (get_or_create (lower (strip raw)) db) as [tag db1] eqn:Ecreate.
  cbn [fst snd] in *.
  set (selected := List.filter (λ l, py_in (lead_pk l) (getlist (POST request) "selected_leads"))
                     (leads db)).
  destruct (apply_tag_loop tag selected db1 0)
    as (Hk & Hc & Hl & Ht & Hold & Hnew & Hsub & Hnodup & Hid).
  set (applied := fold_left (Leads.apply_tag tag) selected (db1, 0%nat)) in *.
  assert (Hattached : ∀ l, l ∈ leads db → lead_pk l ∈ ids →
            (lead_pk l, tag_id tag) ∈ lead_tags (fst applied)).
  { intros l Hin Hpk. apply Hnew. unfold selected.
    apply list_elem_of_In, filter_In. split; [by apply list_elem_of_In|].
    unfold py_in. by apply bool_decide_eq_true_2. }
  (* the second application *)
  assert (Hagain : Leads.bulk_apply_tag (fst applied) request =
            {| run_db := fst applied; run_calls := [];
               run_result := Redirect "leads:lead_list"
                 [(SUCCESS, "Applied tag " +:+ dquote +:+ name tag +:+ dquote +:+ " to "
                            +:+ pretty (snd applied) +:+ " lead(s).")] |}).
  { rewrite (bulk_apply_tag_applies (fst applied) request raw Hm Hsel Hraw Hne). cbv zeta.
    rewrite (get_or_create_found _ _ tag) by (by rewrite Ht).
    cbn [fst snd]. rewrite Hl, Hleads. fold selected.
    destruct (apply_tag_loop tag selected (fst applied) 0)
      as (Hk2 & _ & _ & _ & _ & _ & _ & _ & Hid2).
    rewrite Hid2 by (intros l Hl0; by apply Hnew).
    by rewrite Hk2, Hk. }
  exists tag. split_and!.
  - exact Hname.
  - by rewrite Ht.
  - by rewrite Ht.
  - by rewrite Hl.
  - by rewrite Hc.
  - exact Hattached.
  - by rewrite Hname, Hk.
  - by rewrite Hagain.
  - by rewrite Hagain.
  - intros l Hin Hpk. rewrite Hagain. cbn [run_db].
    apply NoDup_count_one; [|by apply Hattached].
    apply Hnodup. by rewrite Hjoin.
Qed.
(** C6 on two selected sample leads and the tag name [  VIP  ]. *)
Lemma bulk_apply_tag_idempotent_witness :
  let request := Sample.post_request
    [("selected_leads", "ann@acme.io"); ("tag_name", "  VIP  ");
     ("selected_leads", "cyd@core.io")] in
  method request = "POST"
  ∧ getlist (POST request) "selected_leads" ≠ []
  ∧ get (POST request) "tag_name" = Some "  VIP  "
  ∧ strip "  VIP  " ≠ ""
  ∧ NoDup (lead_tags Sample.db3)
  ∧ ∃ tag : LeadTag,
      name tag = "vip"
      ∧ run_db (Leads.bulk_apply_tag (run_db (Leads.bulk_apply_tag Sample.db3 request)) request)
        = run_db (Leads.bulk_apply_tag Sample.db3 request).
Proof.
  cbv zeta.
  assert (H1 : method (Sample.post_request
            [("selected_leads", "ann@acme.io"); ("tag_name", "  VIP  ");
             ("selected_leads", "cyd@core.io")]) = "POST") by reflexivity.
  assert (H2 : getlist (POST (Sample.post_request
            [("selected_leads", "ann@acme.io"); ("tag_name", "  VIP  ");
             ("selected_leads", "cyd@core.io")])) "selected_leads" ≠ [])
    by (vm_compute; discriminate).
  assert (H3 : get (POST (Sample.post_request
            [("selected_leads", "ann@acme.io"); ("tag_name", "  VIP  ");
             ("selected_leads", "cyd@core.io")])) "tag_name" = Some "  VIP  ")
    by (vm_compute; reflexivity).
  assert (H4 : strip "  VIP  " ≠ "") by (vm_compute; discriminate).
  assert (H5 : NoDup (lead_tags Sample.db3)) by (vm_compute; constructor).
  destruct (bulk_apply_tag_idempotent Sample.db3 _ "  VIP  " H1 H2 H3 H4 H5)
    as (tag & Hname & _ & _ & _ & _ & _ & _ & Hsame & _).
  split_and!; [exact H1|exact H2|exact H3|exact H4|exact H5|].
  exists tag. split; [exact Hname|exact Hsame].
Defined.

(** The example of the specification: ["  VIP  "] on two selected leads,
    applied twice. *)
Example bulk_apply_vip_twice :
  let request := Sample.post_request
    [("selected_leads", "ann@acme.io"); ("tag_name", "  VIP  ");
     ("selected_leads", "cyd@core.io")] in
  let run := Leads.bulk_apply_tag Sample.db3 request in
  let again := Leads.bulk_apply_tag (run_db run) request in
  tags (run_db again) = [{| tag_id := 1; name := "vip" |}]
  ∧ lead_tags (run_db again) = [("ann@acme.io", 1); ("cyd@core.io", 1)]
  ∧ run_result again =
      Redirect "leads:lead_list"
        [(SUCCESS, "Applied tag " +:+ dquote +:+ "vip" +:+ dquote +:+ " to 2 lead(s).")].
Proof. vm_compute. repeat split. Qed.

Lemma filter_all_false {A} (p : A → bool) (l : list A) :
  (∀ x, x ∈ l → p x = false) → List.filter p l = [].
Proof.
  induction l as [|a l IH]; simpl; intros Hp; [done|].
  rewrite Hp by apply list_elem_of_here.
  apply IH. intros x Hx. apply Hp. by apply list_elem_of_further.
Qed.

(** C10. The count that [bulk_apply_tag] reports is the number of leads
    whose key is among the selected identifiers, not the number of
    identifiers: an identifier without a lead adds nothing and raises
    nothing, and when no identifier has a lead the view still answers
    with the success message, for 0 leads, and attaches nothing. *)
Theorem bulk_apply_tag_counts_matching_leads
    (db : DB) (request : HttpRequest) (raw : string) :
  method request = "POST" →
  getlist (POST request) "selected_leads" ≠ [] →
  get (POST request) "tag_name" = Some raw →
  strip raw ≠ "" →
  let ids := getlist (POST request) "selected_leads" in
  let matching := List.filter (λ l, py_in (lead_pk l) ids) (leads db) in
  let run := Leads.bulk_apply_tag db request in
  run_result run =
    Redirect "leads:lead_list"
      [(SUCCESS, "Applied tag " +:+ dquote +:+ lower (strip raw) +:+ dquote +:+ " to "
                 +:+ pretty (length matching) +:+ " lead(s).")]
  ∧ (length matching ≤ length (leads db))%nat
  ∧ (∀ x, x ∈ lead_tags (run_db run) →
       x ∈ lead_tags db ∨ ∃ l, l ∈ leads db ∧ lead_pk l ∈ ids ∧ fst x = lead_pk l)
  ∧ ((∀ l, l ∈ leads db → lead_pk l ∉ ids) →
       run_result run =
         Redirect "leads:lead_list"
           [(SUCCESS, "Applied tag " +:+ dquote +:+ lower (strip raw) +:+ dquote
                      +:+ " to 0 lead(s).")]
       ∧ lead_tags (run_db run) = lead_tags db
       ∧ leads (run_db run) = leads db).
Proof.
  intros Hm Hsel Hraw Hne ids matching run. subst run.
  rewrite (bulk_apply_tag_applies db request raw Hm Hsel Hraw Hne). cbv zeta.
  cbn [run_db run_result].
  destruct (get_or_create_spec (lower (strip raw)) db)
    as (Hname & _ & _ & _ & Hleads & Hjoin).
  destruct (get_or_create (lower (strip raw)) db) as [tag db1].
  cbn [fst snd] in *. fold ids. fold matching.
  destruct (apply_tag_loop tag matching db1 0) as (Hk & _ & Hl & _ & _ & _ & Hsub & _ & Hid).
  split_and!.
  - by rewrite Hname, Hk.
  - unfold matching. apply List.filter_length_le.
  - intros x Hx. apply Hsub in Hx as [Hx|(l & Hin & ->)]; [left; by rewrite <- Hjoin|].
    right. exists l. unfold matching in Hin.
    apply list_elem_of_In, filter_In in Hin as [Hin Hpk].
    split_and!; [by apply list_elem_of_In| |done].
    unfold py_in in Hpk. by apply bool_decide_eq_true_1 in Hpk.
  - intros Hnone.
    assert (Hempty : matching = []).
    { unfold matching. apply filter_all_false. intros l Hl0.
      unfold py_in. apply bool_decide_eq_false_2. by apply Hnone. }
    revert Hk Hid Hl. rewrite Hempty. cbn [fold_left fst snd length Nat.add].
    intros _ _ _. split_and!; [by rewrite Hname|done|done].
Qed.

(** C10 on three submitted identifiers of which one has a lead. *)
Lemma bulk_apply_tag_counts_matching_leads_witness :
  let request := Sample.post_request
    [("selected_leads", "ghost@x.io"); ("selected_leads", "ann@acme.io");
     ("selected_leads", "ann@acme.io"); ("tag_name", "Key")] in
  method request = "POST"
  ∧ getlist (POST request) "selected_leads" ≠ []
  ∧ get (POST request) "tag_name" = Some "Key"
  ∧ strip "Key" ≠ ""
  ∧ run_result (Leads.bulk_apply_tag Sample.db3 request) =
      Redirect "leads:lead_list"
        [(SUCCESS, "Applied tag " +:+ dquote +:+ lower (strip "Key") +:+ dquote +:+ " to "
                   +:+ pretty (length (List.filter
                         (λ l, py_in (lead_pk l) (getlist (POST request) "selected_leads"))
                         (leads Sample.db3)))
                   +:+ " lead(s).")].
Proof.
  cbv zeta.
  assert (H1 : method (Sample.post_request
    [("selected_leads", "ghost@x.io"); ("selected_leads", "ann@acme.io");
     ("selected_leads", "ann@acme.io"); ("tag_name", "Key")]) = "POST") by reflexivity.
  assert (H2 : getlist (POST (Sample.post_request
    [("selected_leads", "ghost@x.io"); ("selected_leads", "ann@acme.io");
     ("selected_leads", "ann@acme.io"); ("tag_name", "Key")])) "selected_leads" ≠ [])
    by (vm_compute; discriminate).
  assert (H3 : get (POST (Sample.post_request
    [("selected_leads", "ghost@x.io"); ("selected_leads", "ann@acme.io");
     ("selected_leads", "ann@acme.io"); ("tag_name", "Key")])) "tag_name" = Some "Key")
    by (vm_compute; reflexivity).
  assert (H4 : strip "Key" ≠ "") by (vm_compute; discriminate).
  split_and!; [exact H1|exact H2|exact H3|exact H4|].
  exact (proj1 (bulk_apply_tag_counts_matching_leads Sample.db3 _ "Key" H1 H2 H3 H4)).
Defined.

(** Three identifiers submitted, one lead behind them: one lead is
    reported.  One identifier with no lead behind it: success, 0 leads,
    and the tag row is still created. *)
Example bulk_apply_tag_unknown_ids :
  let some := Sample.post_request
    [("selected_leads", "ghost@x.io"); ("selected_leads", "ann@acme.io");
     ("selected_leads", "ann@acme.io"); ("tag_name", "Key")] in
  let none := Sample.post_request
    [("selected_leads", "ghost@x.io"); ("tag_name", "Key")] in
  run_result (Leads.bulk_apply_tag Sample.db3 some) =
    Redirect "leads:lead_list"
      [(SUCCESS, "Applied tag " +:+ dquote +:+ "key" +:+ dquote +:+ " to 1 lead(s).")]
  ∧ lead_tags (run_db (Leads.bulk_apply_tag Sample.db3 some)) = [("ann@acme.io", 1)]
  ∧ run_result (Leads.bulk_apply_tag Sample.db3 none) =
      Redirect "leads:lead_list"
        [(SUCCESS, "Applied tag " +:+ dquote +:+ "key" +:+ dquote +:+ " to 0 lead(s).")]
  ∧ lead_tags (run_db (Leads.bulk_apply_tag Sample.db3 none)) = []
  ∧ tags (run_db (Leads.bulk_apply_tag Sample.db3 none)) = [{| tag_id := 1; name := "key" |}].
Proof. vm_compute. repeat split. Qed.

(** ** The sync loop *)

Section SyncLoop.
Variable sync : Leads.SyncCall → outcome dict.
Variable tag_names_of : Lead → list string.

#[local] Abbreviation call_of := (Spec.sync_call tag_names_of).
#[local] Abbreviation each := (Leads.sync_each sync tag_names_of).

(** While the collaborator returns, the loop goes on: every lead is
    called for, a result with an ['error'] key is one failure and any
    other result one success. *)
Lemma sync_each_returns (ls : list Lead) : ∀ st,
  Forall (λ l, Spec.returns sync (call_of l) = true) ls →
  each ls st =
    ({| Leads.success :=
          (Leads.success st
           + count_true (λ l, negb (Spec.reports_error sync (call_of l))) ls)%nat;
        Leads.failed :=
          (Leads.failed st + count_true (λ l, Spec.reports_error sync (call_of l)) ls)%nat;
        Leads.sync_calls := (Leads.sync_calls st ++ map call_of ls)%list |}, true).
Proof.
  induction ls as [|l ls IH]; intros st Hall.
  - simpl. unfold count_true. simpl. rewrite !Nat.add_0_r, app_nil_r. by destruct st.
  - apply Forall_cons in Hall as [Hl Hall].
    cbn [Leads.sync_each]. fold (call_of l).
    unfold Spec.returns in Hl.
    destruct (sync (call_of l)) as [r|] eqn:Es; [|done].
    assert (He : Spec.reports_error sync (call_of l) = dict_has r "error")
      by (unfold Spec.reports_error; by rewrite Es).
    unfold count_true. cbn [List.filter map]. rewrite He.
    destruct (dict_has r "error"); rewrite IH by done;
      cbn [Leads.success Leads.failed Leads.sync_calls negb length];
      unfold count_true; f_equal; f_equal; try lia; by rewrite <- app_assoc.
Qed.

(** The first exception ends the loop: the leads after it are not called
    for. *)
Lemma sync_each_raises (pre post : list Lead) (l : Lead) : ∀ st,
  Forall (λ l, Spec.returns sync (call_of l) = true) pre →
  sync (call_of l) = Raised →
  snd (each (pre ++ l :: post) st) = false
  ∧ Leads.sync_calls (fst (each (pre ++ l :: post) st)) =
      (Leads.sync_calls st ++ map call_of (pre ++ [l]))%list.
Proof.
  induction pre as [|p pre IH]; intros st Hall Hraise.
  - cbn [app Leads.sync_each]. fold (call_of l). rewrite Hraise. done.
  - apply Forall_cons in Hall as [Hp Hall].
    cbn [app Leads.sync_each]. fold (call_of p).
    unfold Spec.returns in Hp.
    destruct (sync (call_of p)) as [r|]; [|done].
    destruct (dict_has r "error").
    + destruct (IH {| Leads.success := Leads.success st;
                      Leads.failed := S (Leads.failed st);
                      Leads.sync_calls := (Leads.sync_calls st ++ [call_of p])%list |}
                  Hall Hraise) as [Hflag Hcalls].
      rewrite Hflag, Hcalls. cbn [Leads.sync_calls map app].
      by rewrite <- app_assoc.
    + destruct (IH {| Leads.success := S (Leads.success st);
                      Leads.failed := Leads.failed st;
                      Leads.sync_calls := (Leads.sync_calls st ++ [call_of p])%list |}
                  Hall Hraise) as [Hflag Hcalls].
      rewrite Hflag, Hcalls. cbn [Leads.sync_calls map app].
      by rewrite <- app_assoc.
Qed.

Lemma count_true_split {A} (p : A → bool) (l : list A) :
  (count_true (λ x, negb (p x)) l + count_true p l)%nat = length l.
Proof.
  unfold count_true. induction l as [|a l IH]; simpl; [done|].
  destruct (p a); simpl; lia.
Qed.

(** Either the collaborator returns for every lead, or there is a first
    lead it raises for. *)
Lemma first_raise (ls : list Lead) :
  Forall (λ l, Spec.returns sync (call_of l) = true) ls
  ∨ ∃ pre l post, ls = (pre ++ l :: post)%list
      ∧ Forall (λ l, Spec.returns sync (call_of l) = true) pre
      ∧ sync (call_of l) = Raised.
Proof.
  induction ls as [|a ls IH]; [by left|].
  destruct (sync (call_of a)) as [res|] eqn:E.
  - destruct IH as [Hall|(pre & l & post & -> & Hpre & Hraise)].
    + left. constructor; [|done]. unfold Spec.returns. by rewrite E.
    + right. exists (a :: pre), l, post. split_and!; [done| |done].
      constructor; [|done]. unfold Spec.returns. by rewrite E.
  - right. by exists [], a, ls.
Qed.

(** When the collaborator raises for some lead, the loop ends with the
    first such call: the calls made are calls for leads of the list, none
    more often than the list has it, all but the last of them returned,
    and the last raised. *)
Lemma sync_each_aborts (ls : list Lead) (st : Leads.SyncState) :
  Exists (λ l, sync (call_of l) = Raised) ls →
  snd (each ls st) = false
  ∧ ∃ earlier last,
      Leads.sync_calls (fst (each ls st)) = (Leads.sync_calls st ++ earlier ++ [last])%list
      ∧ (earlier ++ [last])%list ⊆+ map call_of ls
      ∧ Forall (λ c, Spec.returns sync c = true) earlier
      ∧ sync last = Raised.
Proof.
  intros Hex.
  destruct (first_raise ls) as [Hall|(pre & l & post & -> & Hpre & Hraise)].
  - exfalso. apply Exists_exists in Hex as (l & Hl & Hraise).
    rewrite Forall_forall in Hall. specialize (Hall l Hl).
    unfold Spec.returns in Hall. by rewrite Hraise in Hall.
  - destruct (sync_each_raises pre post l st Hpre Hraise) as [Hflag Hcalls].
    split; [done|]. exists (map call_of pre), (call_of l). split_and!.
    + by rewrite Hcalls, map_app.
    + rewrite map_app. apply submseteq_skips_l. cbn [map].
      apply submseteq_skip, submseteq_nil_l.
    + by apply Forall_map.
    + done.
Qed.

End SyncLoop.
(** ** The two sync views *)

Section SyncViews.
Variable sync : Leads.SyncCall → outcome dict.
Variable db : DB.
Variable request : HttpRequest.
Hypothesis is_post : method request = "POST".

#[local] Abbreviation ids := (getlist (POST request) "selected_leads").
#[local] Abbreviation own_names := (λ l, map name (tags_of db l)).

Lemma send_to_mailchimp_run :
  ids ≠ [] →
  Leads.send_to_mailchimp sync db request =
    let r := Leads.sync_each sync own_names (Spec.selected_leads db ids) Leads.sync_start in
    {| run_db := db; run_calls := Leads.sync_calls (fst r);
       run_result :=
         if snd r then
           Redirect "leads:lead_list"
             ((if (0 <? Leads.success (fst r))%nat
               then [(SUCCESS, pretty (Leads.success (fst r)) +:+ " leads sent to Mailchimp.")]
               else [])
              ++ (if (0 <? Leads.failed (fst r))%nat
                  then [(ERROR, pretty (Leads.failed (fst r)) +:+ " leads failed to send.")]
                  else []))%list
         else Uncaught |}.
Proof.
  intros Hids. unfold Leads.send_to_mailchimp. rewrite is_post.
  change (String.eqb "POST" "POST") with true. cbv iota.
  destruct ids as [|i rest] eqn:E; [done|].
  fold (Spec.selected_leads db (i :: rest)). cbv zeta.
  destruct (Leads.sync_each _ _ _ _) as [st completed]. cbn [fst snd].
  by destruct completed.
Qed.

Variable raw_id : string.
Variable tag : LeadTag.
Hypothesis has_tag_id : get (POST request) "tag_id" = Some raw_id.
Hypothesis tag_id_given : raw_id ≠ "".
Hypothesis tag_found :
  (pk ← Py.int raw_id; List.find (λ t, tag_id t =? pk) (tags db)) = Some tag.

Lemma send_tag_to_mailchimp_run :
  Spec.tagged_leads db tag ≠ [] →
  Leads.send_tag_to_mailchimp sync db request =
    let r := Leads.sync_each sync (λ _, [name tag]) (Spec.tagged_leads db tag)
               Leads.sync_start in
    {| run_db := db; run_calls := Leads.sync_calls (fst r);
       run_result :=
         if snd r then
           Redirect "leads:lead_list"
             ((if (0 <? Leads.success (fst r))%nat
               then [(SUCCESS, pretty (Leads.success (fst r))
                       +:+ " tagged lead(s) sent to Mailchimp (tag: " +:+ name tag +:+ ").")]
               else [])
              ++ (if (0 <? Leads.failed (fst r))%nat
                  then [(ERROR, pretty (Leads.failed (fst r))
                          +:+ " tagged lead(s) failed to send to Mailchimp.")]
                  else []))%list
         else Uncaught |}.
Proof.
  intros Htargets. unfold Leads.send_tag_to_mailchimp. rewrite is_post, has_tag_id.
  change (negb (String.eqb "POST" "POST")) with false. cbv iota.
  change (or_empty (Some raw_id)) with raw_id.
  assert (Hn : nonempty raw_id = true).
  { unfold nonempty. apply negb_true_iff. by apply String.eqb_neq. }
  rewrite Hn. cbn [negb].
  destruct (Py.int raw_id) as [pk|]; [|done]. simpl in tag_found.
  rewrite tag_found.
  fold (Spec.tagged_leads db tag).
  destruct (Spec.tagged_leads db tag) as [|l ls] eqn:E; [done|].
  cbv zeta.
  destruct (Leads.sync_each _ _ _ _) as [st completed]. cbn [fst snd].
  by destruct completed.
Qed.

End SyncViews.
(** C7 (as amended). In both sync views every targeted lead is called
    for, with its email, first name and last name and, in the view by
    selection, the names of all its tags, in the view by tag, the name of
    the chosen tag alone, as long as the collaborator returns: a result
    with an ['error'] key is one failure, any other result one success,
    neither ends the batch, and each count that is not zero is reported
    in its own message.  The views catch nothing themselves: when the
    collaborator raises for a targeted lead the exception leaves the
    view, the call that raised is the last one made, and no count is
    reported.  Neither query is ordered, so what is said of the calls is
    said without regard to their order: they are the calls for the
    targeted leads, each as often as it is targeted. *)
Theorem sync_batch_outcome
    (sync : Leads.SyncCall → outcome dict) (db : DB) (request : HttpRequest)
    (raw_id : string) (tag : LeadTag) :
  method request = "POST" →
  let selected := Spec.selected_leads db (getlist (POST request) "selected_leads") in
  let tagged := Spec.tagged_leads db tag in
  let call1 := Spec.sync_call (λ l, map name (tags_of db l)) in
  let call2 := Spec.sync_call (λ _, [name tag]) in
  let run1 := Leads.send_to_mailchimp sync db request in
  let run2 := Leads.send_tag_to_mailchimp sync db request in
  let flashes (ok bad : nat → string) (s f : nat) : list flash :=
    ((if (0 <? s)%nat then [(SUCCESS, ok s)] else [])
     ++ (if (0 <? f)%nat then [(ERROR, bad f)] else []))%list in
  (getlist (POST request) "selected_leads" ≠ [] →
     (Forall (λ l, Spec.returns sync (call1 l) = true) selected →
        let s := count_true (λ l, negb (Spec.reports_error sync (call1 l))) selected in
        let f := count_true (λ l, Spec.reports_error sync (call1 l)) selected in
        run_calls run1 ≡ₚ map call1 selected
        ∧ (s + f)%nat = length selected
        ∧ run_db run1 = db
        ∧ run_result run1 =
            Redirect "leads:lead_list"
              (flashes (λ n, pretty n +:+ " leads sent to Mailchimp.")
                       (λ n, pretty n +:+ " leads failed to send.") s f))
     ∧ (Exists (λ l, sync (call1 l) = Raised) selected →
          run_db run1 = db
          ∧ run_result run1 = Uncaught
          ∧ run_calls run1 ⊆+ map call1 selected
          ∧ ∃ earlier last,
              run_calls run1 = (earlier ++ [last])%list
              ∧ Forall (λ c, Spec.returns sync c = true) earlier
              ∧ sync last = Raised))
  ∧ (get (POST request) "tag_id" = Some raw_id →
     raw_id ≠ "" →
     (pk ← Py.int raw_id; List.find (λ t, tag_id t =? pk) (tags db)) = Some tag →
     tagged ≠ [] →
     (Forall (λ l, Spec.returns sync (call2 l) = true) tagged →
        let s := count_true (λ l, negb (Spec.reports_error sync (call2 l))) tagged in
        let f := count_true (λ l, Spec.reports_error sync (call2 l)) tagged in
        run_calls run2 ≡ₚ map call2 tagged
        ∧ (s + f)%nat = length tagged
        ∧ run_db run2 = db
        ∧ run_result run2 =
            Redirect "leads:lead_list"
              (flashes (λ n, pretty n +:+ " tagged lead(s) sent to Mailchimp (tag: "
                             +:+ name tag +:+ ").")
                       (λ n, pretty n +:+ " tagged lead(s) failed to send to Mailchimp.")
                       s f))
     ∧ (Exists (λ l, sync (call2 l) = Raised) tagged →
          run_db run2 = db
          ∧ run_result run2 = Uncaught
          ∧ run_calls run2 ⊆+ map call2 tagged
          ∧ ∃ earlier last,
              run_calls run2 = (earlier ++ [last])%list
              ∧ Forall (λ c, Spec.returns sync c = true) earlier
              ∧ sync last = Raised)).
Proof.
  intros Hpost selected tagged call1 call2 run1 run2 flashes.
  subst run1 run2. split.
  - intros Hids.
    rewrite (send_to_mailchimp_run sync db request Hpost Hids).
    cbv zeta. cbn [run_calls run_db run_result]. fold selected. split.
    + intros Hall.
      rewrite (sync_each_returns sync _ selected Leads.sync_start Hall).
      cbn [fst snd Leads.sync_calls Leads.success Leads.failed Leads.sync_start Nat.add app].
      split_and!; [done| |done|done].
      apply (count_true_split (λ l, Spec.reports_error sync (call1 l))).
    + intros Hraise.
      destruct (sync_each_aborts sync _ selected Leads.sync_start Hraise)
        as (Hflag & earlier & last & Hcalls & Hsub & Hearlier & Hlast).
      cbn [Leads.sync_start Leads.sync_calls app] in Hcalls.
      rewrite Hflag, Hcalls. split_and!; [done|done|exact Hsub|].
      by exists earlier, last.
  - intros Htag Hraw Hfound Htagged.
    rewrite (send_tag_to_mailchimp_run sync db request Hpost raw_id tag
               Htag Hraw Hfound Htagged).
    cbv zeta. cbn [run_calls run_db run_result]. fold tagged. split.
    + intros Hall.
      rewrite (sync_each_returns sync _ tagged Leads.sync_start Hall).
      cbn [fst snd Leads.sync_calls Leads.success Leads.failed Leads.sync_start Nat.add app].
      split_and!; [done| |done|done].
      apply (count_true_split (λ l, Spec.reports_error sync (call2 l))).
    + intros Hraise.
      destruct (sync_each_aborts sync _ tagged Leads.sync_start Hraise)
        as (Hflag & earlier & last & Hcalls & Hsub & Hearlier & Hlast).
      cbn [Leads.sync_start Leads.sync_calls app] in Hcalls.
      rewrite Hflag, Hcalls. split_and!; [done|done|exact Hsub|].
      by exists earlier, last.
Qed.

(** C7 on the three tagged sample leads, two results carrying an error. *)
Lemma sync_batch_outcome_witness :
  let request := Sample.post_request Sample.sync_form in
  let tag := {| tag_id := 1; name := "vip" |} in
  method request = "POST"
  ∧ getlist (POST request) "selected_leads" ≠ []
  ∧ get (POST request) "tag_id" = Some "1"
  ∧ "1" ≠ ""
  ∧ (pk ← Py.int "1"; List.find (λ t, tag_id t =? pk) (tags Sample.db3_vip)) = Some tag
  ∧ Spec.tagged_leads Sample.db3_vip tag ≠ []
  ∧ Forall (λ l, Spec.returns Sample.sync_two_errors
                   (Spec.sync_call (λ l, map name (tags_of Sample.db3_vip l)) l) = true)
           (Spec.selected_leads Sample.db3_vip (getlist (POST request) "selected_leads"))
  ∧ Forall (λ l, Spec.returns Sample.sync_two_errors
                   (Spec.sync_call (λ _, [name tag]) l) = true)
           (Spec.tagged_leads Sample.db3_vip tag)
  ∧ run_calls (Leads.send_to_mailchimp Sample.sync_two_errors Sample.db3_vip request)
    ≡ₚ map (Spec.sync_call (λ l, map name (tags_of Sample.db3_vip l)))
           (Spec.selected_leads Sample.db3_vip (getlist (POST request) "selected_leads"))
  ∧ run_calls (Leads.send_tag_to_mailchimp Sample.sync_two_errors Sample.db3_vip request)
    ≡ₚ map (Spec.sync_call (λ _, [name tag])) (Spec.tagged_leads Sample.db3_vip tag).
Proof.
  cbv zeta.
  assert (H1 : method (Sample.post_request Sample.sync_form) = "POST")
    by reflexivity.
  assert (H2 : getlist (POST (Sample.post_request Sample.sync_form))
                 "selected_leads" ≠ []) by (vm_compute; discriminate).
  assert (H3 : get (POST (Sample.post_request Sample.sync_form))
                 "tag_id" = Some "1") by (vm_compute; reflexivity).
  assert (H4 : "1" ≠ "") by discriminate.
  assert (H5 : (pk ← Py.int "1"; List.find (λ t, tag_id t =? pk) (tags Sample.db3_vip))
               = Some {| tag_id := 1; name := "vip" |}) by (vm_compute; reflexivity).
  assert (H6 : Spec.tagged_leads Sample.db3_vip {| tag_id := 1; name := "vip" |} ≠ [])
    by (vm_compute; discriminate).
  assert (H7 : Forall (λ l, Spec.returns Sample.sync_two_errors
                   (Spec.sync_call (λ l, map name (tags_of Sample.db3_vip l)) l) = true)
           (Spec.selected_leads Sample.db3_vip
              (getlist (POST (Sample.post_request Sample.sync_form))
                 "selected_leads")))
    by (vm_compute; repeat constructor).
  assert (H8 : Forall (λ l, Spec.returns Sample.sync_two_errors
                   (Spec.sync_call (λ _, [name {| tag_id := 1; name := "vip" |}]) l) = true)
           (Spec.tagged_leads Sample.db3_vip {| tag_id := 1; name := "vip" |}))
    by (vm_compute; repeat constructor).
  pose proof (sync_batch_outcome Sample.sync_two_errors Sample.db3_vip
                (Sample.post_request Sample.sync_form)
                "1" {| tag_id := 1; name := "vip" |} H1) as H.
  cbv zeta in H. destruct H as (Ha & Hb).
  split_and!; [exact H1|exact H2|exact H3|exact H4|exact H5|exact H6|exact H7|exact H8| |].
  - exact (proj1 (proj1 (Ha H2) H7)).
  - exact (proj1 (proj1 (Hb H3 H4 H5 H6) H8)).
Defined.

(** The example of the specification: two of three targeted leads come
    back with an error key; all three are called for, one success and two
    failures are reported.  Both views. *)
Example sync_two_of_three_fail :
  let request := Sample.post_request Sample.sync_form in
  let run1 := Leads.send_to_mailchimp Sample.sync_two_errors Sample.db3_vip request in
  let run2 := Leads.send_tag_to_mailchimp Sample.sync_two_errors Sample.db3_vip request in
  map Leads.call_email (run_calls run1) = ["ann@acme.io"; "bob@bolt.io"; "cyd@core.io"]
  ∧ map Leads.call_tag_names (run_calls run1) = [["vip"]; ["vip"]; ["vip"]]
  ∧ run_result run1 =
      Redirect "leads:lead_list"
        [(SUCCESS, "1 leads sent to Mailchimp."); (ERROR, "2 leads failed to send.")]
  ∧ map Leads.call_email (run_calls run2) = ["ann@acme.io"; "bob@bolt.io"; "cyd@core.io"]
  ∧ run_result run2 =
      Redirect "leads:lead_list"
        [(SUCCESS, "1 tagged lead(s) sent to Mailchimp (tag: vip).");
         (ERROR, "2 tagged lead(s) failed to send to Mailchimp.")].
Proof. vm_compute. repeat split. Qed.

(** The tag names of a call, on a lead that has two tags: the view by
    selection sends both names, the view by tag the chosen one alone. *)
Example sync_tag_names_by_view :
  let db := set_lead_tags
              (set_tags Sample.db3 [{| tag_id := 1; name := "vip" |};
                                    {| tag_id := 2; name := "hot" |}])
              [("ann@acme.io", 1); ("ann@acme.io", 2)] in
  let request := Sample.post_request [("selected_leads", "ann@acme.io"); ("tag_id", "1")] in
  map Leads.call_tag_names
      (run_calls (Leads.send_to_mailchimp Sample.sync_two_errors db request))
    = [["vip"; "hot"]]
  ∧ map Leads.call_tag_names
        (run_calls (Leads.send_tag_to_mailchimp Sample.sync_two_errors db request))
      = [["vip"]].
Proof. vm_compute. split; reflexivity. Qed.

(** C7, counterexample. The collaborator raises for the second of three
    targeted leads: in both views the exception is not caught, the third
    lead is never called for, and no count is reported.  (The three
    leads stand in the table in the order of their keys and of their
    associations, so that every way of reading the rows takes them in
    this order.) *)
Lemma sync_exception_aborts_batch :
  let request := Sample.post_request Sample.sync_form in
  let run1 := Leads.send_to_mailchimp Sample.sync_second_raises Sample.db3_vip request in
  let run2 := Leads.send_tag_to_mailchimp Sample.sync_second_raises Sample.db3_vip request in
  length (Spec.selected_leads Sample.db3_vip (getlist (POST request) "selected_leads")) = 3%nat
  ∧ map Leads.call_email (run_calls run1) = ["ann@acme.io"; "bob@bolt.io"]
  ∧ run_result run1 = Uncaught
  ∧ length (Spec.tagged_leads Sample.db3_vip {| tag_id := 1; name := "vip" |}) = 3%nat
  ∧ map Leads.call_email (run_calls run2) = ["ann@acme.io"; "bob@bolt.io"]
  ∧ run_result run2 = Uncaught.
Proof. vm_compute. repeat split. Qed.

(** ** The Python built-ins on small inputs *)

Example strip_lower_vip : strip "  VIP  " = "VIP" ∧ lower (strip "  VIP  ") = "vip".
Proof. split; reflexivity. Qed.

Example int_of_page_strings :
  Py.int " 1_2 " = Some 12 ∧ Py.int "-3" = Some (-3) ∧ Py.int "+7" = Some 7
  ∧ Py.int "1__2" = None ∧ Py.int "" = None ∧ Py.int "two" = None.
Proof. repeat split; reflexivity. Qed.
(* ===================================================================== *)
(** * Further properties of the views                                     *)
(* ===================================================================== *)

(** ** The rows of the list views *)

Lemma company_ordered_unknown_key (db : DB) (request : HttpRequest) :
  lower (strip (or_empty (get (GET request) "sort"))) ∉ Companies.allowed_sort_keys →
  Companies.checked_sort_key request = ""
  ∧ Companies.ordered db request =
      order_by [prefixed "-" (λ c, getattr c "company_name")] (Companies.filtered db request).
Proof.
  intros Hout.
  assert (Hk : Companies.checked_sort_key request = "").
  { unfold Companies.checked_sort_key, py_in. by rewrite bool_decide_eq_false_2. }
  split; [exact Hk|]. unfold Companies.ordered. by rewrite Hk.
Qed.

Lemma lead_ordered_unknown_key (db : DB) (request : HttpRequest) :
  lower (strip (or_empty (get (GET request) "sort"))) ∉ Leads.allowed_sort_keys →
  Leads.checked_sort_key request = ""
  ∧ Leads.ordered db request = Leads.filtered db request.
Proof.
  intros Hout.
  assert (Hk : Leads.checked_sort_key request = "").
  { unfold Leads.checked_sort_key, py_in. by rewrite bool_decide_eq_false_2. }
  split; [exact Hk|]. unfold Leads.ordered. by rewrite Hk.
Qed.

Lemma company_ordered_known_key (db : DB) (request : HttpRequest) (key : string) :
  lower (strip (or_empty (get (GET request) "sort"))) = key →
  key ∈ Companies.allowed_sort_keys →
  Companies.checked_sort_key request = key
  ∧ Companies.ordered db request =
      order_by (Spec.company_order db key) (Companies.filtered db request).
Proof.
  intros Hkey Hin.
  assert (Hk : Companies.checked_sort_key request = key).
  { unfold Companies.checked_sort_key, py_in. rewrite Hkey.
    by rewrite bool_decide_eq_true_2. }
  split; [exact Hk|]. unfold Companies.ordered. rewrite Hk.
  rewrite (allowed_company_key_nonempty key Hin). by apply company_sorted_fixed.
Qed.

Lemma lead_ordered_known_key (db : DB) (request : HttpRequest) (key : string) :
  lower (strip (or_empty (get (GET request) "sort"))) = key →
  key ∈ Leads.allowed_sort_keys →
  Leads.checked_sort_key request = key
  ∧ Leads.ordered db request = order_by (Spec.lead_order db key) (Leads.filtered db request).
Proof.
  intros Hkey Hin.
  assert (Hk : Leads.checked_sort_key request = key).
  { unfold Leads.checked_sort_key, py_in. rewrite Hkey.
    by rewrite bool_decide_eq_true_2. }
  split; [exact Hk|]. unfold Leads.ordered. rewrite Hk.
  rewrite (allowed_lead_key_nonempty key Hin). by apply lead_sorted_fixed.
Qed.

(** Whatever the request, the ordered rows of a list view are the
    filtered rows, none lost and none repeated, and the total shown in
    the context counts them all.  For a sort key on the allow-list no row
    comes after a later one under the key's terms; any other sort value
    is not an error: the key is reset to the empty one, and the
    companies come by name, last name first. *)
Theorem list_rows_sorted_without_loss (db : DB) (request : HttpRequest) :
  let key := lower (strip (or_empty (get (GET request) "sort"))) in
  (Companies.ordered db request ≡ₚ Companies.filtered db request
   ∧ Companies.total_companies (Companies.company_list db request)
     = length (Companies.ordered db request)
   ∧ (Companies.with_linkedin (Companies.company_list db request)
      ≤ Companies.total_companies (Companies.company_list db request))%nat
   ∧ (key ∈ Companies.allowed_sort_keys →
        StronglySorted (not_after (compare_terms (Spec.company_order db key)))
                       (Companies.ordered db request))
   ∧ (key ∉ Companies.allowed_sort_keys →
        Companies.sort_key (Companies.company_list db request) = ""
        ∧ StronglySorted
            (not_after (compare_terms [prefixed "-" (λ c, getattr c "company_name")]))
            (Companies.ordered db request)))
  ∧ (Leads.ordered db request ≡ₚ Leads.filtered db request
     ∧ Leads.total_leads (Leads.lead_list db request) = length (Leads.ordered db request)
     ∧ (key ∈ Leads.allowed_sort_keys →
          StronglySorted (not_after (compare_terms (Spec.lead_order db key)))
                         (Leads.ordered db request))
     ∧ (key ∉ Leads.allowed_sort_keys →
          Leads.sort_key (Leads.lead_list db request) = "")).
Proof.
  intros key.
  assert (Hcp : Companies.ordered db request ≡ₚ Companies.filtered db request).
  { destruct (decide (key ∈ Companies.allowed_sort_keys)) as [Hin|Hout].
    - destruct (company_ordered_known_key db request key eq_refl Hin) as [_ ->].
      apply order_by_sorted_perm.
    - destruct (company_ordered_unknown_key db request Hout) as [_ ->].
      apply order_by_sorted_perm. }
  assert (Hlp : Leads.ordered db request ≡ₚ Leads.filtered db request).
  { destruct (decide (key ∈ Leads.allowed_sort_keys)) as [Hin|Hout].
    - destruct (lead_ordered_known_key db request key eq_refl Hin) as [_ ->].
      apply order_by_sorted_perm.
    - by destruct (lead_ordered_unknown_key db request Hout) as [_ ->]. }
  split; split_and!.
  - exact Hcp.
  - rewrite (Permutation_length Hcp). reflexivity.
  - apply List.filter_length_le.
  - intros Hin.
    destruct (company_ordered_known_key db request key eq_refl Hin) as [_ ->].
    apply order_by_sorted_perm.
  - intros Hout.
    destruct (company_ordered_unknown_key db request Hout) as [Hk ->].
    split; [|apply order_by_sorted_perm].
    by destruct (company_list_sort_context db request) as [-> _].
  - exact Hlp.
  - rewrite (Permutation_length Hlp). reflexivity.
  - intros Hin.
    destruct (lead_ordered_known_key db request key eq_refl Hin) as [_ ->].
    apply order_by_sorted_perm.
  - intros Hout.
    destruct (lead_ordered_unknown_key db request Hout) as [Hk _].
    by destruct (lead_list_sort_context db request) as [-> _].
Qed.
(** The determinism of the tie-broken sorts on the sample tables, read in
    reverse order, under the [name] sort. *)
Lemma tie_broken_sorts_deterministic_witness :
  let request := Sample.get_request [("sort", "name")] in
  lower (strip (or_empty (get (GET request) "sort"))) = "name"
  ∧ NoDup (map domain (companies Sample.db3))
  ∧ NoDup (map email (leads Sample.db3))
  ∧ companies Sample.db3 ≡ₚ rev (companies Sample.db3)
  ∧ leads Sample.db3 ≡ₚ rev (leads Sample.db3)
  ∧ "name" ∈ Companies.allowed_sort_keys ∧ "name" ≠ "domain"
  ∧ "name" ∈ Leads.allowed_sort_keys ∧ "name" ≠ "email"
  ∧ Companies.ordered (set_companies Sample.db3 (rev (companies Sample.db3))) request
    = Companies.ordered Sample.db3 request
  ∧ Leads.ordered (set_leads Sample.db3 (rev (leads Sample.db3))) request
    = Leads.ordered Sample.db3 request.
Proof.
  cbv zeta.
  assert (H1 : lower (strip (or_empty (get (GET (Sample.get_request [("sort", "name")]))
                                           "sort"))) = "name") by (vm_compute; reflexivity).
  assert (H2 : NoDup (map domain (companies Sample.db3)))
    by (apply (bool_decide_unpack _); vm_compute; exact I).
  assert (H3 : NoDup (map email (leads Sample.db3)))
    by (apply (bool_decide_unpack _); vm_compute; exact I).
  assert (H4 : companies Sample.db3 ≡ₚ rev (companies Sample.db3))
    by apply Permutation_rev.
  assert (H5 : leads Sample.db3 ≡ₚ rev (leads Sample.db3)) by apply Permutation_rev.
  assert (H6 : "name" ∈ Companies.allowed_sort_keys)
    by (apply (bool_decide_unpack _); vm_compute; exact I).
  assert (H7 : "name" ∈ Leads.allowed_sort_keys)
    by (apply (bool_decide_unpack _); vm_compute; exact I).
  assert (H8 : "name" ≠ "domain") by discriminate.
  assert (H9 : "name" ≠ "email") by discriminate.
  pose proof (tie_broken_sorts_deterministic Sample.db3 (rev (companies Sample.db3))
                (rev (leads Sample.db3)) (Sample.get_request [("sort", "name")]) "name"
                H1 H2 H3 H4 H5) as [Hc Hl].
  split_and!; [exact H1|exact H2|exact H3|exact H4|exact H5|exact H6|exact H8
              |exact H7|exact H9|exact (Hc H6 H8)|exact (Hl H7 H9)].
Defined.

(** ** The search filter *)

Lemma prefix_spec (n h : string) :
  String.prefix n h = true ↔ ∃ post, h = n +:+ post.
Proof.
  revert h. induction n as [|a n IH]; intros h; simpl.
  - split; [intros _; exists h; reflexivity|intros _; by destruct h].
  - destruct h as [|b h]; simpl.
    + split; [done|]. by intros [post [=]].
    + destruct (ascii_dec a b) as [->|Hne].
      * rewrite IH. split; intros [post Hp]; exists post; [by rewrite Hp|].
        by injection Hp.
      * split; [done|]. intros [post Hp]. injection Hp as ? _. congruence.
Qed.

Lemma contains_spec (n h : string) :
  contains n h = true ↔ More.Substring n h.
Proof.
  unfold More.Substring. induction h as [|b h IH].
  - cbn [contains]. rewrite orb_false_r, prefix_spec. split.
    + intros [post Hp]. by exists "", post.
    + intros (pre & post & Hp). destruct pre as [|c pre]; [by exists post|done].
  - cbn [contains]. rewrite orb_true_iff, prefix_spec, IH. split.
    + intros [[post Hp]|(pre & post & Hp)].
      * by exists "", post.
      * exists (String b pre), post. simpl. by rewrite Hp.
    + intros (pre & post & Hp). destruct pre as [|c pre].
      * left. by exists post.
      * right. simpl in Hp. injection Hp as _ Hp. by exists pre, post.
Qed.

Lemma icontains_spec (v : pyval) (q : string) :
  icontains v q = true ↔ More.text_matches v q.
Proof.
  unfold icontains, More.text_matches. destruct v as [|b|z|s].
  - split; [done|]. by intros (s & ? & _).
  - split; [done|]. by intros (s & ? & _).
  - split; [done|]. by intros (s & ? & _).
  - rewrite contains_spec. split.
    + intros H. by exists s.
    + by intros (s' & [= <-] & H).
Qed.
Lemma elem_of_List_filter {A} (p : A → bool) (l : list A) (x : A) :
  x ∈ List.filter p l ↔ x ∈ l ∧ p x = true.
Proof. by rewrite !list_elem_of_In, filter_In. Qed.

Lemma nonempty_true (s : string) : nonempty s = true ↔ s ≠ "".
Proof. unfold nonempty. by rewrite negb_true_iff, String.eqb_neq. Qed.

(** The rows a list view keeps are the rows of the table that pass its
    filters: for the companies, the search text occurs (letter case
    aside) in the name or the domain; for the leads, the company filter
    names the lead's company and the search text occurs in the first
    name, the last name, the email, the company's name or domain, or the
    name of one of the lead's tags.  A blank search or company filter
    keeps every row. *)
Theorem search_rows (db : DB) (request : HttpRequest) :
  let q := strip (get_or (GET request) "search" "") in
  let cd := strip (get_or (GET request) "company" "") in
  (∀ c, c ∈ Companies.filtered db request ↔
        c ∈ companies db
        ∧ (q = "" ∨ More.text_matches (getattr c "company_name") q
           ∨ More.text_matches (PyStr (domain c)) q))
  ∧ (∀ l, l ∈ Leads.filtered db request ↔
          l ∈ leads db
          ∧ (cd = "" ∨ Leads.company__domain db l = PyStr cd)
          ∧ (q = "" ∨ More.text_matches (pdl_first_name l) q
             ∨ More.text_matches (pdl_last_name l) q
             ∨ More.text_matches (PyStr (email l)) q
             ∨ More.text_matches (Leads.company__company_name db l) q
             ∨ More.text_matches (Leads.company__domain db l) q
             ∨ ∃ t, t ∈ tags_of db l ∧ More.text_matches (PyStr (name t)) q)).
Proof.
  intros q cd. split.
  - intros c. unfold Companies.filtered. fold q.
    destruct (nonempty q) eqn:Eq.
    + apply nonempty_true in Eq.
      rewrite elem_of_List_filter, orb_true_iff, !icontains_spec. tauto.
    + apply nonempty_false in Eq. tauto.
  - intros l. unfold Leads.filtered. fold q. fold cd. cbv zeta.
    assert (Hsearch : Leads.matches_search db q l = true ↔
              More.text_matches (pdl_first_name l) q
              ∨ More.text_matches (pdl_last_name l) q
              ∨ More.text_matches (PyStr (email l)) q
              ∨ More.text_matches (Leads.company__company_name db l) q
              ∨ More.text_matches (Leads.company__domain db l) q
              ∨ ∃ t, t ∈ tags_of db l ∧ More.text_matches (PyStr (name t)) q).
    { unfold Leads.matches_search.
      rewrite !orb_true_iff, !icontains_spec, existsb_exists.
      assert (Htag : (∃ t, In t (tags_of db l) ∧ icontains (PyStr (name t)) q = true)
                     ↔ ∃ t, t ∈ tags_of db l ∧ More.text_matches (PyStr (name t)) q).
      { split; intros (t & Ht & Hm); exists t;
          (split; [by apply list_elem_of_In|by apply icontains_spec]). }
      rewrite Htag. tauto. }
    destruct (nonempty q) eqn:Eq; destruct (nonempty cd) eqn:Ecd;
      try apply nonempty_true in Eq; try apply nonempty_true in Ecd;
      try apply nonempty_false in Eq; try apply nonempty_false in Ecd;
      rewrite ?elem_of_List_filter, ?bool_decide_eq_true, ?Hsearch; tauto.
Qed.

(** ** The search ignores letter case *)

Lemma lower_ascii_idemp (a : ascii) : lower_ascii (lower_ascii a) = lower_ascii a.
Proof.
  destruct a as [[] [] [] [] [] [] [] []]; reflexivity.
Qed.

Lemma lower_lower (s : string) : lower (lower s) = lower s.
Proof. induction s as [|a s IH]; simpl; [done|]. by rewrite lower_ascii_idemp, IH. Qed.

Lemma lower_empty (s : string) : lower s = "" ↔ s = "".
Proof. destruct s; simpl; split; done. Qed.

Lemma icontains_lower (v : pyval) (q1 q2 : string) :
  lower q1 = lower q2 → icontains v q1 = icontains v q2.
Proof. intros H. unfold icontains. destruct v; [done|done|done|]. by rewrite H. Qed.

Lemma nonempty_lower (q1 q2 : string) :
  lower q1 = lower q2 → nonempty q1 = nonempty q2.
Proof.
  intros H. destruct (nonempty q2) eqn:E2.
  - apply nonempty_true. apply nonempty_true in E2. intros ->.
    simpl in H. symmetry in H. apply E2. by apply lower_empty.
  - apply nonempty_false in E2. subst q2. simpl in H.
    apply (proj1 (lower_empty q1)) in H. by rewrite H.
Qed.

(** Two requests whose search texts agree up to letter case and
    surrounding white space, and which agree on every other parameter,
    get the same rows, in the same order, on the same page. *)
Theorem search_ignores_letter_case (db : DB) (r1 r2 : HttpRequest) :
  pop (GET r1) "search" = pop (GET r2) "search" →
  lower (strip (get_or (GET r1) "search" "")) = lower (strip (get_or (GET r2) "search" "")) →
  (Companies.filtered db r1 = Companies.filtered db r2
   ∧ Companies.ordered db r1 = Companies.ordered db r2
   ∧ Companies.page_obj (Companies.company_list db r1)
     = Companies.page_obj (Companies.company_list db r2))
  ∧ (Leads.filtered db r1 = Leads.filtered db r2
     ∧ Leads.ordered db r1 = Leads.ordered db r2
     ∧ Leads.page_obj (Leads.lead_list db r1) = Leads.page_obj (Leads.lead_list db r2)).
Proof.
  intros Hpop Hq.
  pose proof (nonempty_lower _ _ Hq) as Hn.
  assert (Hget : ∀ k, k ≠ "search" → get (GET r1) k = get (GET r2) k)
    by (intros k Hk; by apply (get_agree _ _ "search")).
  assert (Hcf : Companies.filtered db r1 = Companies.filtered db r2).
  { unfold Companies.filtered. cbv zeta. rewrite Hn.
    destruct (nonempty (strip (get_or (GET r2) "search" ""))); [|done].
    apply filter_ext. intros c.
    rewrite (icontains_lower (getattr c "company_name") _ _ Hq).
    by rewrite (icontains_lower (PyStr (domain c)) _ _ Hq). }
  assert (Hlf : Leads.filtered db r1 = Leads.filtered db r2).
  { unfold Leads.filtered, get_or. cbv zeta.
    rewrite (Hget "company") by done. unfold get_or in Hn. rewrite Hn.
    destruct (nonempty (strip (default "" (get (GET r2) "search")))); [|done].
    apply filter_ext. intros l. unfold Leads.matches_search. unfold get_or in Hq.
    rewrite (icontains_lower (pdl_first_name l) _ _ Hq),
      (icontains_lower (pdl_last_name l) _ _ Hq),
      (icontains_lower (PyStr (email l)) _ _ Hq),
      (icontains_lower (Leads.company__company_name db l) _ _ Hq),
      (icontains_lower (Leads.company__domain db l) _ _ Hq).
    f_equal. apply existsb_ext_elem. intros t _. by apply icontains_lower. }
  assert (Hco : Companies.ordered db r1 = Companies.ordered db r2).
  { unfold Companies.ordered, Companies.checked_sort_key.
    by rewrite Hcf, (Hget "sort"), (Hget "dir"). }
  assert (Hlo : Leads.ordered db r1 = Leads.ordered db r2).
  { unfold Leads.ordered, Leads.checked_sort_key.
    by rewrite Hlf, (Hget "sort"), (Hget "dir"). }
  split; split_and!; try done.
  - by rewrite !company_list_page, Hco, (Hget "page").
  - rewrite !lead_list_page. unfold get_or. by rewrite Hlo, (Hget "page").
Qed.
(** The search on the sample companies, asked for in capitals with
    blanks around. *)
Lemma search_ignores_letter_case_witness :
  let r1 := Sample.get_request [("search", " ACME ")] in
  let r2 := Sample.get_request [("search", "acme")] in
  pop (GET r1) "search" = pop (GET r2) "search"
  ∧ lower (strip (get_or (GET r1) "search" "")) = lower (strip (get_or (GET r2) "search" ""))
  ∧ Companies.filtered Sample.db3 r1 = Companies.filtered Sample.db3 r2
  ∧ Leads.filtered Sample.db3 r1 = Leads.filtered Sample.db3 r2.
Proof.
  cbv zeta.
  assert (H1 : pop (GET (Sample.get_request [("search", " ACME ")])) "search"
               = pop (GET (Sample.get_request [("search", "acme")])) "search")
    by (vm_compute; reflexivity).
  assert (H2 : lower (strip (get_or (GET (Sample.get_request [("search", " ACME ")]))
                               "search" ""))
               = lower (strip (get_or (GET (Sample.get_request [("search", "acme")]))
                                 "search" ""))) by (vm_compute; reflexivity).
  pose proof (search_ignores_letter_case Sample.db3 _ _ H1 H2) as [Hc Hl].
  exact (conj H1 (conj H2 (conj (proj1 Hc) (proj1 Hl)))).
Defined.

(** ** The pages of a list *)

Section Pages.
Context {A : Type}.
Variable rows : list A.

Lemma num_pages_covers : Z.of_nat (length rows) ≤ 10 * num_pages rows 10.
Proof.
  unfold num_pages, count.
  pose proof (Z.mul_succ_div_gt (Z.max 1 (Z.of_nat (length rows)) + 10 - 1) 10).
  lia.
Qed.

Lemma num_pages_tight :
  10 * (num_pages rows 10 - 1) < Z.max 1 (Z.of_nat (length rows)).
Proof.
  unfold num_pages, count.
  pose proof (Z.mul_div_le (Z.max 1 (Z.of_nat (length rows)) + 10 - 1) 10).
  lia.
Qed.

Lemma page_rows_slice (n : nat) :
  (1 ≤ n)%nat → More.page_rows rows n = take 10 (drop (10 * (n - 1)) rows).
Proof.
  intros Hn. unfold More.page_rows. rewrite page_object_list by lia.
  f_equal. f_equal. lia.
Qed.

Lemma pages_concat (k : nat) :
  concat (map (More.page_rows rows) (seq 1 k)) = take (10 * k) rows.
Proof.
  induction k as [|k IH]; [done|].
  rewrite seq_S, map_app, concat_app, IH. cbn [map concat Nat.add].
  rewrite app_nil_r, page_rows_slice by lia.
  replace (10 * (S k - 1))%nat with (10 * k)%nat by lia.
  rewrite take_take_drop. f_equal. lia.
Qed.

Lemma pages_all :
  concat (map (More.page_rows rows) (seq 1 (Z.to_nat (num_pages rows 10)))) = rows.
Proof.
  rewrite pages_concat. apply take_ge.
  pose proof num_pages_covers. pose proof (num_pages_10_pos rows). lia.
Qed.

Lemma page_full (n : nat) :
  (1 ≤ n)%nat → Z.of_nat n < num_pages rows 10 →
  length (More.page_rows rows n) = 10%nat.
Proof.
  intros Hn Hlt. rewrite page_rows_slice by done.
  rewrite length_take, length_drop.
  pose proof num_pages_tight. lia.
Qed.

(** What [get_page] returns for a number within range. *)
Lemma get_page_in_range (page_number : string) (n : nat) :
  Py.int page_number = Some (Z.of_nat n) →
  (1 ≤ n)%nat → Z.of_nat n ≤ num_pages rows 10 →
  object_list (get_page rows 10 (page_or_1 page_number)) = More.page_rows rows n
  ∧ number (get_page rows 10 (page_or_1 page_number)) = Z.of_nat n.
Proof.
  intros Hint Hn Hle.
  destruct (get_page_number rows page_number) as (Hnum & _ & _).
  destruct (get_page_object_list rows page_number) as (Hobj & _).
  rewrite Hint in Hnum.
  destruct (Z.leb_spec 1 (Z.of_nat n)); [|lia].
  destruct (Z.leb_spec (Z.of_nat n) (num_pages rows 10)); [|lia].
  simpl in Hnum. split; [|exact Hnum].
  rewrite Hobj, Hnum, page_rows_slice by done. f_equal. f_equal. lia.
Qed.

End Pages.
Lemma company_ordered_ignores_page (db : DB) (r1 r2 : HttpRequest) :
  pop (GET r1) "page" = pop (GET r2) "page" →
  Companies.ordered db r1 = Companies.ordered db r2.
Proof.
  intros Hpop. unfold Companies.ordered, Companies.filtered, Companies.checked_sort_key, get_or.
  rewrite (get_agree _ _ "page" "sort" Hpop) by done.
  rewrite (get_agree _ _ "page" "search" Hpop) by done.
  by rewrite (get_agree _ _ "page" "dir" Hpop) by done.
Qed.

Lemma lead_ordered_ignores_page (db : DB) (r1 r2 : HttpRequest) :
  pop (GET r1) "page" = pop (GET r2) "page" →
  Leads.ordered db r1 = Leads.ordered db r2.
Proof.
  intros Hpop. unfold Leads.ordered, Leads.filtered, Leads.checked_sort_key, get_or.
  rewrite (get_agree _ _ "page" "sort" Hpop) by done.
  rewrite (get_agree _ _ "page" "search" Hpop) by done.
  rewrite (get_agree _ _ "page" "company" Hpop) by done.
  by rewrite (get_agree _ _ "page" "dir" Hpop) by done.
Qed.

(** The pages of a list view partition its ordered rows: pages 1 to the
    last, one after the other, are the rows, each once and in order;
    every page before the last holds ten rows; and a request for page
    [n] within range, all else equal, is answered with page [n], which
    has a previous page unless it is the first and a next page unless it
    is the last. *)
Theorem pages_partition_rows (db : DB) (request : HttpRequest) :
  (let rows := Companies.ordered db request in
   let last := Z.to_nat (num_pages rows 10) in
   concat (map (More.page_rows rows) (seq 1 last)) = rows
   ∧ (∀ n, (1 ≤ n < last)%nat → length (More.page_rows rows n) = 10%nat)
   ∧ (∀ request' n,
        pop (GET request') "page" = pop (GET request) "page" →
        Py.int (strip (or_empty (get (GET request') "page"))) = Some (Z.of_nat n) →
        (1 ≤ n ≤ last)%nat →
        let p := Companies.page_obj (Companies.company_list db request') in
        object_list p = More.page_rows rows n
        ∧ number p = Z.of_nat n
        ∧ has_previous p = (1 <? n)%nat
        ∧ has_next p = (n <? last)%nat))
  ∧ (let rows := Leads.ordered db request in
     let last := Z.to_nat (num_pages rows 10) in
     concat (map (More.page_rows rows) (seq 1 last)) = rows
     ∧ (∀ n, (1 ≤ n < last)%nat → length (More.page_rows rows n) = 10%nat)
     ∧ (∀ request' n,
          pop (GET request') "page" = pop (GET request) "page" →
          Py.int (strip (or_empty (get (GET request') "page"))) = Some (Z.of_nat n) →
          (1 ≤ n ≤ last)%nat →
          let p := Leads.page_obj (Leads.lead_list db request') in
          object_list p = More.page_rows rows n
          ∧ number p = Z.of_nat n
          ∧ has_previous p = (1 <? n)%nat
          ∧ has_next p = (n <? last)%nat)).
Proof.
  assert (Hgen : ∀ {A} (rows : list A) (s : string) (n : nat),
            Py.int s = Some (Z.of_nat n) →
            (1 ≤ n ≤ Z.to_nat (num_pages rows 10))%nat →
            let p := get_page rows 10 (page_or_1 s) in
            object_list p = More.page_rows rows n
            ∧ number p = Z.of_nat n
            ∧ has_previous p = (1 <? n)%nat
            ∧ has_next p = (n <? Z.to_nat (num_pages rows 10))%nat).
  { intros A rows s n Hint Hn. cbv zeta.
    pose proof (num_pages_10_pos rows) as Hpos.
    destruct (get_page_in_range rows s n Hint) as [Hobj Hnum]; [lia|lia|].
    destruct (get_page_number rows s) as (_ & _ & Hlast).
    split_and!; [done|done| |].
    - unfold has_previous. rewrite Hnum.
      destruct (Z.ltb_spec 1 (Z.of_nat n)); destruct (Nat.ltb_spec 1 n); lia || done.
    - unfold has_next. rewrite Hnum, Hlast.
      destruct (Z.ltb_spec (Z.of_nat n) (num_pages rows 10));
        destruct (Nat.ltb_spec n (Z.to_nat (num_pages rows 10))); lia || done. }
  split; cbv zeta; split_and!.
  - apply pages_all.
  - intros n Hn. apply page_full; [lia|].
    pose proof (num_pages_10_pos (Companies.ordered db request)). lia.
  - intros request' n Hpop Hint Hn.
    rewrite company_list_page, (company_ordered_ignores_page db request' request Hpop).
    by apply Hgen.
  - apply pages_all.
  - intros n Hn. apply page_full; [lia|].
    pose proof (num_pages_10_pos (Leads.ordered db request)). lia.
  - intros request' n Hpop Hint Hn.
    rewrite lead_list_page, (lead_ordered_ignores_page db request' request Hpop).
    by apply Hgen.
Qed.

(** The three pages of the 25 sample leads. *)
Example lead_pages_partition :
  let rows := Leads.ordered (Sample.db_of [] (Sample.many_leads 25)) (Sample.get_request []) in
  map (λ n, length (More.page_rows rows n)) [1; 2; 3]%nat = [10; 10; 5]%nat
  ∧ concat (map (More.page_rows rows) [1; 2; 3]%nat) = rows.
Proof. vm_compute. split; reflexivity. Qed.

(** The parameters a list view keeps for its page links are the pairs of
    the query string, every value of every key, without [page]. *)
Theorem pagination_params_keep_query (db : DB) (request : HttpRequest) (k v : string) :
  ((k, v) ∈ Companies.pagination_params (Companies.company_list db request)
   ↔ (k, v) ∈ GET request ∧ k ≠ "page")
  ∧ ((k, v) ∈ Leads.pagination_params (Leads.lead_list db request)
     ↔ (k, v) ∈ GET request ∧ k ≠ "page").
Proof.
  split.
  - change (Companies.pagination_params (Companies.company_list db request))
      with (pagination_params_of (pop (GET request) "page")).
    by rewrite elem_of_pagination_params, elem_of_pop.
  - change (Leads.pagination_params (Leads.lead_list db request))
      with (pagination_params_of (pop (GET request) "page")).
    by rewrite elem_of_pagination_params, elem_of_pop.
Qed.

(** The order of the kept parameters on a query string that repeats a
    key: the keys as they first occur, the values of a key together. *)
Example pagination_params_key_order :
  Companies.pagination_params
    (Companies.company_list Sample.db3
       (Sample.get_request [("a", "1"); ("page", "2"); ("b", "2"); ("a", "3")]))
  = [("a", "1"); ("a", "3"); ("b", "2")].
Proof. vm_compute. reflexivity. Qed.
(** ** What an enrichment run may change *)

Lemma table_after_domains
    (enrich_company : string → outcome (option dict)) (save_raises : Company → bool)
    (overwrite : bool) (done : list string) (rows : list Company) :
  map domain (Spec.table_after enrich_company save_raises overwrite done rows)
  = map domain rows.
Proof.
  unfold Spec.table_after. rewrite map_map. apply map_ext. intros r.
  case_bool_decide; [apply company_after_domain|done].
Qed.

(** A run of [company_enrich] rewrites the rows of the candidates it
    counts as enriched, each with its merged row, and nothing else: no
    company is added, removed, moved or given another domain, every other
    company row is as it was, and so are the leads, the tags and their
    associations. *)
Theorem company_enrich_database
    (enrich_company : string → outcome (option dict))
    (save_raises : Company → bool)
    (environ : gmap string string) (db : DB) (request : HttpRequest) :
  NoDup (map domain (companies db)) →
  let overwrite := overwrite_of request in
  let cands := if enable_enrichment environ
               then Companies.candidates overwrite db else [] in
  let run := Companies.company_enrich enrich_company save_raises environ db request in
  companies (run_db run) =
    map (λ c, if bool_decide (domain c ∈ map domain cands)
              then Spec.company_after enrich_company save_raises overwrite c else c)
        (companies db)
  ∧ map domain (companies (run_db run)) = map domain (companies db)
  ∧ leads (run_db run) = leads db
  ∧ tags (run_db run) = tags db
  ∧ lead_tags (run_db run) = lead_tags db.
Proof.
  intros Hnd overwrite cands run.
  destruct (company_enrich_table enrich_company save_raises environ db request Hnd)
    as (Hc & Hl & Ht & Hj).
  fold overwrite in Hc. fold cands in Hc. fold run in Hc, Hl, Ht, Hj.
  split_and!; [exact Hc| |exact Hl|exact Ht|exact Hj].
  rewrite Hc. apply table_after_domains.
Qed.

(** The companies of the sample table after a fill-mode run. *)
Lemma company_enrich_database_witness :
  NoDup (map domain (companies Sample.db3))
  ∧ map domain (companies (run_db
      (Companies.company_enrich Sample.enrich_company_2 Sample.never Sample.environ_on
         Sample.db3 (Sample.get_request []))))
    = map domain (companies Sample.db3)
  ∧ leads (run_db
      (Companies.company_enrich Sample.enrich_company_2 Sample.never Sample.environ_on
         Sample.db3 (Sample.get_request []))) = leads Sample.db3.
Proof.
  assert (H : NoDup (map domain (companies Sample.db3)))
    by (apply (bool_decide_unpack _); vm_compute; exact I).
  pose proof (company_enrich_database Sample.enrich_company_2 Sample.never
                Sample.environ_on Sample.db3 (Sample.get_request []) H) as Hrun.
  cbv zeta in Hrun. destruct Hrun as (_ & Hd & Hl & _).
  exact (conj H (conj Hd Hl)).
Defined.

(** What the loop may do to one row, field by field. *)
Lemma company_after_row
    (enrich_company : string → outcome (option dict)) (save_raises : Company → bool)
    (overwrite : bool) (c : Company) (f : string) :
  let c' := Spec.company_after enrich_company save_raises overwrite c in
  (More.populated (getattr c f) = true → More.populated (getattr c' f) = true)
  ∧ (overwrite = false → truthy (getattr c f) = true → getattr c' f = getattr c f)
  ∧ (f ∉ Companies.fields → getattr c' f = getattr c f).
Proof.
  cbv zeta. unfold Spec.company_after.
  destruct (enrich_company (domain c)) as [[data|]|]; [|done|done].
  case_bool_decide; [|done].
  destruct (merge_loop overwrite data Companies.fields fields_NoDup (c, false))
    as (_ & Hget & _).
  unfold Companies.merge_fields. rewrite Hget. cbn [fst]. unfold Spec.written.
  split_and!.
  - intros Hp. destruct (bool_decide (f ∈ Companies.fields)); [|done].
    cbn [andb]. unfold More.populated in *.
    destruct (negb (is_none_or_empty (dict_get data f))) eqn:Ev; [|done].
    cbn [andb]. by destruct (overwrite || negb (truthy (getattr c f))).
  - intros -> Ht. rewrite Ht. cbn [negb orb]. by rewrite !andb_false_r.
  - intros Hout. by rewrite bool_decide_eq_false_2.
Qed.

Lemma needs_enrichment_spec (c : Company) :
  Companies.needs_enrichment c = true ↔
  ∃ f, f ∈ Companies.fields
       ∧ (getattr c f = PyNone ∨ (f ≠ "company_size" ∧ getattr c f = PyStr "")).
Proof.
  unfold Companies.needs_enrichment. rewrite existsb_exists. split.
  - intros (f & Hf & H). exists f. split; [by apply list_elem_of_In|].
    apply orb_prop in H as [H|H].
    + left. unfold Companies.isnull in H. by apply bool_decide_eq_true_1 in H.
    + right. apply andb_prop in H as [H1 H2].
      apply negb_true_iff, String.eqb_neq in H1.
      unfold Companies.is_empty_str in H2. by apply bool_decide_eq_true_1 in H2.
  - intros (f & Hf & H). exists f. split; [by apply list_elem_of_In|].
    destruct H as [H|[H1 H2]].
    + unfold Companies.isnull. by rewrite H.
    + apply orb_true_iff. right. apply andb_true_intro. split.
      * by apply negb_true_iff, String.eqb_neq.
      * unfold Companies.is_empty_str. by rewrite H2.
Qed.

Lemma company_after_needs
    (enrich_company : string → outcome (option dict)) (save_raises : Company → bool)
    (overwrite : bool) (c : Company) :
  Companies.needs_enrichment
    (Spec.company_after enrich_company save_raises overwrite c) = true →
  Companies.needs_enrichment c = true.
Proof.
  rewrite !needs_enrichment_spec. intros (f & Hf & H). exists f. split; [done|].
  destruct (company_after_row enrich_company save_raises overwrite c f) as (Hp & _ & _).
  unfold More.populated in Hp.
  destruct (getattr c f) as [|b|z|s] eqn:E; [by left| | |].
  - specialize (Hp eq_refl). destruct H as [H|[_ H]]; by rewrite H in Hp.
  - specialize (Hp eq_refl). destruct H as [H|[_ H]]; by rewrite H in Hp.
  - destruct (String.eqb_spec s "") as [->|Hs].
    + destruct H as [H|[Hne _]]; [|right; by split].
      (* the row still holds the empty string or a value, never NULL *)
      exfalso. revert H. unfold Spec.company_after.
      destruct (enrich_company (domain c)) as [[data|]|]; [|by rewrite E|by rewrite E].
      case_bool_decide; [|by rewrite E].
      destruct (merge_loop overwrite data Companies.fields fields_NoDup (c, false))
        as (_ & Hget & _).
      unfold Companies.merge_fields. rewrite Hget. cbn [fst]. rewrite E.
      unfold Spec.written.
      replace (overwrite || negb (truthy (PyStr ""))) with true by (by destruct overwrite).
      rewrite andb_true_r.
      destruct (bool_decide (f ∈ Companies.fields)); [|done]. cbn [andb].
      destruct (dict_get data f) as [|b|z|s'] eqn:Ed; cbn; try done.
      by destruct (String.eqb s' "").
    + assert (Hpop : negb (is_none_or_empty (PyStr s)) = true).
      { simpl. by apply negb_true_iff, String.eqb_neq. }
      specialize (Hp Hpop). destruct H as [H|[_ H]]; by rewrite H in Hp.
Qed.
Lemma Forall2_map_self {A B} (R : A → B → Prop) (g : A → B) (l : list A) :
  (∀ x, x ∈ l → R x (g x)) → Forall2 R l (map g l).
Proof.
  induction l as [|a l IH]; intros H; simpl; constructor.
  - apply H, list_elem_of_here.
  - apply IH. intros x Hx. by apply H, list_elem_of_further.
Qed.

(** A run of [company_enrich] only fills: row by row, a field that was
    populated (neither NULL nor empty) is still populated, a field outside
    the enrichable list is untouched, and in fill mode a field with a
    truthy value keeps that value.  So a company that needed no
    enrichment before the run needs none after it. *)
Theorem company_enrich_only_fills
    (enrich_company : string → outcome (option dict))
    (save_raises : Company → bool)
    (environ : gmap string string) (db : DB) (request : HttpRequest) :
  NoDup (map domain (companies db)) →
  let run := Companies.company_enrich enrich_company save_raises environ db request in
  Forall2 (λ c c',
             domain c' = domain c
             ∧ (∀ f, More.populated (getattr c f) = true →
                     More.populated (getattr c' f) = true)
             ∧ (overwrite_of request = false →
                  ∀ f, truthy (getattr c f) = true → getattr c' f = getattr c f)
             ∧ (∀ f, f ∉ Companies.fields → getattr c' f = getattr c f))
          (companies db) (companies (run_db run))
  ∧ (∀ d, d ∈ map domain (Companies.candidates false (run_db run)) →
          d ∈ map domain (Companies.candidates false db)).
Proof.
  intros Hnd run.
  destruct (company_enrich_table enrich_company save_raises environ db request Hnd)
    as (Hc & _). fold run in Hc. cbv zeta in Hc.
  set (done := map domain (if enable_enrichment environ
                           then Companies.candidates (overwrite_of request) db else []))
    in Hc.
  assert (Hrow : ∀ c,
            let c' := if bool_decide (domain c ∈ done)
                      then Spec.company_after enrich_company save_raises
                             (overwrite_of request) c
                      else c in
            domain c' = domain c
            ∧ (∀ f, More.populated (getattr c f) = true →
                    More.populated (getattr c' f) = true)
            ∧ (overwrite_of request = false →
                 ∀ f, truthy (getattr c f) = true → getattr c' f = getattr c f)
            ∧ (∀ f, f ∉ Companies.fields → getattr c' f = getattr c f)
            ∧ (Companies.needs_enrichment c' = true → Companies.needs_enrichment c = true)).
  { intros c. cbv zeta. case_bool_decide; [|done]. split_and!.
    - apply company_after_domain.
    - intros f. apply company_after_row.
    - intros Hov f. by apply company_after_row.
    - intros f. apply company_after_row.
    - apply company_after_needs. }
  rewrite Hc. unfold Spec.table_after. split.
  - apply Forall2_map_self. intros c _.
    destruct (Hrow c) as (H1 & H2 & H3 & H4 & _). done.
  - intros d Hd. unfold Companies.candidates in *.
    apply list_elem_of_fmap in Hd as (c' & -> & Hc').
    apply elem_of_List_filter in Hc' as [Hin Hneeds].
    rewrite Hc in Hin.
    apply list_elem_of_fmap in Hin as (c & -> & Hin).
    destruct (Hrow c) as (Hdom & _ & _ & _ & Hn).
    rewrite Hdom. apply (list_elem_of_fmap_2 domain).
    apply elem_of_List_filter. split; [done|]. by apply Hn.
Qed.

(** The sample table after an overwrite run: the three rows keep their
    domains. *)
Lemma company_enrich_only_fills_witness :
  NoDup (map domain (companies Sample.db3))
  ∧ ∀ d, d ∈ map domain (Companies.candidates false (run_db
            (Companies.company_enrich Sample.enrich_company_2 Sample.never
               Sample.environ_on Sample.db3 (Sample.get_request [("mode", "all")])))) →
         d ∈ map domain (Companies.candidates false Sample.db3).
Proof.
  assert (H : NoDup (map domain (companies Sample.db3)))
    by (apply (bool_decide_unpack _); vm_compute; exact I).
  exact (conj H (proj2 (company_enrich_only_fills Sample.enrich_company_2 Sample.never
                          Sample.environ_on Sample.db3
                          (Sample.get_request [("mode", "all")]) H))).
Defined.

(** ** Nothing to enrich *)

Lemma filter_nil_iff {A} (p : A → bool) (l : list A) :
  List.filter p l = [] ↔ ∀ x, x ∈ l → p x = false.
Proof.
  split; [|apply filter_all_false].
  intros H x Hx. destruct (p x) eqn:E; [|done].
  assert (x ∈ List.filter p l) by (by apply elem_of_List_filter).
  rewrite H in *. by apply elem_of_nil in H0.
Qed.

Lemma lead_needs_enrichment_spec (l : Lead) :
  Leads.needs_enrichment l = false ↔
  Forall (λ v, v ≠ PyNone ∧ v ≠ PyStr "")
         [pdl_first_name l; pdl_last_name l; pdl_job_title l; pdl_linkedin_url l].
Proof.
  unfold Leads.needs_enrichment, Leads.isnull, Leads.is_empty_str.
  rewrite !orb_false_iff, !bool_decide_eq_false, !Forall_cons, Forall_nil. tauto.
Qed.

(** With both credentials set, a run whose candidate set is empty calls
    no collaborator, writes nothing and says that nothing needs
    enrichment.  In fill mode that is exactly when every company (resp.
    lead) has every enrichable column populated -- not NULL and, for a
    text column, not empty; in overwrite mode, exactly when the table is
    empty. *)
Theorem enrichment_nothing_to_do
    (enrich_company : string → outcome (option dict))
    (save_raises : Company → bool)
    (enrich_lead : Lead → bool → DB → outcome (option dict) * DB)
    (environ : gmap string string) (db : DB) (request : HttpRequest) :
  enable_enrichment environ = true →
  (Companies.candidates (overwrite_of request) db = [] →
     Companies.company_enrich enrich_company save_raises environ db request =
       {| run_db := db; run_calls := [];
          run_result := Redirect "companies:company_list"
                          [(INFO, "No companies need enrichment.")] |})
  ∧ (Leads.candidates (overwrite_of request) db = [] →
       Leads.lead_enrich enrich_lead environ db request =
         {| run_db := db; run_calls := [];
            run_result := Redirect "leads:lead_list"
                            [(INFO, "No leads need enrichment.")] |})
  ∧ (Companies.candidates false db = [] ↔
       ∀ c f, c ∈ companies db → f ∈ Companies.fields →
              getattr c f ≠ PyNone ∧ (f ≠ "company_size" → getattr c f ≠ PyStr ""))
  ∧ (Leads.candidates false db = [] ↔
       ∀ l, l ∈ leads db →
            Forall (λ v, v ≠ PyNone ∧ v ≠ PyStr "")
              [pdl_first_name l; pdl_last_name l; pdl_job_title l; pdl_linkedin_url l])
  ∧ (Companies.candidates true db = [] ↔ companies db = [])
  ∧ (Leads.candidates true db = [] ↔ leads db = []).
Proof.
  intros Hen. split_and!.
  - intros Hc. unfold Companies.company_enrich. by rewrite Hen, Hc.
  - intros Hl. unfold Leads.lead_enrich. by rewrite Hen, Hl.
  - unfold Companies.candidates. rewrite filter_nil_iff. split.
    + intros H c f Hc Hf. specialize (H c Hc).
      assert (Hn : ¬ (Companies.needs_enrichment c = true)) by (by rewrite H).
      rewrite needs_enrichment_spec in Hn. split.
      * intros E. apply Hn. exists f. by split; [|left].
      * intros Hs E. apply Hn. exists f. split; [done|]. by right.
    + intros H c Hc. apply not_true_is_false. rewrite needs_enrichment_spec.
      intros (f & Hf & [E|[Hs E]]); destruct (H c f Hc Hf) as [H1 H2]; [done|].
      by apply H2.
  - unfold Leads.candidates. rewrite filter_nil_iff.
    split; intros H l Hl; apply lead_needs_enrichment_spec; by apply H.
  - done.
  - done.
Qed.
(** A run on empty tables. *)
Lemma enrichment_nothing_to_do_witness :
  enable_enrichment Sample.environ_on = true
  ∧ Companies.candidates (overwrite_of (Sample.get_request [])) (Sample.db_of [] []) = []
  ∧ Companies.company_enrich Sample.enrich_company_2 Sample.never Sample.environ_on
      (Sample.db_of [] []) (Sample.get_request []) =
    {| run_db := Sample.db_of [] []; run_calls := [];
       run_result := Redirect "companies:company_list"
                       [(INFO, "No companies need enrichment.")] |}.
Proof.
  assert (H1 : enable_enrichment Sample.environ_on = true) by (vm_compute; reflexivity).
  assert (H2 : Companies.candidates (overwrite_of (Sample.get_request []))
                 (Sample.db_of [] []) = []) by (vm_compute; reflexivity).
  exact (conj H1 (conj H2
    (proj1 (enrichment_nothing_to_do Sample.enrich_company_2 Sample.never
              Sample.enrich_lead_2 Sample.environ_on (Sample.db_of [] [])
              (Sample.get_request []) H1) H2))).
Defined.

(** ** [bulk_apply_tag]: what it refuses and what it may change *)

(** The guards, in the order the view applies them: a request that is not
    a POST is sent back without a word; an empty selection is refused
    before the tag name is looked at; a tag name that is missing or blank
    is refused.  Nothing is written in any of these cases. *)
Theorem bulk_apply_tag_guards (db : DB) (request : HttpRequest) :
  (method request ≠ "POST" →
     Leads.bulk_apply_tag db request =
       {| run_db := db; run_calls := []; run_result := Redirect "leads:lead_list" [] |})
  ∧ (method request = "POST" → getlist (POST request) "selected_leads" = [] →
       Leads.bulk_apply_tag db request =
         {| run_db := db; run_calls := [];
            run_result := Redirect "leads:lead_list" [(ERROR, "No leads selected.")] |})
  ∧ (method request = "POST" → getlist (POST request) "selected_leads" ≠ [] →
     strip (or_empty (get (POST request) "tag_name")) = "" →
       Leads.bulk_apply_tag db request =
         {| run_db := db; run_calls := [];
            run_result := Redirect "leads:lead_list" [(ERROR, "Tag name is required.")] |}).
Proof.
  unfold Leads.bulk_apply_tag. split_and!.
  - intros Hm. apply String.eqb_neq in Hm. by rewrite Hm.
  - intros -> ->. done.
  - intros -> Hids Hblank.
    change (negb (String.eqb "POST" "POST")) with false. cbv iota.
    destruct (getlist (POST request) "selected_leads"); [done|].
    by rewrite Hblank.
Qed.

(** A request that is not refused carries a tag name that is not blank. *)
Lemma bulk_apply_tag_cases (db : DB) (request : HttpRequest) :
  run_db (Leads.bulk_apply_tag db request) = db
  ∨ ∃ raw, method request = "POST"
           ∧ getlist (POST request) "selected_leads" ≠ []
           ∧ get (POST request) "tag_name" = Some raw
           ∧ strip raw ≠ "".
Proof.
  unfold Leads.bulk_apply_tag.
  destruct (String.eqb_spec (method request) "POST") as [Hm|Hm]; [|by left].
  cbn [negb].
  destruct (getlist (POST request) "selected_leads") as [|i ids] eqn:Eids; [by left|].
  destruct (get (POST request) "tag_name") as [raw|] eqn:Eraw; [|by left].
  change (or_empty (Some raw)) with raw.
  destruct (nonempty (strip raw)) eqn:En; [|by left].
  right. exists raw. split_and!; [done|done|done|by apply nonempty_true].
Qed.
(** The guards on three sample requests: a GET, a POST without a
    selection, a POST with a blank tag name. *)
Lemma bulk_apply_tag_guards_witness :
  method (Sample.get_request []) ≠ "POST"
  ∧ method (Sample.post_request [("tag_name", "vip")]) = "POST"
  ∧ getlist (POST (Sample.post_request [("tag_name", "vip")])) "selected_leads" = []
  ∧ getlist (POST (Sample.post_request [("selected_leads", "ann@acme.io"); ("tag_name", "  ")]))
      "selected_leads" ≠ []
  ∧ strip (or_empty (get (POST (Sample.post_request
             [("selected_leads", "ann@acme.io"); ("tag_name", "  ")])) "tag_name")) = ""
  ∧ Leads.bulk_apply_tag Sample.db3 (Sample.get_request []) =
      {| run_db := Sample.db3; run_calls := [];
         run_result := Redirect "leads:lead_list" [] |}
  ∧ Leads.bulk_apply_tag Sample.db3 (Sample.post_request [("tag_name", "vip")]) =
      {| run_db := Sample.db3; run_calls := [];
         run_result := Redirect "leads:lead_list" [(ERROR, "No leads selected.")] |}
  ∧ Leads.bulk_apply_tag Sample.db3
      (Sample.post_request [("selected_leads", "ann@acme.io"); ("tag_name", "  ")]) =
      {| run_db := Sample.db3; run_calls := [];
         run_result := Redirect "leads:lead_list" [(ERROR, "Tag name is required.")] |}.
Proof.
  assert (H1 : method (Sample.get_request []) ≠ "POST") by discriminate.
  assert (H2 : method (Sample.post_request [("tag_name", "vip")]) = "POST") by reflexivity.
  assert (H3 : getlist (POST (Sample.post_request [("tag_name", "vip")])) "selected_leads" = [])
    by (vm_compute; reflexivity).
  assert (H4 : getlist (POST (Sample.post_request
                 [("selected_leads", "ann@acme.io"); ("tag_name", "  ")]))
                 "selected_leads" ≠ []) by (vm_compute; discriminate).
  assert (H5 : strip (or_empty (get (POST (Sample.post_request
                 [("selected_leads", "ann@acme.io"); ("tag_name", "  ")])) "tag_name")) = "")
    by (vm_compute; reflexivity).
  split_and!; [exact H1|exact H2|exact H3|exact H4|exact H5| | |].
  - exact (proj1 (bulk_apply_tag_guards Sample.db3 (Sample.get_request [])) H1).
  - exact (proj1 (proj2 (bulk_apply_tag_guards Sample.db3
                           (Sample.post_request [("tag_name", "vip")]))) H2 H3).
  - exact (proj2 (proj2 (bulk_apply_tag_guards Sample.db3
                           (Sample.post_request
                              [("selected_leads", "ann@acme.io"); ("tag_name", "  ")])))
             eq_refl H4 H5).
Defined.

Lemma fold_max_bound (zs : list Z) (z : Z) : z ∈ zs → z ≤ fold_right Z.max 0 zs.
Proof.
  induction zs as [|a zs IH]; intros Hz; [by apply elem_of_nil in Hz|].
  simpl. apply elem_of_cons in Hz as [->|Hz]; [lia|]. specialize (IH Hz). lia.
Qed.

Lemma find_none_name (n : string) (ts : list LeadTag) :
  List.find (λ t, String.eqb (name t) n) ts = None → n ∉ map name ts.
Proof.
  intros Hnone Hin. apply list_elem_of_fmap in Hin as (t & -> & Ht).
  apply list_elem_of_In in Ht.
  pose proof (find_none _ _ Hnone t Ht) as H. simpl in H.
  by rewrite String.eqb_refl in H.
Qed.

(** [bulk_apply_tag] only adds.  Whatever the request, the companies and
    the leads are as they were; every tag and every association that was
    there is still there; at most one tag is created; tag names, tag ids
    and associations that were free of duplicates stay so; and every
    association that is new joins a lead of the table, selected in the
    request, to a tag of the table. *)
Theorem bulk_apply_tag_only_adds (db : DB) (request : HttpRequest) :
  let db' := run_db (Leads.bulk_apply_tag db request) in
  companies db' = companies db
  ∧ leads db' = leads db
  ∧ (∃ added, tags db' = (tags db ++ added)%list ∧ (length added ≤ 1)%nat)
  ∧ (∀ r, r ∈ lead_tags db → r ∈ lead_tags db')
  ∧ (NoDup (map name (tags db)) → NoDup (map name (tags db')))
  ∧ (NoDup (map tag_id (tags db)) → NoDup (map tag_id (tags db')))
  ∧ (NoDup (lead_tags db) → NoDup (lead_tags db'))
  ∧ (∀ r, r ∈ lead_tags db' → r ∉ lead_tags db →
          (∃ l, l ∈ leads db ∧ lead_pk l = fst r
                ∧ lead_pk l ∈ getlist (POST request) "selected_leads")
          ∧ (∃ t, t ∈ tags db' ∧ tag_id t = snd r)).
Proof.
  intros db'. subst db'.
  destruct (bulk_apply_tag_cases db request) as [->|(raw & Hm & Hids & Hraw & Hne)].
  { split_and!; try done.
    exists []. rewrite app_nil_r. split; [done|simpl; lia]. }
  rewrite (bulk_apply_tag_applies db request raw Hm Hids Hraw Hne). cbv zeta.
  cbn [run_db].
  destruct (get_or_create_spec (lower (strip raw)) db)
    as (Hname & Hfind & Htags & Hcomp & Hleads & Hjoin).
  assert (Hfresh : tags (snd (get_or_create (lower (strip raw)) db)) =
                     (tags db ++ [fst (get_or_create (lower (strip raw)) db)])%list →
                   tag_id (fst (get_or_create (lower (strip raw)) db)) ∉ map tag_id (tags db)).
  { unfold get_or_create.
    destruct (List.find _ (tags db)) as [t|]; simpl.
    - intros H. apply (f_equal length) in H. rewrite length_app in H. simpl in H. lia.
    - intros _ Hin. apply fold_max_bound in Hin. lia. }
  destruct (get_or_create (lower (strip raw)) db) as [tag db1] eqn:Ecreate.
  cbn [fst snd] in *.
  set (selected := List.filter (λ l, py_in (lead_pk l) (getlist (POST request) "selected_leads"))
                     (leads db)).
  destruct (apply_tag_loop tag selected db1 0)
    as (_ & Hc & Hl & Ht & Hold & Hnew & Hsub & Hnodup & _).
  set (applied := fold_left (Leads.apply_tag tag) selected (db1, 0%nat)) in *.
  split_and!.
  - by rewrite Hc.
  - by rewrite Hl.
  - rewrite Ht. destruct Htags as [->|[_ ->]].
    + exists []. rewrite app_nil_r. split; [done|simpl; lia].
    + exists [tag]. split; [done|simpl; lia].
  - intros r Hr. apply Hold. by rewrite Hjoin.
  - intros Hn. rewrite Ht. destruct Htags as [->|[Hnone ->]]; [done|].
    rewrite map_app. apply NoDup_app. split_and!; [done| |apply NoDup_singleton].
    intros x Hx Hx'. simpl in Hx'. apply list_elem_of_singleton in Hx'. subst x.
    apply (find_none_name _ _ Hnone). by rewrite <- Hname.
  - intros Hn. rewrite Ht. destruct Htags as [->|[Hnone Heq]]; [done|].
    rewrite Heq, map_app. apply NoDup_app. split_and!; [done| |apply NoDup_singleton].
    intros x Hx Hx'. simpl in Hx'. apply list_elem_of_singleton in Hx'. subst x.
    by apply (Hfresh Heq).
  - intros Hn. apply Hnodup. by rewrite Hjoin.
  - intros r Hr Hnew'. apply Hsub in Hr as [Hr|(l & Hl0 & ->)].
    + exfalso. apply Hnew'. by rewrite <- Hjoin.
    + unfold selected in Hl0. apply list_elem_of_In, filter_In in Hl0 as [Hin Hpk].
      apply list_elem_of_In in Hin.
      unfold py_in in Hpk. apply bool_decide_eq_true_1 in Hpk. split.
      * by exists l.
      * exists tag. split; [|done]. rewrite Ht.
        apply list_elem_of_In. apply (find_some _ _ Hfind).
Qed.
(** ** What the sync views never do *)

Section SyncPrefix.
Variable sync : Leads.SyncCall → outcome dict.
Variable tag_names_of : Lead → list string.

(** Whatever the collaborator does, the calls of the loop are the calls
    for an initial segment of the leads, in their order; the segment is
    the whole list when the loop completes, and then every lead was
    counted once. *)
Lemma sync_each_prefix (ls : list Lead) : ∀ st,
  let r := Leads.sync_each sync tag_names_of ls st in
  ∃ k, (k ≤ length ls)%nat
       ∧ Leads.sync_calls (fst r) =
           (Leads.sync_calls st ++ map (Spec.sync_call tag_names_of) (take k ls))%list
       ∧ (snd r = true →
          k = length ls
          ∧ (Leads.success (fst r) + Leads.failed (fst r) =
             Leads.success st + Leads.failed st + length ls)%nat).
Proof.
  induction ls as [|l ls IH]; intros st; cbv zeta.
  - exists 0%nat. simpl. rewrite app_nil_r. split_and!; [lia|done|intros _; split; lia].
  - cbn [Leads.sync_each].
    fold (Spec.sync_call tag_names_of l).
    destruct (sync (Spec.sync_call tag_names_of l)) as [res|].
    + destruct (dict_has res "error").
      * destruct (IH {| Leads.success := Leads.success st;
                        Leads.failed := S (Leads.failed st);
                        Leads.sync_calls :=
                          (Leads.sync_calls st ++ [Spec.sync_call tag_names_of l])%list |})
          as (k & Hk & Hcalls & Hdone).
        exists (S k). cbn [Leads.sync_calls Leads.success Leads.failed] in *.
        split_and!; [simpl; lia| |].
        -- rewrite Hcalls. by rewrite <- app_assoc.
        -- intros Hc. destruct (Hdone Hc) as [-> Hsum]. split; [done|]. simpl. lia.
      * destruct (IH {| Leads.success := S (Leads.success st);
                        Leads.failed := Leads.failed st;
                        Leads.sync_calls :=
                          (Leads.sync_calls st ++ [Spec.sync_call tag_names_of l])%list |})
          as (k & Hk & Hcalls & Hdone).
        exists (S k). cbn [Leads.sync_calls Leads.success Leads.failed] in *.
        split_and!; [simpl; lia| |].
        -- rewrite Hcalls. by rewrite <- app_assoc.
        -- intros Hc. destruct (Hdone Hc) as [-> Hsum]. split; [done|]. simpl. lia.
    + exists 1%nat. cbn [fst snd Leads.sync_calls]. split_and!; [simpl; lia|done|done].
Qed.

End SyncPrefix.

(** Neither sync view writes to the database, and neither calls the
    collaborator for a lead it does not target, whatever the collaborator
    returns or raises: the calls of [send_to_mailchimp] are calls for
    selected leads, each with the lead's own tag names and none more
    often than the lead is selected; the calls of
    [send_tag_to_mailchimp] are none at all or calls for leads of the tag
    whose id the form names, each with that one tag name and none more
    often than the lead has the tag.  Nothing is said of the order of the
    calls, which is that of queries without an ordering. *)
Theorem sync_views_call_only_targets (sync : Leads.SyncCall → outcome dict) (db : DB)
    (request : HttpRequest) :
  let run1 := Leads.send_to_mailchimp sync db request in
  let run2 := Leads.send_tag_to_mailchimp sync db request in
  run_db run1 = db
  ∧ run_db run2 = db
  ∧ run_calls run1 ⊆+
      map (Spec.sync_call (λ l, map name (tags_of db l)))
          (Spec.selected_leads db (getlist (POST request) "selected_leads"))
  ∧ (run_calls run2 = []
     ∨ ∃ tag, tag ∈ tags db
         ∧ Py.int (or_empty (get (POST request) "tag_id")) = Some (tag_id tag)
         ∧ run_calls run2 ⊆+
             map (Spec.sync_call (λ _, [name tag])) (Spec.tagged_leads db tag)).
Proof.
  cbv zeta. split_and!.
  - unfold Leads.send_to_mailchimp.
    destruct (String.eqb _ _); [|done].
    destruct (getlist _ _); [done|].
    destruct (Leads.sync_each _ _ _ _) as [st c]. by destruct c.
  - unfold Leads.send_tag_to_mailchimp.
    destruct (negb (String.eqb _ _)); [done|].
    destruct (negb (nonempty _)); [done|].
    destruct (Py.int _); [|done].
    destruct (List.find _ _); [|done].
    destruct (List.filter _ _); [done|].
    destruct (Leads.sync_each _ _ _ _) as [st c]. by destruct c.
  - unfold Leads.send_to_mailchimp.
    destruct (String.eqb _ _); [|apply submseteq_nil_l].
    destruct (getlist (POST request) "selected_leads") as [|i ids] eqn:E;
      [apply submseteq_nil_l|].
    fold (Spec.selected_leads db (i :: ids)).
    destruct (sync_each_prefix sync (λ l, map name (tags_of db l))
                (Spec.selected_leads db (i :: ids)) Leads.sync_start)
      as (k & _ & Hcalls & _).
    destruct (Leads.sync_each _ _ _ _) as [st c].
    cbn [fst Leads.sync_start Leads.sync_calls app] in Hcalls.
    assert (Hsub : Leads.sync_calls st ⊆+
                     map (Spec.sync_call (λ l, map name (tags_of db l)))
                         (Spec.selected_leads db (i :: ids))).
    { rewrite Hcalls. apply sublist_submseteq, fmap_sublist, sublist_take. }
    destruct c; exact Hsub.
  - unfold Leads.send_tag_to_mailchimp.
    destruct (negb (String.eqb _ _)); [by left|].
    destruct (negb (nonempty _)); [by left|].
    destruct (Py.int _) as [pk|]; [|by left].
    destruct (List.find _ _) as [tag|] eqn:Efind; [|by left].
    apply find_some in Efind as [Hin Hid]. apply Z.eqb_eq in Hid.
    apply list_elem_of_In in Hin.
    fold (Spec.tagged_leads db tag).
    destruct (Spec.tagged_leads db tag) as [|l ls] eqn:E; [by left|].
    destruct (sync_each_prefix sync (λ _, [name tag]) (l :: ls) Leads.sync_start)
      as (k & _ & Hcalls & _).
    destruct (Leads.sync_each _ _ _ _) as [st c].
    cbn [fst Leads.sync_start Leads.sync_calls app] in Hcalls.
    assert (Hsub : Leads.sync_calls st ⊆+
                     map (Spec.sync_call (λ _, [name tag])) (l :: ls)).
    { rewrite Hcalls. apply sublist_submseteq, fmap_sublist, sublist_take. }
    right. exists tag. split_and!; [done|by rewrite Hid|].
    rewrite E. destruct c; exact Hsub.
Qed.

(** The guards of [send_tag_to_mailchimp], none of which reaches the
    collaborator: a request that is not a POST is redirected without a
    message; a POST without a tag id, or with an empty one, is answered
    "Please choose a tag."; an id that is no integer literal is an
    exception that leaves the view; an integer that is the id of no tag
    is a 404; and a tag that no lead has is answered with an
    information message naming the tag. *)
Theorem send_tag_to_mailchimp_guards (sync : Leads.SyncCall → outcome dict) (db : DB)
    (request : HttpRequest) :
  let run := Leads.send_tag_to_mailchimp sync db request in
  let raw := or_empty (get (POST request) "tag_id") in
  (method request ≠ "POST" →
   run = {| run_db := db; run_calls := []; run_result := Redirect "leads:lead_list" [] |})
  ∧ (method request = "POST" → raw = "" →
     run = {| run_db := db; run_calls := [];
              run_result := Redirect "leads:lead_list" [(ERROR, "Please choose a tag.")] |})
  ∧ (method request = "POST" → raw ≠ "" → Py.int raw = None →
     run = {| run_db := db; run_calls := []; run_result := Uncaught |})
  ∧ (∀ pk, method request = "POST" → raw ≠ "" → Py.int raw = Some pk →
       pk ∉ map tag_id (tags db) →
       run = {| run_db := db; run_calls := []; run_result := Http404 |})
  ∧ (∀ tag, method request = "POST" → raw ≠ "" →
       NoDup (map tag_id (tags db)) → tag ∈ tags db → Py.int raw = Some (tag_id tag) →
       (∀ l, l ∈ leads db → (lead_pk l, tag_id tag) ∉ lead_tags db) →
       run = {| run_db := db; run_calls := [];
                run_result := Redirect "leads:lead_list"
                  [(INFO, "No leads found with tag " +:+ dquote +:+ name tag +:+ dquote
                          +:+ ".")] |}).
Proof.
  cbv zeta. unfold Leads.send_tag_to_mailchimp. split_and!.
  - intros Hm. apply String.eqb_neq in Hm. by rewrite Hm.
  - intros -> ->. done.
  - intros -> Hne Hint. change (negb (String.eqb "POST" "POST")) with false. cbv iota.
    apply String.eqb_neq in Hne. unfold nonempty. rewrite Hne. cbn [negb].
    by rewrite Hint.
  - intros pk -> Hne Hint Hpk. change (negb (String.eqb "POST" "POST")) with false. cbv iota.
    apply String.eqb_neq in Hne. unfold nonempty. rewrite Hne. cbn [negb].
    rewrite Hint.
    destruct (List.find _ _) as [t|] eqn:Efind; [|done].
    apply find_some in Efind as [Hin Hid]. apply Z.eqb_eq in Hid. exfalso. apply Hpk.
    rewrite <- Hid. apply (list_elem_of_fmap_2 tag_id). by apply list_elem_of_In.
  - intros tag -> Hne Hnd Htag Hint Hnone.
    change (negb (String.eqb "POST" "POST")) with false. cbv iota.
    apply String.eqb_neq in Hne. unfold nonempty. rewrite Hne. cbn [negb].
    rewrite Hint.
    destruct (List.find _ _) as [t|] eqn:Efind.
    + apply find_some in Efind as [Hin Hid]. apply Z.eqb_eq in Hid.
      apply list_elem_of_In in Hin.
      assert (t = tag) as -> by exact (NoDup_key_inj tag_id (tags db) t tag Hnd Hin Htag Hid).
      rewrite filter_all_false; [done|].
      intros l Hl. apply bool_decide_eq_false_2. by apply Hnone.
    + exfalso. apply list_elem_of_In in Htag.
      pose proof (find_none _ _ Efind tag Htag) as H. simpl in H.
      by rewrite Z.eqb_refl in H.
Qed.
(** The five guards on sample requests. *)
Lemma send_tag_to_mailchimp_guards_witness :
  let untagged := set_lead_tags Sample.db3_vip [] in
  let vip := {| tag_id := 1; name := "vip" |} in
  Leads.send_tag_to_mailchimp Sample.sync_two_errors Sample.db3_vip
      (Sample.get_request [("tag_id", "1")]) =
    {| run_db := Sample.db3_vip; run_calls := [];
       run_result := Redirect "leads:lead_list" [] |}
  ∧ Leads.send_tag_to_mailchimp Sample.sync_two_errors Sample.db3_vip
      (Sample.post_request []) =
    {| run_db := Sample.db3_vip; run_calls := [];
       run_result := Redirect "leads:lead_list" [(ERROR, "Please choose a tag.")] |}
  ∧ Leads.send_tag_to_mailchimp Sample.sync_two_errors Sample.db3_vip
      (Sample.post_request [("tag_id", "vip")]) =
    {| run_db := Sample.db3_vip; run_calls := []; run_result := Uncaught |}
  ∧ Leads.send_tag_to_mailchimp Sample.sync_two_errors Sample.db3_vip
      (Sample.post_request [("tag_id", "2")]) =
    {| run_db := Sample.db3_vip; run_calls := []; run_result := Http404 |}
  ∧ Leads.send_tag_to_mailchimp Sample.sync_two_errors untagged
      (Sample.post_request [("tag_id", "1")]) =
    {| run_db := untagged; run_calls := [];
       run_result := Redirect "leads:lead_list"
         [(INFO, "No leads found with tag " +:+ dquote +:+ "vip" +:+ dquote +:+ ".")] |}.
Proof.
  intros untagged vip. split_and!.
  - apply (proj1 (send_tag_to_mailchimp_guards Sample.sync_two_errors Sample.db3_vip
                    (Sample.get_request [("tag_id", "1")]))).
    discriminate.
  - apply (proj1 (proj2 (send_tag_to_mailchimp_guards Sample.sync_two_errors Sample.db3_vip
                           (Sample.post_request [])))); reflexivity.
  - apply (proj1 (proj2 (proj2 (send_tag_to_mailchimp_guards Sample.sync_two_errors
                                  Sample.db3_vip
                                  (Sample.post_request [("tag_id", "vip")]))))).
    + reflexivity.
    + vm_compute. discriminate.
    + vm_compute. reflexivity.
  - apply (proj1 (proj2 (proj2 (proj2 (send_tag_to_mailchimp_guards Sample.sync_two_errors
                                         Sample.db3_vip
                                         (Sample.post_request [("tag_id", "2")]))))) 2).
    + reflexivity.
    + vm_compute. discriminate.
    + vm_compute. reflexivity.
    + vm_compute. intros H. apply list_elem_of_singleton in H. discriminate.
  - apply (proj2 (proj2 (proj2 (proj2 (send_tag_to_mailchimp_guards Sample.sync_two_errors
                                         untagged
                                         (Sample.post_request [("tag_id", "1")]))))) vip).
    + reflexivity.
    + vm_compute. discriminate.
    + vm_compute. apply NoDup_singleton.
    + vm_compute. apply list_elem_of_here.
    + vm_compute. reflexivity.
    + intros l _ H. vm_compute in H. by apply elem_of_nil in H.
Defined.

Lemma get_or_create_tag_ids (n : string) (db : DB) :
  NoDup (map tag_id (tags db)) → NoDup (map tag_id (tags (snd (get_or_create n db)))).
Proof.
  intros Hnd. unfold get_or_create.
  destruct (List.find _ (tags db)) as [t|]; [done|].
  cbn [snd set_tags tags]. rewrite map_app. apply NoDup_app.
  split_and!; [done| |apply NoDup_singleton].
  intros x Hx Hx'. simpl in Hx'. apply list_elem_of_singleton in Hx'. subst x.
  apply fold_max_bound in Hx. lia.
Qed.

Lemma find_by_id (ts : list LeadTag) (tag : LeadTag) :
  NoDup (map tag_id ts) → tag ∈ ts →
  List.find (λ t, tag_id t =? tag_id tag) ts = Some tag.
Proof.
  intros Hnd Hin.
  destruct (List.find _ ts) as [t|] eqn:E.
  - apply find_some in E as [Ht Hid]. apply Z.eqb_eq in Hid.
    apply list_elem_of_In in Ht.
    by rewrite (NoDup_key_inj tag_id ts t tag Hnd Ht Hin Hid).
  - apply list_elem_of_In in Hin. pose proof (find_none _ _ E tag Hin) as H. simpl in H.
    by rewrite Z.eqb_refl in H.
Qed.

(** Tagging, then syncing by tag.  After [bulk_apply_tag] has put a tag
    on a selection, a [send_tag_to_mailchimp] whose form names the id of
    that tag calls the collaborator for every lead of the selection, and
    every call it makes (one for each lead that has the tag, in whatever
    order) carries exactly the normalised tag name.  The tag ids of the
    table are distinct, and the collaborator returns for every call. *)
Theorem tag_then_sync_reaches_selection (sync : Leads.SyncCall → outcome dict) (db : DB)
    (tagging syncing : HttpRequest) (raw raw_id : string) (tag : LeadTag) :
  method tagging = "POST" →
  getlist (POST tagging) "selected_leads" ≠ [] →
  get (POST tagging) "tag_name" = Some raw →
  strip raw ≠ "" →
  NoDup (map tag_id (tags db)) →
  (∀ c, Spec.returns sync c = true) →
  let db' := run_db (Leads.bulk_apply_tag db tagging) in
  List.find (λ t, String.eqb (name t) (lower (strip raw))) (tags db') = Some tag →
  method syncing = "POST" →
  get (POST syncing) "tag_id" = Some raw_id →
  raw_id ≠ "" →
  Py.int raw_id = Some (tag_id tag) →
  let run := Leads.send_tag_to_mailchimp sync db' syncing in
  let call := Spec.sync_call (λ _, [lower (strip raw)]) in
  run_calls run ≡ₚ map call (Spec.tagged_leads db' tag)
  ∧ (∀ l, l ∈ leads db → lead_pk l ∈ getlist (POST tagging) "selected_leads" →
          call l ∈ run_calls run)
  ∧ run_db run = db'
  ∧ ∃ flashes, run_result run = Redirect "leads:lead_list" flashes.
Proof.
  intros Hm Hids Hraw Hne Hnd Hret db'. subst db'.
  rewrite (bulk_apply_tag_applies db tagging raw Hm Hids Hraw Hne). cbv zeta.
  cbn [run_db].
  destruct (get_or_create_spec (lower (strip raw)) db)
    as (Hname & Hfind & _ & _ & Hleads & _).
  pose proof (get_or_create_tag_ids (lower (strip raw)) db Hnd) as Hnd1.
  destruct (get_or_create (lower (strip raw)) db) as [tag1 db1] eqn:Ecreate.
  cbn [fst snd] in *.
  set (selected := List.filter (λ l, py_in (lead_pk l) (getlist (POST tagging) "selected_leads"))
                     (leads db)).
  destruct (apply_tag_loop tag1 selected db1 0)
    as (_ & _ & Hl & Ht & _ & Hnew & _ & _ & _).
  set (db2 := fst (fold_left (Leads.apply_tag tag1) selected (db1, 0%nat))) in *.
  intros Hfound Hpost Hid Hidne Hint. rewrite Ht, Hfind in Hfound.
  injection Hfound as <-.
  assert (Hin : tag1 ∈ tags db2).
  { rewrite Ht. apply list_elem_of_In. apply (find_some _ _ Hfind). }
  assert (Hfind_id : List.find (λ t, tag_id t =? tag_id tag1) (tags db2) = Some tag1).
  { apply find_by_id; [by rewrite Ht|done]. }
  assert (Htag_found :
            (pk ← Py.int raw_id; List.find (λ t, tag_id t =? pk) (tags db2)) = Some tag1).
  { rewrite Hint. exact Hfind_id. }
  assert (Hsel : ∀ l, l ∈ leads db →
                   lead_pk l ∈ getlist (POST tagging) "selected_leads" →
                   l ∈ Spec.tagged_leads db2 tag1).
  { intros l Hl0 Hpk. unfold Spec.tagged_leads.
    apply list_elem_of_In, filter_In. split.
    - apply list_elem_of_In. by rewrite Hl, Hleads.
    - apply bool_decide_eq_true_2. apply Hnew. unfold selected.
      apply list_elem_of_In, filter_In. split; [by apply list_elem_of_In|].
      by apply bool_decide_eq_true_2. }
  cbv zeta. rewrite <- Hname.
  destruct (Spec.tagged_leads db2 tag1) as [|l0 ls0] eqn:Etagged.
  - assert (Hrun : Leads.send_tag_to_mailchimp sync db2 syncing =
                     {| run_db := db2; run_calls := [];
                        run_result := Redirect "leads:lead_list"
                          [(INFO, "No leads found with tag " +:+ dquote +:+ name tag1
                                  +:+ dquote +:+ ".")] |}).
    { unfold Leads.send_tag_to_mailchimp. rewrite Hpost, Hid.
      change (negb (String.eqb "POST" "POST")) with false. cbv iota.
      change (or_empty (Some raw_id)) with raw_id.
      apply String.eqb_neq in Hidne. unfold nonempty. rewrite Hidne. cbn [negb].
      rewrite Hint, Hfind_id.
      fold (Spec.tagged_leads db2 tag1). by rewrite Etagged. }
    rewrite Hrun. cbn [run_calls run_db run_result]. split_and!; [done| |done|by eexists].
    intros l Hl0 Hpk. specialize (Hsel l Hl0 Hpk). by apply elem_of_nil in Hsel.
  - rewrite <- Etagged in *.
    assert (Hnonempty : Spec.tagged_leads db2 tag1 ≠ []) by (by rewrite Etagged).
    rewrite (send_tag_to_mailchimp_run sync db2 syncing Hpost raw_id tag1 Hid Hidne
               Htag_found Hnonempty).
    cbv zeta.
    rewrite (sync_each_returns sync (λ _, [name tag1]) (Spec.tagged_leads db2 tag1)
               Leads.sync_start).
    2:{ apply Forall_forall. intros x _. apply Hret. }
    cbn [fst snd run_calls run_db run_result Leads.sync_start Leads.sync_calls].
    split_and!; [done| |done|by eexists].
    intros l Hl0 Hpk. simpl. apply (list_elem_of_fmap_2 _). by apply Hsel.
Qed.

(** Two leads are tagged [ VIP ] and the tag, created under id 1, is then
    synced: both leads are called for with the tag name [vip]. *)
Lemma tag_then_sync_reaches_selection_witness :
  let tagging := Sample.post_request
    [("selected_leads", "ann@acme.io"); ("selected_leads", "bob@bolt.io");
     ("tag_name", " VIP ")] in
  let syncing := Sample.post_request [("tag_id", "1")] in
  let db' := run_db (Leads.bulk_apply_tag Sample.db3 tagging) in
  let run := Leads.send_tag_to_mailchimp Sample.sync_two_errors db' syncing in
  let call := Spec.sync_call (λ _, [lower (strip " VIP ")]) in
  run_calls run ≡ₚ map call (Spec.tagged_leads db' {| tag_id := 1; name := "vip" |})
  ∧ (∀ l, l ∈ leads Sample.db3 → lead_pk l ∈ getlist (POST tagging) "selected_leads" →
          call l ∈ run_calls run)
  ∧ run_db run = db'
  ∧ ∃ flashes, run_result run = Redirect "leads:lead_list" flashes.
Proof.
  intros tagging syncing.
  apply (tag_then_sync_reaches_selection Sample.sync_two_errors Sample.db3 tagging syncing
           " VIP " "1" {| tag_id := 1; name := "vip" |}).
  - reflexivity.
  - vm_compute. discriminate.
  - vm_compute. reflexivity.
  - vm_compute. discriminate.
  - vm_compute. apply NoDup_nil_2.
  - intros c. unfold Spec.returns, Sample.sync_two_errors. by destruct (String.eqb _ _).
  - vm_compute. reflexivity.
  - reflexivity.
  - vm_compute. reflexivity.
  - discriminate.
  - vm_compute. reflexivity.
Defined.

(** The tag name of the form is normalised before it is looked up: two
    POSTs with the same selection whose tag names differ only in letter
    case and surrounding white space have the same effect and the same
    message. *)
Theorem bulk_apply_tag_normalises_name (db : DB) (r1 r2 : HttpRequest) (raw1 raw2 : string) :
  method r1 = "POST" → method r2 = "POST" →
  getlist (POST r1) "selected_leads" = getlist (POST r2) "selected_leads" →
  getlist (POST r1) "selected_leads" ≠ [] →
  get (POST r1) "tag_name" = Some raw1 →
  get (POST r2) "tag_name" = Some raw2 →
  strip raw1 ≠ "" →
  lower (strip raw1) = lower (strip raw2) →
  Leads.bulk_apply_tag db r1 = Leads.bulk_apply_tag db r2.
Proof.
  intros Hm1 Hm2 Hsel Hne Hraw1 Hraw2 Hn1 Hlow.
  assert (Hn2 : strip raw2 ≠ "").
  { intros E. apply Hn1. apply lower_empty. rewrite Hlow. by apply lower_empty. }
  rewrite (bulk_apply_tag_applies db r1 raw1 Hm1 Hne Hraw1 Hn1).
  rewrite Hsel in Hne.
  rewrite (bulk_apply_tag_applies db r2 raw2 Hm2 Hne Hraw2 Hn2).
  cbv zeta. by rewrite Hsel, Hlow.
Qed.

Lemma bulk_apply_tag_normalises_name_witness :
  Leads.bulk_apply_tag Sample.db3
    (Sample.post_request [("selected_leads", "ann@acme.io"); ("tag_name", "  Key Account ")])
  = Leads.bulk_apply_tag Sample.db3
      (Sample.post_request [("selected_leads", "ann@acme.io"); ("tag_name", "KEY account")]).
Proof.
  apply (bulk_apply_tag_normalises_name Sample.db3 _ _ "  Key Account " "KEY account").
  - reflexivity.
  - reflexivity.
  - vm_compute. reflexivity.
  - vm_compute. discriminate.
  - vm_compute. reflexivity.
  - vm_compute. reflexivity.
  - vm_compute. discriminate.
  - vm_compute. reflexivity.
Defined.
(** ** The detail pages *)

Lemma sorted_pair {A} (R : A → A → Prop) (pre : list A) : ∀ a mid b post,
  StronglySorted R (pre ++ a :: mid ++ b :: post) → R a b.
Proof.
  induction pre as [|p pre IH]; intros a mid b post Hs.
  - apply StronglySorted_inv in Hs as [_ Hall]. rewrite Forall_forall in Hall.
    apply Hall. apply elem_of_app. right. apply list_elem_of_here.
  - apply StronglySorted_inv in Hs as [Hs _]. by apply (IH a mid b post).
Qed.

Lemma get_company_found (db : DB) (pk : string) (c : Company) :
  Pages.get_company db pk = Some c → c ∈ companies db ∧ domain c = pk.
Proof.
  intros H. apply find_some in H as [Hin Hd]. apply String.eqb_eq in Hd.
  split; [by apply list_elem_of_In|done].
Qed.

Lemma get_company_missing (db : DB) (pk : string) :
  Pages.get_company db pk = None ↔ pk ∉ map domain (companies db).
Proof.
  split.
  - intros H Hin. apply list_elem_of_fmap in Hin as (c & -> & Hc).
    apply list_elem_of_In in Hc. pose proof (find_none _ _ H c Hc) as E. simpl in E.
    by rewrite String.eqb_refl in E.
  - intros Hout. destruct (Pages.get_company db pk) as [c|] eqn:E; [|done].
    apply get_company_found in E as [Hin <-]. exfalso. apply Hout.
    by apply (list_elem_of_fmap_2 domain).
Qed.

(** [company_detail] answers 404 exactly for a key that is the domain of
    no company.  Otherwise it renders the company with that domain and
    its linked leads: the leads of the table whose company is this one,
    each as often as the table has it, as many as the [leads_count] the
    list view shows for the company, the higher score first and, among
    equal scores, the email that does not come later first. *)
Theorem company_detail_page (db : DB) (pk : string) :
  (Pages.company_detail db pk = Pages.NotFound ↔ pk ∉ map domain (companies db))
  ∧ (∀ tpl company ls,
       Pages.company_detail db pk = Pages.Rendered tpl (company, ls) →
       tpl = "companies/company_detail.html"
       ∧ company ∈ companies db
       ∧ domain company = pk
       ∧ ls ≡ₚ List.filter (λ l, bool_decide (Models.company l = Some pk)) (leads db)
       ∧ (∀ l, l ∈ ls ↔ l ∈ leads db ∧ Models.company l = Some pk)
       ∧ leads_count db company = PyInt (Z.of_nat (length ls))
       ∧ (∀ pre a mid b post, ls = (pre ++ a :: mid ++ b :: post)%list →
            sql_compare (lead_score a) (lead_score b) = Gt
            ∨ (sql_compare (lead_score a) (lead_score b) = Eq
               ∧ String.compare (email a) (email b) ≠ Gt))).
Proof.
  unfold Pages.company_detail. split.
  - rewrite <- get_company_missing. by destruct (Pages.get_company db pk).
  - intros tpl company ls H.
    destruct (Pages.get_company db pk) as [c|] eqn:E; [|done].
    injection H as <- <- <-.
    apply get_company_found in E as [Hin Hd]. unfold Pages.linked_leads.
    rewrite Hd.
    set (ts := [prefixed "-" lead_score; asc_ (λ l : Lead, PyStr (email l))]).
    set (rows := List.filter (λ l, bool_decide (Models.company l = Some pk)) (leads db)).
    destruct (order_by_sorted_perm ts rows) as [Hp Hs].
    split_and!; [done|done|done|exact Hp| | |].
    + intros l. rewrite Hp. unfold rows. rewrite list_elem_of_In, filter_In.
      rewrite <- list_elem_of_In. by rewrite bool_decide_eq_true.
    + unfold leads_count. rewrite Hd. fold rows. by rewrite (Permutation_length Hp).
    + intros pre a mid b post Hls. rewrite Hls in Hs.
      apply sorted_pair in Hs. unfold not_after, ts in Hs.
      cbn [compare_terms] in Hs. unfold compare_term, prefixed, asc_ in Hs.
      cbn [desc expr] in Hs.
      change (String.eqb "-" "-") with true in Hs. cbv iota in Hs.
      change (sql_compare (PyStr (email a)) (PyStr (email b)))
        with (String.compare (email a) (email b)) in Hs.
      destruct (sql_compare (lead_score a) (lead_score b)); cbn [CompOpp] in Hs.
      * right. split; [done|]. intros Hgt. apply Hs. by rewrite Hgt.
      * done.
      * by left.
Qed.

(** The page of [acme.io] in the sample, and the 404 of a domain that is
    not there. *)
Lemma company_detail_page_witness :
  Pages.company_detail Sample.db3 "nowhere.io" = Pages.NotFound
  ∧ Pages.company_detail Sample.db3 "acme.io" =
      Pages.Rendered "companies/company_detail.html" (Sample.acme, [Sample.ann])
  ∧ leads_count Sample.db3 Sample.acme = PyInt 1.
Proof.
  split_and!.
  - apply (proj1 (company_detail_page Sample.db3 "nowhere.io")).
    vm_compute. intros H. repeat (apply elem_of_cons in H as [H|H]; [discriminate|]).
    by apply elem_of_nil in H.
  - vm_compute. reflexivity.
  - apply (proj2 (company_detail_page Sample.db3 "acme.io")
             "companies/company_detail.html" Sample.acme [Sample.ann]).
    vm_compute. reflexivity.
Defined.

(** The linked leads of the detail page come in one order only: with
    emails that are unique, the page is the same whatever order the
    tables hold their rows in. *)
Theorem company_detail_order_fixed (db : DB) (cs : list Company) (ls : list Lead)
    (pk : string) :
  NoDup (map domain (companies db)) →
  NoDup (map email (leads db)) →
  companies db ≡ₚ cs →
  leads db ≡ₚ ls →
  Pages.company_detail (set_leads (set_companies db cs) ls) pk = Pages.company_detail db pk.
Proof.
  intros Hndc Hndl Hpc Hpl. unfold Pages.company_detail.
  assert (Hget : Pages.get_company (set_leads (set_companies db cs) ls) pk =
                 Pages.get_company db pk).
  { unfold Pages.get_company. cbn [set_leads set_companies companies].
    destruct (List.find _ (companies db)) as [c|] eqn:E.
    - apply find_some in E as [Hin Hd].
      destruct (List.find _ cs) as [c'|] eqn:E'.
      + apply find_some in E' as [Hin' Hd'].
        apply String.eqb_eq in Hd, Hd'. f_equal.
        apply (NoDup_key_inj domain (companies db)); [done| |by apply list_elem_of_In|congruence].
        rewrite Hpc. by apply list_elem_of_In.
      + apply list_elem_of_In in Hin. rewrite Hpc in Hin. apply list_elem_of_In in Hin.
        pose proof (find_none _ _ E' c Hin) as H. simpl in H. congruence.
    - destruct (List.find _ cs) as [c'|] eqn:E'; [|done].
      apply find_some in E' as [Hin' Hd'].
      apply list_elem_of_In in Hin'. rewrite <- Hpc in Hin'. apply list_elem_of_In in Hin'.
      pose proof (find_none _ _ E c' Hin') as H. simpl in H. congruence. }
  rewrite Hget. destruct (Pages.get_company db pk) as [c|]; [|done].
  do 2 f_equal. unfold Pages.linked_leads. cbn [set_leads leads].
  symmetry. apply order_by_deterministic.
  - by apply filter_perm.
  - intros x y Hx Hy Htie.
    apply elem_of_filter_list in Hx, Hy.
    apply (NoDup_key_inj email (leads db)); [done|done|done|].
    cbn [compare_terms] in Htie. unfold compare_term, prefixed, asc_ in Htie.
    cbn [desc expr] in Htie.
    change (String.eqb "-" "-") with true in Htie. cbv iota in Htie.
    change (sql_compare (PyStr (email x)) (PyStr (email y)))
      with (String.compare (email x) (email y)) in Htie.
    destruct (CompOpp _); [|done|done].
    destruct (String.compare (email x) (email y)) eqn:Ec; [|done|done].
    by apply String.compare_eq_iff.
Qed.

Lemma company_detail_order_fixed_witness :
  Pages.company_detail
    (set_leads (set_companies Sample.db3 [Sample.core; Sample.acme; Sample.bolt])
               [Sample.cyd; Sample.bob; Sample.ann]) "bolt.io"
  = Pages.company_detail Sample.db3 "bolt.io".
Proof.
  apply (company_detail_order_fixed Sample.db3).
  - apply (bool_decide_unpack _). vm_compute. exact I.
  - apply (bool_decide_unpack _). vm_compute. exact I.
  - change (companies Sample.db3) with [Sample.acme; Sample.bolt; Sample.core].
    symmetry. apply (Permutation_cons_append [Sample.acme; Sample.bolt] Sample.core).
  - change (leads Sample.db3) with [Sample.ann; Sample.bob; Sample.cyd].
    apply (Permutation_rev [Sample.ann; Sample.bob; Sample.cyd]).
Defined.
(** ** The rows a list view can show *)

Lemma company_ordered_perm (db : DB) (request : HttpRequest) :
  Companies.ordered db request ≡ₚ Companies.filtered db request.
Proof.
  destruct (decide (lower (strip (or_empty (get (GET request) "sort")))
                    ∈ Companies.allowed_sort_keys)) as [Hin|Hout].
  - destruct (company_ordered_known_key db request _ eq_refl Hin) as [_ ->].
    apply order_by_sorted_perm.
  - destruct (company_ordered_unknown_key db request Hout) as [_ ->].
    apply order_by_sorted_perm.
Qed.

Lemma lead_ordered_perm (db : DB) (request : HttpRequest) :
  Leads.ordered db request ≡ₚ Leads.filtered db request.
Proof.
  destruct (decide (lower (strip (or_empty (get (GET request) "sort")))
                    ∈ Leads.allowed_sort_keys)) as [Hin|Hout].
  - destruct (lead_ordered_known_key db request _ eq_refl Hin) as [_ ->].
    apply order_by_sorted_perm.
  - by destruct (lead_ordered_unknown_key db request Hout) as [_ ->].
Qed.

Lemma company_ordered_in_table (db : DB) (request : HttpRequest) (c : Company) :
  c ∈ Companies.ordered db request → c ∈ companies db.
Proof.
  rewrite company_ordered_perm. unfold Companies.filtered.
  destruct (nonempty _); [apply elem_of_filter_list|done].
Qed.

Lemma lead_ordered_in_table (db : DB) (request : HttpRequest) (l : Lead) :
  l ∈ Leads.ordered db request → l ∈ leads db.
Proof.
  rewrite lead_ordered_perm. unfold Leads.filtered. intros H.
  destruct (nonempty (strip (get_or (GET request) "search" "")));
    [apply elem_of_filter_list in H|];
    (destruct (nonempty (strip (get_or (GET request) "company" "")));
       [by apply elem_of_filter_list in H|done]).
Qed.

Lemma get_lead_found (db : DB) (pk : string) (l : Lead) :
  Pages.get_lead db pk = Some l → l ∈ leads db ∧ lead_pk l = pk.
Proof.
  intros H. apply find_some in H as [Hin Hd]. apply String.eqb_eq in Hd.
  split; [by apply list_elem_of_In|done].
Qed.

Lemma get_lead_missing (db : DB) (pk : string) :
  Pages.get_lead db pk = None ↔ pk ∉ map lead_pk (leads db).
Proof.
  split.
  - intros H Hin. apply list_elem_of_fmap in Hin as (c & -> & Hc).
    apply list_elem_of_In in Hc. pose proof (find_none _ _ H c Hc) as E. simpl in E.
    by rewrite String.eqb_refl in E.
  - intros Hout. destruct (Pages.get_lead db pk) as [c|] eqn:E; [|done].
    apply get_lead_found in E as [Hin <-]. exfalso. apply Hout.
    by apply (list_elem_of_fmap_2 lead_pk).
Qed.

Lemma delete_lead_leads (db : DB) (lead l : Lead) :
  l ∈ leads (Pages.delete_lead lead db) ↔ l ∈ leads db ∧ lead_pk l ≠ lead_pk lead.
Proof.
  unfold Pages.delete_lead. cbn [leads].
  rewrite list_elem_of_In, filter_In, <- list_elem_of_In.
  by rewrite negb_true_iff, String.eqb_neq.
Qed.

Lemma delete_lead_lead_tags (db : DB) (lead : Lead) (x : string * Z) :
  x ∈ lead_tags (Pages.delete_lead lead db) ↔ x ∈ lead_tags db ∧ fst x ≠ lead_pk lead.
Proof.
  unfold Pages.delete_lead. cbn [lead_tags].
  rewrite list_elem_of_In, filter_In, <- list_elem_of_In.
  by rewrite negb_true_iff, String.eqb_neq.
Qed.

Lemma filter_length_lt {A} (p : A → bool) (l : list A) (x : A) :
  x ∈ l → p x = false → (length (List.filter p l) < length l)%nat.
Proof.
  induction l as [|a l IH]; intros Hx Hp; [by apply elem_of_nil in Hx|].
  simpl. apply elem_of_cons in Hx as [<-|Hx].
  - rewrite Hp. pose proof (List.filter_length_le p l). lia.
  - specialize (IH Hx Hp). destruct (p a); simpl; lia.
Qed.

(** [lead_detail] and [lead_delete].  Both answer 404 exactly for a key
    that no lead has, and [lead_delete] then leaves the database alone, as
    it does for every request that is not a POST.  A POST for a lead that
    is there removes the lead and its tag associations and nothing else:
    companies and tags stay, every other lead and association stays, the
    table is shorter, no association is left without its lead if none was
    before, the lead is on no page of the lead list, and from then on both
    views answer 404 for the key. *)
Theorem lead_delete_effect (db : DB) (request : HttpRequest) (pk : string) :
  let r := Pages.lead_delete db request pk in
  (Pages.lead_detail db pk = Pages.NotFound ↔ pk ∉ map lead_pk (leads db))
  ∧ (pk ∉ map lead_pk (leads db) → r = (db, Pages.NotFound))
  ∧ (method request ≠ "POST" → fst r = db)
  ∧ (method request = "POST" → pk ∈ map lead_pk (leads db) →
       let db' := fst r in
       snd r = Pages.Redirected "leads:lead_list" []
                 [(SUCCESS, "Lead deleted successfully.")]
       ∧ companies db' = companies db
       ∧ tags db' = tags db
       ∧ (∀ l, l ∈ leads db' ↔ l ∈ leads db ∧ lead_pk l ≠ pk)
       ∧ (∀ x, x ∈ lead_tags db' ↔ x ∈ lead_tags db ∧ fst x ≠ pk)
       ∧ (length (leads db') < length (leads db))%nat
       ∧ ((∀ x, x ∈ lead_tags db → fst x ∈ map lead_pk (leads db)) →
          ∀ x, x ∈ lead_tags db' → fst x ∈ map lead_pk (leads db'))
       ∧ (∀ listing l, l ∈ Leads.ordered db' listing → lead_pk l ≠ pk)
       ∧ Pages.lead_detail db' pk = Pages.NotFound
       ∧ Pages.lead_delete db' request pk = (db', Pages.NotFound)).
Proof.
  cbv zeta. unfold Pages.lead_delete, Pages.lead_detail. split_and!.
  - rewrite <- get_lead_missing. by destruct (Pages.get_lead db pk).
  - intros Hout. apply get_lead_missing in Hout. by rewrite Hout.
  - intros Hm. apply String.eqb_neq in Hm. rewrite Hm.
    by destruct (Pages.get_lead db pk).
  - intros Hm Hin. rewrite Hm. change (String.eqb "POST" "POST") with true. cbv iota.
    destruct (Pages.get_lead db pk) as [lead|] eqn:E.
    2:{ apply get_lead_missing in E. by destruct E. }
    apply get_lead_found in E as [Hlead Hpk]. cbn [fst snd].
    assert (Hgone : Pages.get_lead (Pages.delete_lead lead db) pk = None).
    { apply get_lead_missing. intros H. apply list_elem_of_fmap in H as (l & Hl & Hl').
      apply delete_lead_leads in Hl' as [_ Hne]. congruence. }
    split_and!.
    + done.
    + done.
    + done.
    + intros l. rewrite <- Hpk. apply delete_lead_leads.
    + intros x. rewrite <- Hpk. apply delete_lead_lead_tags.
    + unfold Pages.delete_lead. cbn [leads]. apply (filter_length_lt _ _ lead Hlead).
      by rewrite String.eqb_refl.
    + intros Href x Hx. apply delete_lead_lead_tags in Hx as [Hx Hne].
      specialize (Href x Hx). apply list_elem_of_fmap in Href as (l & Hl & Hl').
      rewrite Hl. apply (list_elem_of_fmap_2 lead_pk). apply delete_lead_leads.
      split; [done|]. by rewrite <- Hl.
    + intros listing l Hl. apply lead_ordered_in_table, delete_lead_leads in Hl as [_ Hne].
      by rewrite <- Hpk.
    + by rewrite Hgone.
    + by rewrite Hgone.
Qed.

(** Deleting [bob@bolt.io] from the sample with its tag association. *)
Lemma lead_delete_effect_witness :
  let r := Pages.lead_delete Sample.db3_vip (Sample.post_request []) "bob@bolt.io" in
  leads (fst r) = [Sample.ann; Sample.cyd]
  ∧ lead_tags (fst r) = [("ann@acme.io", 1); ("cyd@core.io", 1)]
  ∧ Pages.lead_detail (fst r) "bob@bolt.io" = Pages.NotFound
  ∧ Pages.lead_delete Sample.db3_vip (Sample.post_request []) "eve@x.io"
    = (Sample.db3_vip, Pages.NotFound).
Proof.
  pose proof (lead_delete_effect Sample.db3_vip (Sample.post_request []) "bob@bolt.io")
    as (_ & _ & _ & Hpost).
  pose proof (lead_delete_effect Sample.db3_vip (Sample.post_request []) "eve@x.io")
    as (_ & Hmissing & _).
  cbv zeta in *.
  assert (Hin : "bob@bolt.io" ∈ map lead_pk (leads Sample.db3_vip)).
  { apply (bool_decide_unpack _). vm_compute. exact I. }
  assert (Hout : "eve@x.io" ∉ map lead_pk (leads Sample.db3_vip)).
  { apply (bool_decide_unpack _). vm_compute. exact I. }
  destruct (Hpost eq_refl Hin) as (_ & _ & _ & _ & _ & _ & _ & _ & Hdetail & _).
  split_and!; [vm_compute; reflexivity|vm_compute; reflexivity|exact Hdetail|].
  exact (Hmissing Hout).
Defined.

(** [clear_leads].  A request that is not a POST changes nothing and says
    nothing.  A POST empties the leads, the companies and the tag
    associations and keeps the tags, and reports how many leads and
    companies there were; after it both list views show no row on their
    one page whatever the query, both detail views answer 404, neither
    sync view has a lead to call for, and a second POST reports nought
    and nought. *)
Theorem clear_leads_effect (db : DB) (request : HttpRequest) :
  let r := Pages.clear_leads db request in
  let db' := fst r in
  (method request ≠ "POST" → r = (db, Pages.Redirected "leads:lead_list" [] []))
  ∧ (method request = "POST" →
       leads db' = [] ∧ companies db' = [] ∧ lead_tags db' = [] ∧ tags db' = tags db
       ∧ snd r = Pages.Redirected "leads:lead_list" []
           [(SUCCESS, "Successfully deleted " +:+ pretty (length (leads db)) +:+ " leads and "
                      +:+ pretty (length (companies db)) +:+ " companies.")]
       ∧ (∀ listing,
            object_list (Companies.page_obj (Companies.company_list db' listing)) = []
            ∧ Companies.total_companies (Companies.company_list db' listing) = 0%nat
            ∧ object_list (Leads.page_obj (Leads.lead_list db' listing)) = []
            ∧ Leads.total_leads (Leads.lead_list db' listing) = 0%nat)
       ∧ (∀ pk, Pages.company_detail db' pk = Pages.NotFound
                ∧ Pages.lead_detail db' pk = Pages.NotFound)
       ∧ (∀ sync form, run_calls (Leads.send_to_mailchimp sync db' form) = []
                       ∧ run_calls (Leads.send_tag_to_mailchimp sync db' form) = [])
       ∧ Pages.clear_leads db' request =
           (db', Pages.Redirected "leads:lead_list" []
                   [(SUCCESS, "Successfully deleted 0 leads and 0 companies.")])).
Proof.
  cbv zeta. unfold Pages.clear_leads. split.
  - intros Hm. apply String.eqb_neq in Hm. by rewrite Hm.
  - intros Hm. rewrite Hm. change (String.eqb "POST" "POST") with true. cbv iota.
    cbn [fst snd leads companies lead_tags tags].
    set (db' := {| companies := []; leads := []; tags := tags db; lead_tags := [] |}).
    assert (Hco : ∀ listing, Companies.ordered db' listing = []).
    { intros listing. apply Permutation_nil_r. rewrite company_ordered_perm.
      unfold Companies.filtered. by destruct (nonempty _). }
    assert (Hlo : ∀ listing, Leads.ordered db' listing = []).
    { intros listing. apply Permutation_nil_r. rewrite lead_ordered_perm.
      unfold Leads.filtered.
      by destruct (nonempty (strip (get_or (GET listing) "search" ""))),
                  (nonempty (strip (get_or (GET listing) "company" ""))). }
    split_and!; try done.
    + intros listing. split_and!.
      * rewrite company_list_page, Hco.
        destruct (get_page_object_list (@nil Company)
                    (strip (or_empty (get (GET listing) "page")))) as [-> _].
        by rewrite skipn_nil.
      * unfold Companies.company_list. cbn [Companies.total_companies].
        by destruct (nonempty _).
      * rewrite lead_list_page, Hlo.
        destruct (get_page_object_list (@nil Lead)
                    (strip (get_or (GET listing) "page" ""))) as [-> _].
        by rewrite skipn_nil.
      * unfold Leads.lead_list. cbn [Leads.total_leads].
        by destruct (nonempty (strip (get_or (GET listing) "search" ""))),
                    (nonempty (strip (get_or (GET listing) "company" ""))).
    + intros sync form. split.
      * unfold Leads.send_to_mailchimp.
        destruct (String.eqb _ _); [|done]. by destruct (getlist _ _).
      * unfold Leads.send_tag_to_mailchimp.
        destruct (negb (String.eqb _ _)); [done|].
        destruct (negb (nonempty _)); [done|].
        destruct (Py.int _); [|done].
        by destruct (List.find _ _).
Qed.

Lemma clear_leads_effect_witness :
  let r := Pages.clear_leads Sample.db3_vip (Sample.post_request []) in
  snd r = Pages.Redirected "leads:lead_list" []
            [(SUCCESS, "Successfully deleted 3 leads and 3 companies.")]
  ∧ fst r = {| companies := []; leads := []; tags := [{| tag_id := 1; name := "vip" |}];
               lead_tags := [] |}
  ∧ Pages.clear_leads Sample.db3_vip (Sample.get_request [])
    = (Sample.db3_vip, Pages.Redirected "leads:lead_list" [] []).
Proof.
  pose proof (clear_leads_effect Sample.db3_vip (Sample.post_request [])) as [_ Hpost].
  pose proof (clear_leads_effect Sample.db3_vip (Sample.get_request [])) as [Hget _].
  cbv zeta in *.
  destruct (Hpost eq_refl) as (_ & _ & _ & _ & Hmsg & _).
  split_and!; [exact Hmsg|vm_compute; reflexivity|].
  apply Hget. discriminate.
Defined.
(** ** The notes of a company *)

Lemma get_note_found (notes : list Pages.CompanyNote) (id : Z) (company : Company)
    (n : Pages.CompanyNote) :
  Pages.get_note notes id company = Some n →
  n ∈ notes ∧ Pages.note_id n = id ∧ Pages.note_company n = domain company.
Proof.
  intros H. apply find_some in H as [Hin Hn]. apply andb_true_iff in Hn as [Hid Hco].
  apply Z.eqb_eq in Hid. apply String.eqb_eq in Hco.
  split_and!; [by apply list_elem_of_In|done|done].
Qed.

Lemma get_note_by_id (notes : list Pages.CompanyNote) (company : Company)
    (note : Pages.CompanyNote) :
  NoDup (map Pages.note_id notes) → note ∈ notes →
  Pages.note_company note = domain company →
  Pages.get_note notes (Pages.note_id note) company = Some note.
Proof.
  intros Hnd Hin Hco.
  destruct (Pages.get_note notes (Pages.note_id note) company) as [n|] eqn:E.
  - apply get_note_found in E as (Hn & Hid & _).
    by rewrite (NoDup_key_inj Pages.note_id notes n note Hnd Hn Hin Hid).
  - apply list_elem_of_In in Hin. pose proof (find_none _ _ E note Hin) as H. simpl in H.
    by rewrite Z.eqb_refl, Hco, String.eqb_refl in H.
Qed.

Lemma notes_of_elem (notes : list Pages.CompanyNote) (company : Company)
    (n : Pages.CompanyNote) :
  n ∈ Pages.notes_of notes company ↔ n ∈ notes ∧ Pages.note_company n = domain company.
Proof.
  unfold Pages.notes_of.
  destruct (order_by_sorted_perm [prefixed "-" (λ n, PyInt (Pages.created_at n))]
              (List.filter (λ n, String.eqb (Pages.note_company n) (domain company)) notes))
    as [Hp _].
  rewrite Hp.
  rewrite list_elem_of_In, filter_In, <- list_elem_of_In. by rewrite String.eqb_eq.
Qed.

Lemma notes_of_newest_first (notes : list Pages.CompanyNote) (company : Company)
    (pre mid post : list Pages.CompanyNote) (a b : Pages.CompanyNote) :
  Pages.notes_of notes company = (pre ++ a :: mid ++ b :: post)%list →
  Pages.created_at b ≤ Pages.created_at a.
Proof.
  unfold Pages.notes_of. intros H.
  destruct (order_by_sorted_perm [prefixed "-" (λ n, PyInt (Pages.created_at n))]
              (List.filter (λ n, String.eqb (Pages.note_company n) (domain company)) notes))
    as [_ Hs].
  rewrite H in Hs. apply sorted_pair in Hs. unfold not_after in Hs.
  cbn [compare_terms] in Hs. unfold compare_term, prefixed in Hs. cbn [desc expr] in Hs.
  change (String.eqb "-" "-") with true in Hs. cbv iota in Hs.
  change (sql_compare (PyInt (Pages.created_at a)) (PyInt (Pages.created_at b)))
    with (Z.compare (Pages.created_at a) (Pages.created_at b)) in Hs.
  destruct (Z.compare_spec (Pages.created_at a) (Pages.created_at b)) as [E|E|E];
    [lia| |lia].
  exfalso. by apply Hs.
Qed.

(** The note views are scoped to the company of the URL.  When no note
    with the given id belongs to the company with the given domain (be it
    that the company, or the note, does not exist, or that the note is
    another company's), [company_note_update] and [company_note_delete]
    answer 404 and write nothing, whatever the request and the form. *)
Theorem company_note_views_scoped (form : QueryDict → option string)
    (notes : list Pages.CompanyNote) (db : DB) (request : HttpRequest) (pk : string) (id : Z) :
  (pk ∈ map domain (companies db) →
   ∀ n, n ∈ notes → Pages.note_id n = id → Pages.note_company n ≠ pk) →
  Pages.company_note_update form notes db request pk id = (notes, Pages.NotFound)
  ∧ Pages.company_note_delete notes db request pk id = (notes, Pages.NotFound).
Proof.
  intros Hscope. unfold Pages.company_note_update, Pages.company_note_delete.
  destruct (Pages.get_company db pk) as [company|] eqn:E; [|done].
  apply get_company_found in E as [Hin Hd].
  destruct (Pages.get_note notes id company) as [n|] eqn:En; [|done].
  apply get_note_found in En as (Hn & Hid & Hco).
  exfalso. apply (Hscope (eq_ind _ (λ d, d ∈ map domain (companies db))
                            (list_elem_of_fmap_2 domain _ _ Hin) _ Hd) n Hn Hid).
  by rewrite Hco.
Qed.

Lemma company_note_views_scoped_witness :
  let notes := [{| Pages.note_id := 7; Pages.note_company := "bolt.io";
                   Pages.note_body := "call back"; Pages.created_at := 100 |}] in
  Pages.company_note_update (λ q, get q "body") notes Sample.db3
    (Sample.post_request [("body", "mine now")]) "acme.io" 7 = (notes, Pages.NotFound)
  ∧ Pages.company_note_delete notes Sample.db3 (Sample.post_request []) "acme.io" 7
    = (notes, Pages.NotFound).
Proof.
  intros notes. split.
  - apply (company_note_views_scoped (λ q, get q "body") notes Sample.db3
             (Sample.post_request [("body", "mine now")]) "acme.io" 7).
    intros _ n Hn _. apply list_elem_of_singleton in Hn. by subst n.
  - apply (company_note_views_scoped (λ q, get q "body") notes Sample.db3
             (Sample.post_request []) "acme.io" 7).
    intros _ n Hn _. apply list_elem_of_singleton in Hn. by subst n.
Defined.

(** [company_note_delete] for a note of the company (note ids being
    unique).  A POST removes that note and no other, and redirects to the
    notes of the company; asking again is then a 404.  Any other request
    shows the confirmation page for the note and writes nothing. *)
Theorem company_note_delete_effect (notes : list Pages.CompanyNote) (db : DB)
    (request : HttpRequest) (pk : string) (note : Pages.CompanyNote) :
  NoDup (map Pages.note_id notes) →
  pk ∈ map domain (companies db) →
  note ∈ notes →
  Pages.note_company note = pk →
  let r := Pages.company_note_delete notes db request pk (Pages.note_id note) in
  (method request = "POST" →
     snd r = Pages.Redirected "companies:company_notes" [pk]
               [(SUCCESS, "Note deleted successfully.")]
     ∧ (∀ n, n ∈ fst r ↔ n ∈ notes ∧ n ≠ note)
     ∧ (length (fst r) < length notes)%nat
     ∧ Pages.company_note_delete (fst r) db request pk (Pages.note_id note)
       = (fst r, Pages.NotFound))
  ∧ (method request ≠ "POST" →
       fst r = notes
       ∧ ∃ company, domain company = pk
           ∧ snd r = Pages.Rendered "companies/company_note_confirm_delete.html"
                       (company, note)).
Proof.
  intros Hnd Hpk Hin Hco. cbv zeta. unfold Pages.company_note_delete.
  destruct (Pages.get_company db pk) as [company|] eqn:E.
  2:{ apply get_company_missing in E. by destruct E. }
  apply get_company_found in E as [Hcin Hd].
  rewrite (get_note_by_id notes company note Hnd Hin) by congruence.
  split.
  - intros ->. change (String.eqb "POST" "POST") with true. cbv iota. cbn [fst snd].
    set (rest := List.filter (λ n, negb (Pages.note_id n =? Pages.note_id note)) notes).
    assert (Hrest : ∀ n, n ∈ rest ↔ n ∈ notes ∧ n ≠ note).
    { intros n. unfold rest. rewrite list_elem_of_In, filter_In, <- list_elem_of_In.
      rewrite negb_true_iff, Z.eqb_neq. split; intros [Hn Hne]; (split; [done|]).
      - intros ->. by apply Hne.
      - intros Hid. apply Hne. by apply (NoDup_key_inj Pages.note_id notes). }
    split_and!.
    + by rewrite Hd.
    + exact Hrest.
    + apply (filter_length_lt _ _ note Hin). by rewrite Z.eqb_refl.
    + destruct (Pages.get_note rest (Pages.note_id note) company) as [n|] eqn:En; [|done].
      apply get_note_found in En as (Hn & Hid & _).
      apply Hrest in Hn as [Hn Hne]. exfalso. apply Hne.
      by apply (NoDup_key_inj Pages.note_id notes).
  - intros Hm. apply String.eqb_neq in Hm. rewrite Hm. cbn [fst snd].
    split; [done|]. by exists company.
Qed.

Lemma company_note_delete_effect_witness :
  let mine := {| Pages.note_id := 7; Pages.note_company := "bolt.io";
                 Pages.note_body := "call back"; Pages.created_at := 100 |} in
  let other := {| Pages.note_id := 8; Pages.note_company := "acme.io";
                  Pages.note_body := "met at fair"; Pages.created_at := 90 |} in
  Pages.company_note_delete [mine; other] Sample.db3 (Sample.post_request []) "bolt.io" 7
  = ([other], Pages.Redirected "companies:company_notes" ["bolt.io"]
                [(SUCCESS, "Note deleted successfully.")])
  ∧ (length (fst (Pages.company_note_delete [mine; other] Sample.db3
                    (Sample.post_request []) "bolt.io" 7)) < 2)%nat.
Proof.
  intros mine other. split; [vm_compute; reflexivity|].
  assert (Hnd : NoDup (map Pages.note_id [mine; other])).
  { apply (bool_decide_unpack _). vm_compute. exact I. }
  assert (Hpk : "bolt.io" ∈ map domain (companies Sample.db3)).
  { apply (bool_decide_unpack _). vm_compute. exact I. }
  assert (Hin : mine ∈ [mine; other]) by apply list_elem_of_here.
  destruct (company_note_delete_effect [mine; other] Sample.db3 (Sample.post_request [])
              "bolt.io" mine Hnd Hpk Hin eq_refl) as [Hpost _].
  destruct (Hpost eq_refl) as (_ & _ & Hlen & _). exact Hlen.
Defined.

(** [company_notes].  An unknown domain is a 404.  Whenever the page is
    rendered nothing was written, and the notes on it are those of the
    company of the URL and no other company's, the newer before the
    older.  A POST the form accepts adds one note, owned by the company
    of the URL whatever the form held, under an id no note had, keeps
    every note there was, and redirects to the notes of the company,
    where the next page that is rendered lists the new note. *)
Theorem company_notes_page (form : QueryDict → option string)
    (notes : list Pages.CompanyNote) (db : DB) (request : HttpRequest) (pk : string)
    (now : Z) :
  let r := Pages.company_notes form notes db request pk now in
  (Pages.get_company db pk = None → r = (notes, Pages.NotFound))
  ∧ (∀ tpl ctx, snd r = Pages.Rendered tpl ctx →
       fst r = notes
       ∧ domain (Pages.ctx_company ctx) = pk
       ∧ (∀ n, n ∈ Pages.ctx_notes ctx ↔ n ∈ notes ∧ Pages.note_company n = pk)
       ∧ (∀ pre a mid b post,
            Pages.ctx_notes ctx = (pre ++ a :: mid ++ b :: post)%list →
            Pages.created_at b ≤ Pages.created_at a))
  ∧ (∀ body, method request = "POST" → pk ∈ map domain (companies db) →
       form (POST request) = Some body →
       snd r = Pages.Redirected "companies:company_notes" [pk]
                 [(SUCCESS, "Note added successfully.")]
       ∧ ∃ note, fst r = (notes ++ [note])%list
           ∧ Pages.note_company note = pk
           ∧ Pages.note_body note = body
           ∧ (Pages.note_id note ∉ map Pages.note_id notes)
           ∧ (∀ next later tpl ctx,
                snd (Pages.company_notes form (fst r) db next pk later)
                  = Pages.Rendered tpl ctx →
                note ∈ Pages.ctx_notes ctx)).
Proof.
  cbv zeta. unfold Pages.company_notes. split_and!.
  - by intros ->.
  - intros tpl ctx H.
    destruct (Pages.get_company db pk) as [company|] eqn:E; [|done].
    apply get_company_found in E as [Hcin Hd].
    destruct (String.eqb (method request) "POST");
      [destruct (form (POST request)); [done|]|];
      cbn [fst snd] in *; injection H as <- <-; cbn [Pages.ctx_company Pages.ctx_notes];
      (split_and!; [done|done| |]).
    + intros n. by rewrite notes_of_elem, Hd.
    + intros pre a mid b post. apply notes_of_newest_first.
    + intros n. by rewrite notes_of_elem, Hd.
    + intros pre a mid b post. apply notes_of_newest_first.
  - intros body -> Hpk Hform.
    destruct (Pages.get_company db pk) as [company|] eqn:E.
    2:{ apply get_company_missing in E. by destruct E. }
    apply get_company_found in E as E'. destruct E' as [Hcin Hd].
    change (String.eqb "POST" "POST") with true. cbv iota. rewrite Hform. cbn [fst snd].
    split; [by rewrite Hd|].
    eexists. split; [reflexivity|]. cbn [Pages.note_company Pages.note_body
                                         Pages.created_at Pages.note_id].
    split_and!; [done|done| |].
    + intros Hin. apply fold_max_bound in Hin. lia.
    + intros next later tpl ctx H.
      destruct (String.eqb (method next) "POST");
        [destruct (form (POST next)); [done|]|];
        cbn [fst snd] in *; injection H as <- <-; cbn [Pages.ctx_notes];
        (apply notes_of_elem; split; [apply elem_of_app; right; apply list_elem_of_here|done]).
Qed.

(** A note is added to [bolt.io] and shows on its page, above the older
    one and without the note of [acme.io]. *)
Lemma company_notes_page_witness :
  let older := {| Pages.note_id := 7; Pages.note_company := "bolt.io";
                  Pages.note_body := "call back"; Pages.created_at := 100 |} in
  let other := {| Pages.note_id := 8; Pages.note_company := "acme.io";
                  Pages.note_body := "met at fair"; Pages.created_at := 90 |} in
  let added := {| Pages.note_id := 9; Pages.note_company := "bolt.io";
                  Pages.note_body := "sent offer"; Pages.created_at := 120 |} in
  let form := λ q : QueryDict, get q "body" in
  let r := Pages.company_notes form [older; other] Sample.db3
             (Sample.post_request [("body", "sent offer")]) "bolt.io" 120 in
  snd r = Pages.Redirected "companies:company_notes" ["bolt.io"]
            [(SUCCESS, "Note added successfully.")]
  ∧ fst r = [older; other; added]
  ∧ snd (Pages.company_notes form (fst r) Sample.db3 (Sample.get_request []) "bolt.io" 130)
    = Pages.Rendered "companies/company_notes.html"
        {| Pages.ctx_company := Sample.bolt; Pages.ctx_notes := [added; older];
           Pages.ctx_form_bound := false |}.
Proof.
  intros older other added form r.
  assert (Hpk : "bolt.io" ∈ map domain (companies Sample.db3)).
  { apply (bool_decide_unpack _). vm_compute. exact I. }
  destruct (company_notes_page form [older; other] Sample.db3
              (Sample.post_request [("body", "sent offer")]) "bolt.io" 120)
    as (_ & _ & Hadd).
  destruct (Hadd "sent offer" eq_refl Hpk eq_refl) as [Hredirect _].
  split_and!; [exact Hredirect|vm_compute; reflexivity|vm_compute; reflexivity].
Defined.
(** ** The leads of a company on the two pages that show them *)

Lemma company__domain_iff (db : DB) (l : Lead) (pk : string) :
  pk ∈ map domain (companies db) →
  Leads.company__domain db l = PyStr pk ↔ Models.company l = Some pk.
Proof.
  intros Hpk. unfold Leads.company__domain, company_of.
  destruct (Models.company l) as [d|]; [|done].
  destruct (List.find _ (companies db)) as [c|] eqn:E.
  - apply find_some in E as [_ Hd]. apply String.eqb_eq in Hd. rewrite Hd.
    split; congruence.
  - split; [done|]. intros [= ->]. exfalso.
    apply list_elem_of_fmap in Hpk as (c & -> & Hc). apply list_elem_of_In in Hc.
    pose proof (find_none _ _ E c Hc) as H. simpl in H.
    by rewrite String.eqb_refl in H.
Qed.

(** The lead list filtered by a company and the detail page of that
    company show the same leads.  For a company of the table (its domain
    not being empty) and a list request with [company] set to the domain
    and no search, the rows of the lead list are the linked leads of the
    detail page, as many as the list's total; and under [sort=score] they
    also come in the same order. *)
Theorem company_leads_on_both_pages (db : DB) (request : HttpRequest) (pk : string)
    (company : Company) :
  Pages.get_company db pk = Some company →
  pk ≠ "" →
  strip (get_or (GET request) "company" "") = pk →
  strip (get_or (GET request) "search" "") = "" →
  Leads.ordered db request ≡ₚ Pages.linked_leads db company
  ∧ Leads.total_leads (Leads.lead_list db request)
    = length (Pages.linked_leads db company)
  ∧ leads_count db company
    = PyInt (Z.of_nat (Leads.total_leads (Leads.lead_list db request)))
  ∧ (lower (strip (or_empty (get (GET request) "sort"))) = "score" →
     Leads.ordered db request = Pages.linked_leads db company).
Proof.
  intros Hget Hne Hco Hsearch.
  apply get_company_found in Hget as [Hin Hd].
  assert (Hpk : pk ∈ map domain (companies db)).
  { rewrite <- Hd. by apply (list_elem_of_fmap_2 domain). }
  assert (Hf : Leads.filtered db request =
               List.filter (λ l, bool_decide (Models.company l = Some (domain company)))
                           (leads db)).
  { unfold Leads.filtered. rewrite Hco, Hsearch.
    change (nonempty "") with false. cbv iota.
    apply nonempty_true in Hne. rewrite Hne.
    apply filter_ext_in. intros l _. rewrite Hd.
    apply bool_decide_ext. by apply company__domain_iff. }
  assert (Hlinked : Pages.linked_leads db company ≡ₚ Leads.filtered db request).
  { rewrite Hf. apply order_by_sorted_perm. }
  assert (Htotal : Leads.total_leads (Leads.lead_list db request) =
                   length (Leads.filtered db request)) by reflexivity.
  split_and!.
  - by rewrite lead_ordered_perm, Hlinked.
  - by rewrite Htotal, (Permutation_length Hlinked).
  - rewrite Htotal, Hf. reflexivity.
  - intros Hkey.
    assert (Hallowed : "score" ∈ Leads.allowed_sort_keys).
    { apply (bool_decide_unpack _). vm_compute. exact I. }
    destruct (lead_ordered_known_key db request "score" Hkey Hallowed) as [_ ->].
    by rewrite Hf.
Qed.

Lemma company_leads_on_both_pages_witness :
  let request := Sample.get_request [("company", "acme.io"); ("sort", "score")] in
  Leads.ordered Sample.db3 request ≡ₚ Pages.linked_leads Sample.db3 Sample.acme
  ∧ Leads.total_leads (Leads.lead_list Sample.db3 request)
    = length (Pages.linked_leads Sample.db3 Sample.acme)
  ∧ leads_count Sample.db3 Sample.acme
    = PyInt (Z.of_nat (Leads.total_leads (Leads.lead_list Sample.db3 request)))
  ∧ (lower (strip (or_empty (get (GET request) "sort"))) = "score" →
     Leads.ordered Sample.db3 request = Pages.linked_leads Sample.db3 Sample.acme).
Proof.
  intros request.
  apply (company_leads_on_both_pages Sample.db3 request "acme.io" Sample.acme).
  - vm_compute. reflexivity.
  - discriminate.
  - vm_compute. reflexivity.
  - vm_compute. reflexivity.
Defined.
